(** * music-gen-3d: the forward-pass visualizer, embedded and verified

    A shallow embedding of the JavaScript sources

      - [app-state.js]    the global [AppState] object,
      - [3d-engine.js]    class [DataGenerator], and of class [Engine3D]
                          the layout of the nodes and the layer lookups,
      - [audio-player.js] class [AudioPlayer],
      - [app.js]          the event handlers and the step animator,

    followed by the properties proved about them.

    Conventions of the embedding.

    - JavaScript numbers are idealised: integral counters and indices are
      [Z] or [nat], every other number is a rational [Q] (compared with
      [==]).  A timer delay that is not a finite number is [None].  The latent
      dimension, the parsed position of a range slider, is a [nat].
    - [Math.random] is an oracle [random : nat -> Q]: [random k] is the
      number returned to the k-th call made by the data generator, and the
      number of such calls made so far is part of the state.  The calls the
      3D engine makes for its particles and decorations are not part of the
      model.  [Math.sin] is an oracle [sin : Q -> Q].
    - The DOM, the 3D scene, the canvases, the console and Tone.js are
      outside the program: every call into them that returns is recorded,
      in order, as an [Event].  Such a call is taken to return, except
      where the JavaScript itself dereferences [AppState.getCurrentArch()]
      or one of its layers: that is modelled, and a call that throws there
      leaves no event.
    - [setTimeout] in app.js and audio-player.js appends a pending [Timer];
      the callback passed to [engine3D.animateDataFlow] is invoked when the
      particle animation is over, which the model places right after the
      call.  The timers the 3D engine sets for its own displays are not
      part of the model.
    - [await Tone.start()] in the async method [play] suspends the call:
      it returns to its caller at once, and the rest of its body runs
      later, when the promise resolves.  The suspended calls are part of
      the state ([suspended], with the notes each holds); [toneStarted i]
      resumes one of them, in one piece.
    - A lookup in an object literal ([architectures[key]], [counts[type]],
      [typeNames[type]]) is a lookup in a finite map; a key that names a
      property of [Object.prototype] is outside the model
      ([object_prototype_keys]).
    - Arrays are never mutated through an alias in the modelled code
      ([reset] installs fresh arrays, the transforms build new arrays with
      [map]), so arrays are values: [list]. *)

From Stdlib Require Import QArith Qminmax Qround ZArith Lia Lqa.
From stdpp Require Import base strings gmap list pretty.

Set Default Proof Using "Type".

(** ** Exceptions *)

(** The result of running JavaScript code that may throw. *)
Inductive Res (A : Type) : Type :=
| Ok (a : A)
| Throw (e : string).
Arguments Ok {A} a.
Arguments Throw {A} e.

(** ** The random source *)

(** Code whose only effect is drawing from [Math.random]: the state is the
    number of draws made so far. *)
Definition Rand (A : Type) : Type := nat -> A * nat.

#[global] Instance Rand_ret : MRet Rand := fun A a k => (a, k).
#[global] Instance Rand_bind : MBind Rand :=
  fun A B f m k => let '(a, k') := m k in f a k'.
#[global] Instance Rand_fmap : FMap Rand :=
  fun A B f m k => let '(a, k') := m k in (f a, k').

(** ** Notes, layer data and layer outputs *)

(** A note object.  [pitch], [duration] and [velocity] are set wherever a
    note is created; [time] is absent from the notes that
    [applyGenericTransform] builds from a non-array input; the remaining
    properties are the ones the layer transforms add with a spread. *)
Module Note.
Record t : Type := mk {
  pitch : Q;
  time : option Q;
  duration : Q;
  velocity : Q;
  features : option (list Q);
  hidden : option Q;
  cell : option Q;
  attention : option Q
}.
End Note.

(** The values that flow from layer to layer: [null] (the initial
    [AppState.inputData]), an array of notes, the object built by
    [applyLatentSampling], or the object built by [applyTimeEmbedding]. *)
Inductive Data : Type :=
| DNull
| DNotes (notes : list Note.t)
| DLatent (mu sigma z : list Q)
| DTime (timestep : Q) (embedding : list Q).

Module Layer.
Record t : Type := mk {
  name : string;
  type : string;
  inputShape : string;
  outputShape : string;
  operation : string;
  color : Z;
  params : Z;
  formula : string;
  description : string
}.
End Layer.

Module Arch.
Record t : Type := mk {
  name : string;
  layers : list Layer.t
}.
End Arch.

(** What [DataGenerator.processLayer] returns. *)
Module LayerOutput.
Record t : Type := mk {
  layer : string;
  type : string;
  data : Data;
  activation : list (list Q)
}.
End LayerOutput.

(** [arr[i]] for a JavaScript number [i]: [undefined] out of range. *)
Definition at_index {A : Type} (arr : list A) (i : Z) : option A :=
  if (i <? 0)%Z then None else arr !! Z.to_nat i.

(** ** app-state.js *)

Module AppState.

Record t : Type := mk {
  currentArchitecture : string;
  inputData : option (list Note.t);
  inputNotes : list Note.t;
  layerOutputs : list LayerOutput.t;
  currentStep : Z;
  totalSteps : Z;
  isAnimating : bool;
  isAutoPlaying : bool;
  animationSpeed : Q;
  temperature : Q;
  latentDim : nat;
  outputNotes : list Note.t
}.

(** The object literal of the source. *)
Definition initial : t := {|
  currentArchitecture := "VAE";
  inputData := None;
  inputNotes := [];
  layerOutputs := [];
  currentStep := 0;
  totalSteps := 0;
  isAnimating := false;
  isAutoPlaying := false;
  animationSpeed := 1;
  temperature := 1;
  latentDim := 128%nat;
  outputNotes := []
|}.

Definition VAE : Arch.t := {|
  Arch.name := "Variational Autoencoder";
  Arch.layers := [
    Layer.mk "Input Layer" "input" "[T, 88]" "[T, 88]"
      "Input(piano_roll)" 0x00d4ff 0
      "X ∈ ℝ^(T×88)"
      "Piano roll input representation with 88 piano keys over time";
    Layer.mk "Encoder Conv1" "conv" "[T, 88]" "[T, 256]"
      "Conv1D(filters=256, kernel=3)" 0x0099ff 67840
      "h₁ = ReLU(W₁ ∗ X + b₁)"
      "First convolutional layer extracts low-level musical features like note patterns";
    Layer.mk "Encoder Conv2" "conv" "[T, 256]" "[T, 512]"
      "Conv1D(filters=512, kernel=3)" 0x0066ff 393728
      "h₂ = ReLU(W₂ ∗ h₁ + b₂)"
      "Second convolutional layer captures higher-level musical structures and motifs";
    Layer.mk "Latent Space (μ, σ)" "latent" "[T, 512]" "[128]"
      "Dense(128) + Sampling" 0xff00ff 131200
      "z ~ N(μ(h₂), σ²(h₂))"
      "Compressed latent representation with stochastic sampling for variation";
    Layer.mk "Decoder Dense" "dense" "[128]" "[T, 512]"
      "Dense(T×512) + Reshape" 0xff6600 131584
      "h₃ = ReLU(W₃z + b₃)"
      "Expands latent vector back to sequence representation";
    Layer.mk "Decoder Conv1" "deconv" "[T, 512]" "[T, 256]"
      "ConvTranspose1D(filters=256)" 0xff9900 393472
      "h₄ = ReLU(W₄ᵀ ∗ h₃ + b₄)"
      "First decoder layer reconstructs musical structure";
    Layer.mk "Output Layer" "output" "[T, 256]" "[T, 88]"
      "ConvTranspose1D(filters=88) + Sigmoid" 0x00ff88 67672
      "Y = σ(W₅ᵀ ∗ h₄ + b₅)"
      "Final layer generates piano roll output with note probabilities"
  ]
|}.

Definition LSTM : Arch.t := {|
  Arch.name := "LSTM Recurrent Network";
  Arch.layers := [
    Layer.mk "Input Sequence" "input" "[T, 88]" "[T, 88]"
      "Input(sequence)" 0x00d4ff 0
      "X = [x₁, x₂, ..., xₜ]"
      "Sequential input where each timestep is a piano roll frame";
    Layer.mk "Embedding Layer" "embedding" "[T, 88]" "[T, 256]"
      "Dense(256)" 0x00aaff 22784
      "e = Wx + b"
      "Embeds discrete notes into continuous vector space";
    Layer.mk "LSTM Layer 1" "lstm" "[T, 256]" "[T, 256]"
      "LSTM(units=256, return_seq=True)" 0x0066ff 525312
      "hₜ = LSTM(hₜ₋₁, xₜ)"
      "First LSTM processes sequence while maintaining hidden state";
    Layer.mk "LSTM Layer 2" "lstm" "[T, 256]" "[T, 256]"
      "LSTM(units=256, return_seq=True)" 0x3366ff 525312
      "h'ₜ = LSTM(h'ₜ₋₁, hₜ)"
      "Second LSTM layer captures longer-term dependencies";
    Layer.mk "Output Projection" "output" "[T, 256]" "[T, 88]"
      "Dense(88) + Softmax" 0x00ff88 22616
      "Y = softmax(Wh + b)"
      "Projects LSTM output to piano roll with note probabilities"
  ]
|}.

Definition Transformer : Arch.t := {|
  Arch.name := "Transformer Architecture";
  Arch.layers := [
    Layer.mk "Input Embedding" "input" "[T, 88]" "[T, 512]"
      "Embedding(512)" 0x00d4ff 45056
      "E = Embed(X)"
      "Embeds input tokens into high-dimensional space";
    Layer.mk "Positional Encoding" "positional" "[T, 512]" "[T, 512]"
      "AddPosEncoding" 0x0099ff 0
      "PE(pos,2i) = sin(pos/10000^(2i/d))"
      "Adds positional information since Transformer has no inherent sequence order";
    Layer.mk "Multi-Head Attention" "attention" "[T, 512]" "[T, 512]"
      "MultiHeadAttention(heads=8)" 0xff00ff 1049600
      "Attention(Q,K,V) = softmax(QKᵀ/√d)V"
      "Self-attention mechanism allows each position to attend to all positions";
    Layer.mk "Feed Forward Network" "ffn" "[T, 512]" "[T, 512]"
      "FFN(2048→512)" 0xff6600 2099200
      "FFN(x) = ReLU(W₁x + b₁)W₂ + b₂"
      "Position-wise feed-forward network applied to each position independently";
    Layer.mk "Output Projection" "output" "[T, 512]" "[T, 88]"
      "Linear(88)" 0x00ff88 45144
      "Y = Wx + b"
      "Final linear projection to output vocabulary (88 piano keys)"
  ]
|}.

Definition Diffusion : Arch.t := {|
  Arch.name := "Diffusion Model";
  Arch.layers := [
    Layer.mk "Noisy Input" "input" "[T, 88]" "[T, 88]"
      "AddNoise(t, β)" 0xff0000 0
      "xₜ = √ᾱₜx₀ + √(1-ᾱₜ)ε"
      "Input with Gaussian noise added according to diffusion schedule at timestep t";
    Layer.mk "Time Embedding" "time" "[1]" "[256]"
      "SinusoidalPosEmbed(t)" 0xff6600 0
      "tₑ = [sin(t·ω), cos(t·ω)]"
      "Embeds timestep information to condition the model on noise level";
    Layer.mk "U-Net Downsampling" "down" "[T, 88]" "[T/2, 512]"
      "Conv2D(512) + Downsample" 0xff9900 451584
      "h↓ = Conv(xₜ, tₑ)"
      "Downsampling path extracts features at multiple scales";
    Layer.mk "Bottleneck" "bottleneck" "[T/2, 512]" "[T/4, 1024]"
      "ResBlock(1024) + Attention" 0xff00ff 2099200
      "h = ResBlock(h↓) + Attn(h↓)"
      "Bottleneck with residual connections and self-attention";
    Layer.mk "U-Net Upsampling" "up" "[T/4, 1024]" "[T/2, 512]"
      "ConvTranspose2D(512) + Skip" 0x00d4ff 2098176
      "h↑ = ConvT(h, skip)"
      "Upsampling path reconstructs with skip connections from downsampling";
    Layer.mk "Noise Prediction" "predict" "[T/2, 512]" "[T, 88]"
      "Conv2D(88) + Upsample" 0x0099ff 225280
      "ε̂ = fθ(xₜ, t)"
      "Predicts the noise component that was added to the input";
    Layer.mk "Denoised Output" "output" "[T, 88]" "[T, 88]"
      "x₀ = (xₜ - √(1-ᾱₜ)ε̂) / √ᾱₜ" 0x00ff88 0
      "x̂₀ = Denoise(xₜ, ε̂, t)"
      "Removes predicted noise to recover clean music signal"
  ]
|}.

(** [AppState.architectures]: an object used as a map from preset key to
    preset.  No code assigns to it. *)
Definition architectures : gmap string Arch.t :=
  <["VAE" := VAE]> (<["LSTM" := LSTM]>
    (<["Transformer" := Transformer]> (<["Diffusion" := Diffusion]> ∅))).

(** [getCurrentArch()]: [None] is JavaScript's [undefined]. *)
Definition getCurrentArch (st : t) : option Arch.t :=
  architectures !! currentArchitecture st.

Definition set_currentArchitecture (v : string) (st : t) : t :=
  mk v (inputData st) (inputNotes st) (layerOutputs st) (currentStep st)
     (totalSteps st) (isAnimating st) (isAutoPlaying st) (animationSpeed st)
     (temperature st) (latentDim st) (outputNotes st).
Definition set_inputData (v : option (list Note.t)) (st : t) : t :=
  mk (currentArchitecture st) v (inputNotes st) (layerOutputs st)
     (currentStep st) (totalSteps st) (isAnimating st) (isAutoPlaying st)
     (animationSpeed st) (temperature st) (latentDim st) (outputNotes st).
Definition set_inputNotes (v : list Note.t) (st : t) : t :=
  mk (currentArchitecture st) (inputData st) v (layerOutputs st)
     (currentStep st) (totalSteps st) (isAnimating st) (isAutoPlaying st)
     (animationSpeed st) (temperature st) (latentDim st) (outputNotes st).
Definition set_layerOutputs (v : list LayerOutput.t) (st : t) : t :=
  mk (currentArchitecture st) (inputData st) (inputNotes st) v
     (currentStep st) (totalSteps st) (isAnimating st) (isAutoPlaying st)
     (animationSpeed st) (temperature st) (latentDim st) (outputNotes st).
Definition set_currentStep (v : Z) (st : t) : t :=
  mk (currentArchitecture st) (inputData st) (inputNotes st)
     (layerOutputs st) v (totalSteps st) (isAnimating st) (isAutoPlaying st)
     (animationSpeed st) (temperature st) (latentDim st) (outputNotes st).
Definition set_totalSteps (v : Z) (st : t) : t :=
  mk (currentArchitecture st) (inputData st) (inputNotes st)
     (layerOutputs st) (currentStep st) v (isAnimating st) (isAutoPlaying st)
     (animationSpeed st) (temperature st) (latentDim st) (outputNotes st).
Definition set_isAnimating (v : bool) (st : t) : t :=
  mk (currentArchitecture st) (inputData st) (inputNotes st)
     (layerOutputs st) (currentStep st) (totalSteps st) v (isAutoPlaying st)
     (animationSpeed st) (temperature st) (latentDim st) (outputNotes st).
Definition set_isAutoPlaying (v : bool) (st : t) : t :=
  mk (currentArchitecture st) (inputData st) (inputNotes st)
     (layerOutputs st) (currentStep st) (totalSteps st) (isAnimating st) v
     (animationSpeed st) (temperature st) (latentDim st) (outputNotes st).
Definition set_animationSpeed (v : Q) (st : t) : t :=
  mk (currentArchitecture st) (inputData st) (inputNotes st)
     (layerOutputs st) (currentStep st) (totalSteps st) (isAnimating st)
     (isAutoPlaying st) v (temperature st) (latentDim st) (outputNotes st).
Definition set_temperature (v : Q) (st : t) : t :=
  mk (currentArchitecture st) (inputData st) (inputNotes st)
     (layerOutputs st) (currentStep st) (totalSteps st) (isAnimating st)
     (isAutoPlaying st) (animationSpeed st) v (latentDim st) (outputNotes st).
Definition set_latentDim (v : nat) (st : t) : t :=
  mk (currentArchitecture st) (inputData st) (inputNotes st)
     (layerOutputs st) (currentStep st) (totalSteps st) (isAnimating st)
     (isAutoPlaying st) (animationSpeed st) (temperature st) v (outputNotes st).
Definition set_outputNotes (v : list Note.t) (st : t) : t :=
  mk (currentArchitecture st) (inputData st) (inputNotes st)
     (layerOutputs st) (currentStep st) (totalSteps st) (isAnimating st)
     (isAutoPlaying st) (animationSpeed st) (temperature st) (latentDim st) v.

(** [reset()]. *)
Definition reset (st : t) : t :=
  set_isAnimating false
    (set_outputNotes [] (set_layerOutputs [] (set_currentStep 0 st))).

End AppState.

(** Spread updates of a note: [{...note, p: v}]. *)
Module NoteUpd.
Import Note.
Definition set_pitch (v : Q) (n : t) : t :=
  mk v (time n) (duration n) (velocity n) (features n) (hidden n) (cell n)
     (attention n).
Definition set_velocity (v : Q) (n : t) : t :=
  mk (pitch n) (time n) (duration n) v (features n) (hidden n) (cell n)
     (attention n).
Definition set_features (v : list Q) (n : t) : t :=
  mk (pitch n) (time n) (duration n) (velocity n) (Some v) (hidden n)
     (cell n) (attention n).
Definition set_hidden (v : Q) (n : t) : t :=
  mk (pitch n) (time n) (duration n) (velocity n) (features n) (Some v)
     (cell n) (attention n).
Definition set_cell (v : Q) (n : t) : t :=
  mk (pitch n) (time n) (duration n) (velocity n) (features n) (hidden n)
     (Some v) (attention n).
Definition set_attention (v : Q) (n : t) : t :=
  mk (pitch n) (time n) (duration n) (velocity n) (features n) (hidden n)
     (cell n) (Some v).
(** [{pitch, time, duration, velocity}] *)
Definition timed (p t0 d v : Q) : t :=
  mk p (Some t0) d v None None None None.
(** [{pitch, velocity, duration}] *)
Definition untimed (p v d : Q) : t :=
  mk p None d v None None None None.
End NoteUpd.

(** ** 3d-engine.js, class DataGenerator *)

Module DataGenerator.
Section Oracles.
Local Open Scope Q_scope.

Variable random : nat -> Q.
Variable sin : Q -> Q.

(** [Math.random()] *)
Definition Math_random : Rand Q := fun k => (random k, S k).

(** [Math.floor(x)], as a number *)
Definition Math_floor (x : Q) : Q := inject_Z (Qfloor x).

(** [Array(n).fill(0).map(() => e)] *)
Definition fill_map {A : Type} (n : nat) (e : Rand A) : Rand (list A) :=
  mapM (fun _ : nat => e) (replicate n 0%nat).

Definition generateRandom : Rand (list Note.t) :=
  let length := 32%nat in
  let baseNote := 60 in
  mapM (fun i : nat =>
          r ← Math_random;
          let pitch := baseNote + Math_floor (r * 25) - 12 in
          v ← Math_random;
          mret (NoteUpd.timed (Qmax 36 (Qmin 96 pitch))
                              (inject_Z (Z.of_nat i) * 0.25)
                              0.25
                              (v * 0.4 + 0.6)))
       (seq 0 length).

Definition generateScale : list Note.t :=
  let scale : list Q := [60; 62; 64; 65; 67; 69; 71; 72] in
  (* Ascending *)
  imap (fun i pitch =>
          NoteUpd.timed pitch (inject_Z (Z.of_nat i) * 0.25) 0.25 0.8) scale
  ++
  (* Descending *)
  imap (fun i pitch =>
          NoteUpd.timed pitch
            (inject_Z (Z.of_nat (List.length scale + i)) * 0.25) 0.25 0.8)
       (reverse scale).

Definition generateChords : list Note.t :=
  let chords : list (list Q) :=
    [ [60; 64; 67];      (* C major *)
      [65; 69; 72];      (* F major *)
      [67; 71; 74];      (* G major *)
      [60; 64; 67] ]     (* C major *) in
  concat (imap (fun chordIdx chord =>
                  map (fun pitch =>
                         NoteUpd.timed pitch
                           (inject_Z (Z.of_nat chordIdx) * 1) 1 0.75)
                      chord)
               chords).

Definition generateInput (type : string) : Rand (list Note.t) :=
  if String.eqb type "random" then generateRandom
  else if String.eqb type "scale" then mret generateScale
  else if String.eqb type "chord" then mret generateChords
  else generateRandom.

(** [data.map(f)] throws a TypeError when [data] is not an array. *)
Definition map_notes (f : Note.t -> Rand Note.t) (data : Data)
  : Rand (Res Data) :=
  match data with
  | DNotes notes => out ← mapM f notes; mret (Ok (DNotes out))
  | _ => mret (Throw "TypeError: data.map is not a function")
  end.

Definition applyConvolution (data : Data) (layerIndex : nat)
  : Rand (Res Data) :=
  map_notes (fun note =>
               f ← fill_map 32 Math_random;
               mret (NoteUpd.set_features f note)) data.

Definition applyLSTM (data : Data) : Rand (Res Data) :=
  map_notes (fun note =>
               h ← Math_random;
               c ← Math_random;
               mret (NoteUpd.set_cell c (NoteUpd.set_hidden h note))) data.

Definition applyLatentSampling (st : AppState.t) (data : Data) : Rand Data :=
  let latentDim := AppState.latentDim st in
  mu ← fill_map latentDim (r ← Math_random; mret (r * 2 - 1));
  sigma ← fill_map latentDim Math_random;
  z ← fill_map latentDim (r ← Math_random; mret (r * 2 - 1));
  mret (DLatent mu sigma z).

Definition applyAttention (data : Data) : Rand (Res Data) :=
  map_notes (fun note =>
               a ← Math_random;
               mret (NoteUpd.set_attention a note)) data.

Definition applyTimeEmbedding : Rand Data :=
  t ← Math_random;
  e ← fill_map 256 Math_random;
  mret (DTime t e).

(** The non-array cases follow the source's tests: a time-embedding object
    has a truthy [embedding] array; a latent object has neither [embedding]
    nor [timestep] and takes the fallback, as does [null]. *)
Definition applyGenericTransform (st : AppState.t) (data : Data)
    (layerIndex : nat) : Rand Data :=
  let temp := AppState.temperature st in
  match data with
  | DTime _ embedding =>
      mret (DNotes (map (fun val => NoteUpd.untimed (val * 127) 0.8 0.5)
                        embedding))
  | DLatent _ _ _ | DNull =>
      mret (DNotes (imap (fun i _ =>
                            NoteUpd.untimed (inject_Z (Z.of_nat i) + 21)
                                            0.5 0.5)
                         (replicate 88 0%nat)))
  | DNotes notes =>
      out ← mapM (fun note =>
                    r1 ← Math_random;
                    r2 ← Math_random;
                    mret (NoteUpd.set_velocity
                            (Qmin 1 (Qmax 0 (Note.velocity note
                                             + (r2 - 0.5) * 0.2)))
                            (NoteUpd.set_pitch
                               (Note.pitch note + (r1 - 0.5) * temp * 2)
                               note)))
                 notes;
      mret (DNotes out)
  end.

Definition generateActivationMap (layerIndex : nat) : Rand (list (list Q)) :=
  let size := 16%nat in
  mapM (fun i : nat =>
          mapM (fun j : nat =>
                  r ← Math_random;
                  let value :=
                    r * 0.7
                    + 0.3 * sin (inject_Z (Z.of_nat (i + j)) * 0.5
                                 + inject_Z (Z.of_nat layerIndex)) in
                  mret (Qmax 0 (Qmin 1 value)))
               (seq 0 size))
       (seq 0 size).

(** The [switch (layer.type)] of [processLayer]. *)
Definition layerTransform (st : AppState.t) (type : string)
    (layerIndex : nat) (inputData : Data) : Rand (Res Data) :=
  if String.eqb type "input" then mret (Ok inputData)
  else if String.eqb type "conv" || String.eqb type "deconv"
    then applyConvolution inputData layerIndex
  else if String.eqb type "lstm" then applyLSTM inputData
  else if String.eqb type "latent"
    then Ok <$> applyLatentSampling st inputData
  else if String.eqb type "attention" then applyAttention inputData
  else if String.eqb type "time" then Ok <$> applyTimeEmbedding
  else Ok <$> applyGenericTransform st inputData layerIndex.

Definition processLayer (st : AppState.t) (layerIndex : nat)
    (inputData : Data) : Rand (Res LayerOutput.t) :=
  match AppState.getCurrentArch st with
  | None => mret (Throw "TypeError: arch is undefined")
  | Some arch =>
      match Arch.layers arch !! layerIndex with
      | None => mret (Throw "TypeError: layer is undefined")
      | Some layer =>
          r ← layerTransform st (Layer.type layer) layerIndex inputData;
          match r with
          | Throw e => mret (Throw e)
          | Ok outputData =>
              act ← generateActivationMap layerIndex;
              mret (Ok (LayerOutput.mk (Layer.name layer) (Layer.type layer)
                                       outputData act))
          end
      end
  end.

Definition generateOutput (st : AppState.t) (latentData : Data)
  : Rand (list Note.t) :=
  let length := 32%nat in
  let temp := AppState.temperature st in
  mapM (fun i : nat =>
          r ← Math_random;
          let pitch := 60 + Math_floor (r * temp * 24 - 12) in
          v ← Math_random;
          mret (NoteUpd.timed (Qmax 36 (Qmin 96 pitch))
                              (inject_Z (Z.of_nat i) * 0.25)
                              0.25
                              (v * 0.4 + 0.6)))
       (seq 0 length).

End Oracles.
End DataGenerator.

(** ** The world around AppState *)

(** The texts passed to [updateExplanation], with their interpolated
    values. *)
Inductive Message : Type :=
| MsgSwitchedTo (archName : string)
| MsgWelcome
| MsgGenerated (typeName : option string) (notes : nat)
| MsgErrorGeneratingInput
| MsgPleaseGenerateInput
| MsgErrorForwardPass
| MsgForwardPassComplete (notes : nat)
| MsgErrorGeneratingData
| MsgNoOutputYet
| MsgResetComplete.

(** Calls that leave the program, in the order they are made. *)
Inductive Event : Type :=
(* engine3D *)
| ClearNetwork
| BuildNetwork (arch : string)
| HighlightLayer (layerIndex : Z)
| AnimateDataFlow (fromLayer toLayer : Z)
| ResetLayerNodes
(* visualizer *)
| DrawInput (notes : list Note.t)
| DrawOutput (notes : list Note.t)
| UpdateLayerInfo (layerData : LayerOutput.t) (stepIndex : Z)
| AnimateProgress (step total : Z)
| UpdateLayerList (layers : list LayerOutput.t)
| ShowLoadingAnimation
| HideLoadingAnimation
(* document *)
| DomSet (element property value : string)
| StepDisplay (step total : Z)
| ClearOutputCanvas
| SetExplanation (text : Message)
(* console *)
| ConsoleLog (text : Message)
| ConsoleWarn (text : string)
| ConsoleError (text : string) (error : string)
(* Tone.js *)
| ToneStart
| PartStart (notes : list Note.t)
| PartStop
| PartDispose
| TransportStart
| TransportStop
| TransportCancel
| SynthReleaseAll.

(** The closures handed to [setTimeout]. *)
Inductive Callback : Type :=
| CbAnimateStep (step : Z)
| CbAudioStop.

Record Timer : Type := {
  callback : Callback;
  delay : option Q
}.

(** The fields of an [AudioPlayer] instance that the methods assign;
    [currentPart] holds the events of the scheduled [Tone.Part]. *)
Record PlayerState : Type := {
  isPlaying : bool;
  currentPart : option (list Note.t)
}.

(** [suspended] holds the calls of [play] waiting at [await Tone.start()],
    oldest first, each with its [notes]. *)
Record World : Type := {
  app : AppState.t;
  draws : nat;
  player : PlayerState;
  autoPlayInterval : bool;
  timers : list Timer;
  events : list Event;
  suspended : list (list Note.t)
}.

(** Code of app.js: it reads and writes the world and may throw; what was
    done before a throw stays done. *)
Definition M (A : Type) : Type := World -> Res A * World.

#[global] Instance M_ret : MRet M := fun A a w => (Ok a, w).
#[global] Instance M_bind : MBind M :=
  fun A B f m w =>
    match m w with
    | (Ok a, w') => f a w'
    | (Throw e, w') => (Throw e, w')
    end.

Definition throw {A : Type} (e : string) : M A := fun w => (Throw e, w).

(** [try { body } catch (error) { handler }] *)
Definition try_catch {A : Type} (body : M A) (handler : string -> M A) : M A :=
  fun w =>
    match body w with
    | (Ok a, w') => (Ok a, w')
    | (Throw e, w') => handler e w'
    end.

(** Updates of one component of the world. *)
Definition with_app (f : AppState.t -> AppState.t) (w : World) : World :=
  {| app := f (app w); draws := draws w; player := player w;
     autoPlayInterval := autoPlayInterval w; timers := timers w;
     events := events w; suspended := suspended w |}.

Definition with_draws (k : nat) (w : World) : World :=
  {| app := app w; draws := k; player := player w;
     autoPlayInterval := autoPlayInterval w; timers := timers w;
     events := events w; suspended := suspended w |}.

Definition with_player (p : PlayerState) (w : World) : World :=
  {| app := app w; draws := draws w; player := p;
     autoPlayInterval := autoPlayInterval w; timers := timers w;
     events := events w; suspended := suspended w |}.

Definition with_autoPlayInterval (b : bool) (w : World) : World :=
  {| app := app w; draws := draws w; player := player w;
     autoPlayInterval := b; timers := timers w; events := events w;
     suspended := suspended w |}.

Definition with_timers (ts : list Timer) (w : World) : World :=
  {| app := app w; draws := draws w; player := player w;
     autoPlayInterval := autoPlayInterval w; timers := ts;
     events := events w; suspended := suspended w |}.

Definition add_events (es : list Event) (w : World) : World :=
  {| app := app w; draws := draws w; player := player w;
     autoPlayInterval := autoPlayInterval w; timers := timers w;
     events := events w ++ es; suspended := suspended w |}.

Definition with_suspended (calls : list (list Note.t)) (w : World) : World :=
  {| app := app w; draws := draws w; player := player w;
     autoPlayInterval := autoPlayInterval w; timers := timers w;
     events := events w; suspended := calls |}.

Definition get_app : M AppState.t := fun w => (Ok (app w), w).

Definition modify_app (f : AppState.t -> AppState.t) : M unit :=
  fun w => (Ok tt, with_app f w).

Definition get_player : M PlayerState := fun w => (Ok (player w), w).

Definition set_player (p : PlayerState) : M unit :=
  fun w => (Ok tt, with_player p w).

Definition get_autoPlayInterval : M bool :=
  fun w => (Ok (autoPlayInterval w), w).

Definition set_autoPlayInterval (b : bool) : M unit :=
  fun w => (Ok tt, with_autoPlayInterval b w).

Definition emit (e : Event) : M unit :=
  fun w => (Ok tt, add_events [e] w).

(** [setTimeout(cb, d)] *)
Definition setTimeout (cb : Callback) (d : option Q) : M unit :=
  fun w => (Ok tt,
            with_timers (timers w ++ [{| callback := cb; delay := d |}]) w).

(** [await] in [play(notes)]: the call is left pending and control goes
    back to its caller. *)
Definition await_in_play (notes : list Note.t) : M unit :=
  fun w => (Ok tt, with_suspended (suspended w ++ [notes]) w).

(** Run code of the data generator: it draws random numbers and may throw. *)
Definition draw {A : Type} (g : Rand (Res A)) : M A :=
  fun w => let '(r, k) := g (draws w) in (r, with_draws k w).

(** [x]: a defined value or a TypeError on dereference. *)
Definition deref {A : Type} (what : string) (x : option A) : M A :=
  match x with
  | Some a => mret a
  | None => throw ("TypeError: " +:+ what +:+ " is undefined")
  end.

Definition when (b : bool) (m : M unit) : M unit :=
  if b then m else mret tt.

(** ** visualization.js and the 3D engine, as seen from app.js *)

Module Visualizer.

Definition drawInput (notes : list Note.t) : M unit := emit (DrawInput notes).

Definition drawOutput (notes : list Note.t) : M unit :=
  emit (DrawOutput notes).

(** Reads [arch.layers.length] before it touches the progress bar. *)
Definition animateProgress (step total : Z) : M unit :=
  st ← get_app;
  _ ← deref "arch" (AppState.getCurrentArch st);
  emit (AnimateProgress step total).

(** Reads [arch.layers[stepIndex].name] before it touches the overlay.
    [layerData.activation] is an array, hence truthy: no activation map is
    generated here. *)
Definition updateLayerInfo (layerData : LayerOutput.t) (stepIndex : Z)
  : M unit :=
  st ← get_app;
  arch ← deref "arch" (AppState.getCurrentArch st);
  _ ← deref "layer" (at_index (Arch.layers arch) stepIndex);
  emit (UpdateLayerInfo layerData stepIndex).

(** Iterates over [arch.layers]. *)
Definition updateLayerList (layers : list LayerOutput.t) : M unit :=
  st ← get_app;
  _ ← deref "arch" (AppState.getCurrentArch st);
  emit (UpdateLayerList layers).

Definition showLoadingAnimation : M unit := emit ShowLoadingAnimation.
Definition hideLoadingAnimation : M unit := emit HideLoadingAnimation.

End Visualizer.

Module Engine3D.

(** Clears the scene, reads [AppState.getCurrentArch().layers], builds the
    groups and decorations, and records the number of layers. *)
Definition buildNetwork (architecture : string) : M unit :=
  emit ClearNetwork;;
  st ← get_app;
  arch ← deref "arch" (AppState.getCurrentArch st);
  emit (BuildNetwork architecture);;
  modify_app (AppState.set_totalSteps (Z.of_nat (length (Arch.layers arch)))).

Definition highlightLayer (layerIndex : Z) : M unit :=
  emit (HighlightLayer layerIndex).

(** The particle animation ends after finitely many frames (or at once
    when a layer group is missing) and then calls [callback]. *)
Definition animateDataFlow (fromLayer toLayer : Z) (callback : M unit)
  : M unit :=
  emit (AnimateDataFlow fromLayer toLayer);;
  callback.

(** [getNodeCount(type)]: the table [counts], with 16 for a type it does
    not list (and that is not in [object_prototype_keys]). *)
Definition counts : gmap string Z :=
  list_to_map
    [("input", 16); ("conv", 20); ("deconv", 20); ("lstm", 18);
     ("embedding", 16); ("positional", 16); ("attention", 24); ("ffn", 20);
     ("latent", 12); ("dense", 18); ("time", 8); ("down", 16);
     ("bottleneck", 20); ("up", 16); ("predict", 14); ("output", 16)]%Z.

Definition getNodeCount (type : string) : Z :=
  match counts !! type with
  | Some c => if (c =? 0)%Z then 16 else c
  | None => 16
  end%Z.

(** The arrangement of the nodes of a layer in [createLayerGroup]:
    [rows = Math.ceil(Math.sqrt(nodeCount))],
    [cols = Math.ceil(nodeCount / rows)]. *)
Definition grid_rows (nodeCount : Z) : Z := Z.sqrt_up nodeCount.

Definition grid_cols (nodeCount : Z) : Z :=
  Qceiling (inject_Z nodeCount / inject_Z (grid_rows nodeCount)).

(** The position given to node [i] of the group of [layerInfo] placed at
    [xPosition]. *)
Definition node_position (layerInfo : Layer.t) (xPosition : Q) (i : Z)
  : Q * Q * Q :=
  let nodeCount := getNodeCount (Layer.type layerInfo) in
  let spacing := 3.5%Q in
  let rows := grid_rows nodeCount in
  let cols := grid_cols nodeCount in
  let startY := (- (inject_Z (rows - 1)) * spacing / 2)%Q in
  let startZ := (- (inject_Z (cols - 1)) * spacing / 2)%Q in
  let row := (i / cols)%Z in
  let col := Z.rem i cols in
  (xPosition,
   (startY + inject_Z row * spacing)%Q,
   (startZ + inject_Z col * spacing)%Q).

(** The positions of the nodes that [buildNetwork] creates for the layer
    at [index] of [layers], in the order of creation. *)
Definition layer_positions (layers : list Layer.t) (index : nat)
    (layer : Layer.t) : list (Q * Q * Q) :=
  let spacing := 18%Q in
  let startX :=
    (- (inject_Z (Z.of_nat (length layers)) - 1) * spacing / 2)%Q in
  map (fun i : nat =>
         node_position layer (startX + inject_Z (Z.of_nat index) * spacing)%Q
                       (Z.of_nat i))
      (seq 0 (Z.to_nat (getNodeCount (Layer.type layer)))).

Definition network_positions (layers : list Layer.t) : list (Q * Q * Q) :=
  concat (imap (layer_positions layers) layers).

(** [getTensorShape(fromLayer, toLayer)] and [getDataSize(fromLayer,
    toLayer)], which [animateDataFlow] calls for its particles. *)
Definition getTensorShape (fromLayer toLayer : Z) : M (string * string) :=
  st ← get_app;
  arch ← deref "arch" (AppState.getCurrentArch st);
  f ← deref "layer" (at_index (Arch.layers arch) fromLayer);
  t ← deref "layer" (at_index (Arch.layers arch) toLayer);
  mret (Layer.outputShape f, Layer.outputShape t).

Definition getDataSize (fromLayer toLayer : Z) : M (Z * Z) :=
  st ← get_app;
  arch ← deref "arch" (AppState.getCurrentArch st);
  f ← deref "layer" (at_index (Arch.layers arch) fromLayer);
  t ← deref "layer" (at_index (Arch.layers arch) toLayer);
  mret (Layer.params f, Layer.params t).

End Engine3D.

(** ** audio-player.js *)

Module AudioPlayer.
Local Open Scope Q_scope.

Definition initial : PlayerState :=
  {| isPlaying := false; currentPart := None |}.

Definition stop : M unit :=
  p ← get_player;
  match currentPart p with
  | Some _ =>
      emit PartStop;;
      emit PartDispose;;
      set_player {| isPlaying := isPlaying p; currentPart := None |}
  | None => mret tt
  end;;
  emit TransportStop;;
  emit TransportCancel;;
  emit SynthReleaseAll;;
  p ← get_player;
  set_player {| isPlaying := false; currentPart := currentPart p |}.

(** The event object [{time, pitch, duration, velocity}] built for
    [Tone.Part]. *)
Definition part_event (note : Note.t) : Note.t :=
  Note.mk (Note.pitch note) (Note.time note) (Note.duration note)
          (Note.velocity note) None None None None.

(** The body of [play(notes)] after [await Tone.start()]; the guard has
    made sure that [notes] is not empty. *)
Definition play_resumed (ns : list Note.t) : M unit :=
  stop;;  (* Stop any current playback *)
  emit (PartStart (map part_event ns));;
  p ← get_player;
  set_player {| isPlaying := isPlaying p;
                currentPart := Some (map part_event ns) |};;
  emit TransportStart;;
  p ← get_player;
  set_player {| isPlaying := true; currentPart := currentPart p |};;
  (* Auto-stop after sequence *)
  let duration :=
    n ← last ns;
    t ← Note.time n;
    Some (t + Note.duration n) in
  setTimeout CbAudioStop ((fun d => d * 1000 + 500) <$> duration).

(** [play(notes)] up to its [await]; [None] is [null].  The method is
    [async]: it calls [Tone.start()] and returns, the rest of its body
    being left pending. *)
Definition play (notes : option (list Note.t)) : M unit :=
  match notes with
  | None | Some [] => emit (ConsoleWarn "No notes to play")
  | Some ns =>
      emit ToneStart;;
      await_in_play ns
  end.

(** The promise of [Tone.start()] of the [i]-th suspended call resolves:
    the call leaves the queue and the rest of its body runs. *)
Definition toneStarted (i : nat) : M unit :=
  fun w =>
    match suspended w !! i with
    | None => (Ok tt, w)
    | Some ns => play_resumed ns (with_suspended (delete i (suspended w)) w)
    end.

(** [x % m] for a positive integer [m]: the quotient is truncated towards
    zero, so the remainder has the sign of [x]. *)
Definition js_rem (x : Q) (m : Z) : Q :=
  let q := x / inject_Z m in
  let t := if Qle_bool 0 q then Qfloor q else Qceiling q in
  x - inject_Z (m * t).

(** [arr[k]] for a number [k]: [undefined] unless [k] is an integer within
    the array. *)
Definition at_number {A : Type} (arr : list A) (k : Q) : option A :=
  if Qeq_bool (inject_Z (Qfloor k)) k then at_index arr (Qfloor k) else None.

(** [midiToNote(midi)].  When [notes[noteIndex]] is [undefined] the sum
    [undefined + octave] is the number [NaN], not a name: [None].  The octave
    is an integer and is printed in decimal. *)
Definition midiToNote (midi : Q) : option string :=
  let notes :=
    ["C"; "C#"; "D"; "D#"; "E"; "F"; "F#"; "G"; "G#"; "A"; "A#"; "B"] in
  let octave := (Qfloor (midi / 12) - 1)%Z in
  let noteIndex := js_rem midi 12 in
  name ← at_number notes noteIndex;
  Some (name +:+ pretty octave).

End AudioPlayer.

(** ** app.js *)

Section App.

(** [Math.random], [Math.sin], [parseFloat], [parseInt] on a slider value,
    and whether [document.querySelector('.progress-text')] finds an
    element. *)
Variable random : nat -> Q.
Variable sin : Q -> Q.
Variable parseFloat : string -> Q.
Variable parseInt : string -> nat.
Variable stepDisplay : bool.

(** [AppState.inputData] as a layer input. *)
Definition data_of_input (inputData : option (list Note.t)) : Data :=
  match inputData with
  | Some notes => DNotes notes
  | None => DNull
  end.

(** [x / y]: [None] when the quotient is not a finite number. *)
Definition js_div (x y : Q) : option Q :=
  if Qeq_bool y 0 then None else Some (x / y)%Q.

(** [el.textContent = text] (when the element exists), then
    [console.log]. *)
Definition updateExplanation (text : Message) : M unit :=
  emit (SetExplanation text);;
  emit (ConsoleLog text).

(** [AppState.outputNotes = dataGenerator.generateOutput(data);
     visualizer.drawOutput(AppState.outputNotes)] *)
Definition regenerateOutput (data : Data) : M unit :=
  st ← get_app;
  notes ← draw (Ok <$> DataGenerator.generateOutput random st data);
  modify_app (AppState.set_outputNotes notes);;
  Visualizer.drawOutput notes.

(** [if (layerData) visualizer.updateLayerInfo(layerData, step)] *)
Definition showLayerInfo (layerData : option LayerOutput.t) (step : Z)
  : M unit :=
  match layerData with
  | Some ld => Visualizer.updateLayerInfo ld step
  | None => mret tt
  end.

(** The loop [arch.layers.forEach((layer, index) => ...)] that
    [processAllLayers], [generateDataOnly] and [jumpToStep] each spell out;
    [currentData] is the variable the callback reassigns. *)
Fixpoint layersLoop (layers : list Layer.t) (index : nat) (currentData : Data)
  : M unit :=
  match layers with
  | [] => mret tt
  | _ :: rest =>
      st ← get_app;
      layerOutput ←
        draw (DataGenerator.processLayer random sin st index currentData);
      modify_app (fun st =>
        AppState.set_layerOutputs (AppState.layerOutputs st ++ [layerOutput])
                                  st);;
      layersLoop rest (S index) (LayerOutput.data layerOutput)
  end.

Definition updateStepView : M unit :=
  st ← get_app;
  let step := AppState.currentStep st in
  let layerData := at_index (AppState.layerOutputs st) step in
  (* Update step counter display - use total architecture layers *)
  when stepDisplay
    (arch ← deref "arch" (AppState.getCurrentArch st);
     emit (StepDisplay (step + 1) (Z.of_nat (length (Arch.layers arch)))));;
  Engine3D.highlightLayer step;;
  showLayerInfo layerData step;;
  Visualizer.animateProgress step
    (Z.of_nat (length (AppState.layerOutputs st)));;
  Visualizer.updateLayerList (AppState.layerOutputs st);;
  match layerData with
  | Some ld =>
      when (step =? Z.of_nat (length (AppState.layerOutputs st)) - 1)%Z
           (regenerateOutput (LayerOutput.data ld))
  | None => mret tt
  end.

Definition completeForwardPass : M unit :=
  modify_app (AppState.set_isAnimating false);;
  Visualizer.hideLoadingAnimation;;
  (* Set current step to the last layer in architecture *)
  st ← get_app;
  arch ← deref "arch" (AppState.getCurrentArch st);
  modify_app (AppState.set_currentStep
                (Z.of_nat (length (Arch.layers arch)) - 1));;
  (* Generate final output *)
  let finalLayerData :=
    at_index (AppState.layerOutputs st)
             (Z.of_nat (length (AppState.layerOutputs st)) - 1) in
  match finalLayerData with
  | Some fld => regenerateOutput (LayerOutput.data fld)
  | None => mret tt
  end;;
  (* Update final view *)
  updateStepView;;
  st ← get_app;
  updateExplanation
    (MsgForwardPassComplete (length (AppState.outputNotes st))).

Definition animateStep (step : Z) : M unit :=
  st ← get_app;
  arch ← deref "arch" (AppState.getCurrentArch st);
  let totalLayers := Z.of_nat (length (Arch.layers arch)) in
  if (step >=? totalLayers)%Z then completeForwardPass
  else
    modify_app (AppState.set_currentStep step);;
    let layerData := at_index (AppState.layerOutputs st) step in
    Engine3D.highlightLayer step;;
    showLayerInfo layerData step;;
    Visualizer.animateProgress step totalLayers;;
    Visualizer.updateLayerList (AppState.layerOutputs st);;
    (* Only auto-continue if we're in auto-play mode or running forward pass *)
    when (AppState.isAnimating st || AppState.isAutoPlaying st)
      (if (step <? totalLayers - 1)%Z then
         let delay := js_div 1000 (AppState.animationSpeed st) in
         (* Only animate data flow if we have actual layer outputs *)
         if (step <? Z.of_nat (length (AppState.layerOutputs st)) - 1)%Z then
           Engine3D.animateDataFlow step (step + 1)
             (setTimeout (CbAnimateStep (step + 1)) delay)
         else
           setTimeout (CbAnimateStep (step + 1)) delay
       else
         setTimeout (CbAnimateStep (step + 1)) (Some 500%Q)).

(** The [forEach] of [processAllLayers], up to but not including
    [animateStep(0)]. *)
Definition processAllLayers_loop : M unit :=
  st ← get_app;
  arch ← deref "arch" (AppState.getCurrentArch st);
  layersLoop (Arch.layers arch) 0 (data_of_input (AppState.inputData st)).

Definition processAllLayers : M unit :=
  processAllLayers_loop;;
  animateStep 0.

(** The [try] block and the [catch] block of [runForwardPass]. *)
Definition runForwardPass_try : M unit :=
  modify_app AppState.reset;;
  modify_app (AppState.set_isAnimating true);;
  Visualizer.showLoadingAnimation;;
  processAllLayers.

Definition runForwardPass_catch (error : string) : M unit :=
  emit (ConsoleError "Error in forward pass:" error);;
  modify_app (AppState.set_isAnimating false);;
  Visualizer.hideLoadingAnimation;;
  updateExplanation MsgErrorForwardPass.

Definition runForwardPass : M unit :=
  st ← get_app;
  match AppState.inputData st with
  | None | Some [] => updateExplanation MsgPleaseGenerateInput
  | Some _ =>
      if AppState.isAnimating st then mret tt
      else try_catch runForwardPass_try runForwardPass_catch
  end.

(** The [try] block and the [catch] block of [generateDataOnly]. *)
Definition generateDataOnly_try : M unit :=
  modify_app AppState.reset;;
  (* Process all layers without animation *)
  processAllLayers_loop;;
  (* Set to first step and update view *)
  modify_app (AppState.set_currentStep 0);;
  updateStepView.

Definition generateDataOnly_catch (error : string) : M unit :=
  emit (ConsoleError "Error generating data:" error);;
  updateExplanation MsgErrorGeneratingData.

Definition generateDataOnly : M unit :=
  st ← get_app;
  match AppState.inputData st with
  | None | Some [] => updateExplanation MsgPleaseGenerateInput
  | Some _ => try_catch generateDataOnly_try generateDataOnly_catch
  end.

Definition stepForward : M unit :=
  st ← get_app;
  if AppState.isAnimating st then mret tt
  else if (length (AppState.layerOutputs st) =? 0)%nat then
    (* Generate data but don't start animation *)
    generateDataOnly
  else
    arch ← deref "arch" (AppState.getCurrentArch st);
    let totalLayers := Z.of_nat (length (Arch.layers arch)) in
    when (AppState.currentStep st <? totalLayers - 1)%Z
      (modify_app (AppState.set_currentStep (AppState.currentStep st + 1));;
       (* Direct update without animation continuation *)
       let step := (AppState.currentStep st + 1)%Z in
       let layerData := at_index (AppState.layerOutputs st) step in
       Engine3D.highlightLayer step;;
       showLayerInfo layerData step;;
       Visualizer.animateProgress step totalLayers;;
       Visualizer.updateLayerList (AppState.layerOutputs st);;
       match layerData with
       | Some ld =>
           when (step =? totalLayers - 1)%Z
                (regenerateOutput (LayerOutput.data ld))
       | None => mret tt
       end).

Definition stepBack : M unit :=
  st ← get_app;
  if AppState.isAnimating st then mret tt
  else if (length (AppState.layerOutputs st) =? 0)%nat then mret tt
  else
    when (AppState.currentStep st >? 0)%Z
      (modify_app (AppState.set_currentStep (AppState.currentStep st - 1));;
       (* Direct update without animation continuation *)
       let step := (AppState.currentStep st - 1)%Z in
       let layerData := at_index (AppState.layerOutputs st) step in
       Engine3D.highlightLayer step;;
       showLayerInfo layerData step;;
       arch ← deref "arch" (AppState.getCurrentArch st);
       Visualizer.animateProgress step (Z.of_nat (length (Arch.layers arch)));;
       Visualizer.updateLayerList (AppState.layerOutputs st)).

(** The object [typeNames] of [generateInput]. *)
Definition typeNames (type : string) : option string :=
  if String.eqb type "random" then Some "random melody"
  else if String.eqb type "scale" then Some "C major scale"
  else if String.eqb type "chord" then Some "chord progression"
  else None.

(** The [try] block and the [catch] block of [generateInput]. *)
Definition generateInput_try (type : string) : M unit :=
  notes ← draw (Ok <$> DataGenerator.generateInput random type);
  modify_app (AppState.set_inputNotes notes);;
  modify_app (AppState.set_inputData (Some notes));;
  Visualizer.drawInput notes;;
  Visualizer.updateLayerList [];;
  modify_app AppState.reset;;
  updateExplanation (MsgGenerated (typeNames type) (length notes)).

Definition generateInput_catch (error : string) : M unit :=
  emit (ConsoleError "Error generating input:" error);;
  updateExplanation MsgErrorGeneratingInput.

Definition generateInput (type : string) : M unit :=
  try_catch (generateInput_try type) generateInput_catch.

Definition resetVisualization : M unit :=
  modify_app AppState.reset;;
  interval ← get_autoPlayInterval;
  when interval
    (set_autoPlayInterval false;;
     modify_app (AppState.set_isAutoPlaying false);;
     emit (DomSet "autoplay-btn" "textContent" "⏯️ Auto Play"));;
  AudioPlayer.stop;;
  Visualizer.hideLoadingAnimation;;
  emit (DomSet "progress-fill" "style.width" "0%");;
  emit (DomSet "progress-text" "textContent" "Step 0 / 0");;
  emit (DomSet "layer-info" "style.display" "none");;
  emit (DomSet "tensor-preview" "style.display" "none");;
  Visualizer.updateLayerList [];;
  emit ClearOutputCanvas;;
  emit (DomSet "output-shape" "textContent" "[0, 88]");;
  emit (DomSet "output-notes" "textContent" "0");;
  emit ResetLayerNodes;;
  updateExplanation MsgResetComplete.

Definition jumpToStep (stepIndex : Z) : M unit :=
  st ← get_app;
  if ((stepIndex <? 0) || (stepIndex >=? AppState.totalSteps st))%Z
  then mret tt
  else
    modify_app (AppState.set_currentStep stepIndex);;
    (* Generate layer outputs if they don't exist *)
    match AppState.layerOutputs st, AppState.inputData st with
    | [], Some _ => processAllLayers_loop
    | _, _ => mret tt
    end;;
    updateStepView.

(** The callback of the auto-play interval. *)
Definition autoPlayTick : M unit :=
  st ← get_app;
  when (AppState.currentStep st >=? AppState.totalSteps st - 1)%Z
    (modify_app (AppState.set_currentStep (-1)));;
  stepForward.

(** [setInterval] is recorded as the flag [autoPlayInterval]; the period
    [2000 / AppState.animationSpeed] is not. *)
Definition toggleAutoPlay : M unit :=
  modify_app (fun st =>
    AppState.set_isAutoPlaying (negb (AppState.isAutoPlaying st)) st);;
  st ← get_app;
  if AppState.isAutoPlaying st then
    emit (DomSet "autoplay-btn" "textContent" "⏸️ Pause");;
    when (length (AppState.layerOutputs st) =? 0)%nat runForwardPass;;
    set_autoPlayInterval true
  else
    emit (DomSet "autoplay-btn" "textContent" "⏯️ Auto Play");;
    interval ← get_autoPlayInterval;
    when interval (set_autoPlayInterval false).

Definition initializeArchitecture : M unit :=
  Engine3D.buildNetwork "VAE";;
  Visualizer.updateLayerList [];;
  updateExplanation MsgWelcome.

(** The [try] block and the [catch] block of [initApp]; [canvas3d] tells
    whether [document.getElementById('canvas-3d')] finds the canvas.  The
    four constructors and [setupEventListeners] are taken to return. *)
Definition initApp_try (canvas3d : bool) : M unit :=
  (if canvas3d then mret tt else throw "canvas-3d element not found!");;
  initializeArchitecture.

Definition initApp_catch (error : string) : M unit :=
  emit (ConsoleError "❌ Initialization failed:" error);;
  emit (DomSet "explanation" "textContent"
               ("❌ Error: " +:+ error +:+ ". Please refresh the page.")).

Definition initApp (canvas3d : bool) : M unit :=
  try_catch (initApp_try canvas3d) initApp_catch.

(** *** The listeners installed by [setupEventListeners] *)

(** Click on an architecture button whose [data-arch] is [arch]. *)
Definition archButtonClick (arch : string) : M unit :=
  modify_app (AppState.set_currentArchitecture arch);;
  modify_app AppState.reset;;
  Engine3D.buildNetwork arch;;
  Visualizer.updateLayerList [];;
  emit (DomSet "layer-info" "style.display" "none");;
  emit (DomSet "tensor-preview" "style.display" "none");;
  st ← get_app;
  a ← deref "arch" (AppState.getCurrentArch st);
  updateExplanation (MsgSwitchedTo (Arch.name a)).

(** [input] events of the three sliders; [value] is [e.target.value]. *)
Definition tempSliderInput (value : string) : M unit :=
  modify_app (AppState.set_temperature (parseFloat value));;
  emit (DomSet "temp-display" "textContent" value).

Definition latentSliderInput (value : string) : M unit :=
  modify_app (AppState.set_latentDim (parseInt value));;
  emit (DomSet "latent-display" "textContent" value).

Definition speedSliderInput (value : string) : M unit :=
  modify_app (AppState.set_animationSpeed (parseFloat value));;
  emit (DomSet "speed-display" "textContent" (value +:+ "x")).

Definition playButtonClick : M unit :=
  st ← get_app;
  match AppState.outputNotes st with
  | _ :: _ => AudioPlayer.play (Some (AppState.outputNotes st))
  | [] => updateExplanation MsgNoOutputYet
  end.

Definition stopButtonClick : M unit := AudioPlayer.stop.

(** *** Timers *)

Definition runCallback (cb : Callback) : M unit :=
  match cb with
  | CbAnimateStep step => animateStep step
  | CbAudioStop => AudioPlayer.stop
  end.

(** The browser fires the [i]-th pending timer: it leaves the queue and
    its callback runs. *)
Definition fireTimer (i : nat) : M unit :=
  fun w =>
    match timers w !! i with
    | None => (Ok tt, w)
    | Some t => runCallback (callback t) (with_timers (delete i (timers w)) w)
    end.

(** The browser fires the auto-play interval, if it is set. *)
Definition fireInterval : M unit :=
  interval ← get_autoPlayInterval;
  when interval autoPlayTick.

(** Fire the first pending timer [n] times in a row. *)
Fixpoint fireTimers (n : nat) : M unit :=
  match n with
  | O => mret tt
  | S n' => fireTimer 0;; fireTimers n'
  end.

End App.

(** The world when the scripts have been evaluated, and when [initApp] has
    run. *)
Definition initialWorld : World :=
  {| app := AppState.initial; draws := 0; player := AudioPlayer.initial;
     autoPlayInterval := false; timers := []; events := [];
     suspended := [] |}.

Definition pageLoaded : World := snd (initApp true initialWorld).

(** * Specification vocabulary *)

(** [Math.random] returns a number in [[0, 1)]; [Math.sin] one in
    [[-1, 1]]. *)
Definition random_in_range (random : nat -> Q) : Prop :=
  forall k : nat, (0 <= random k < 1)%Q.

Definition sin_bounded (sin : Q -> Q) : Prop :=
  forall x : Q, (-1 <= sin x <= 1)%Q.

(** Oracles used to run the program on concrete inputs. *)
Definition always (q : Q) : nat -> Q := fun _ => q.
Definition flat_sin : Q -> Q := fun _ => 0%Q.

(** A playable input note. *)
Definition note_valid (n : Note.t) : Prop :=
  (36 <= Note.pitch n <= 96)%Q /\
  (0 <= Note.velocity n <= 1)%Q /\
  (0 < Note.duration n)%Q /\
  exists t : Q, Note.time n = Some t /\ (0 <= t)%Q.

Definition start_times_nondecreasing (notes : list Note.t) : Prop :=
  forall (i : nat) (a b : Note.t),
    notes !! i = Some a -> notes !! S i = Some b ->
    exists ta tb : Q,
      Note.time a = Some ta /\ Note.time b = Some tb /\ (ta <= tb)%Q.

(** The [i]-th note of a generated output. *)
Definition output_note (i : nat) (n : Note.t) : Prop :=
  (36 <= Note.pitch n <= 96)%Q /\
  Note.time n = Some (inject_Z (Z.of_nat i) * 0.25)%Q /\
  (Note.duration n == 0.25)%Q /\
  (0.6 <= Note.velocity n <= 1)%Q.

(** The keys of the preset table. *)
Definition preset_keys : list string :=
  ["VAE"; "LSTM"; "Transformer"; "Diffusion"].

(** The kind of value a layer receives or returns. *)
Inductive Shape : Type := SNull | SArray | SLatent | STime.

Definition shape_of (d : Data) : Shape :=
  match d with
  | DNull => SNull
  | DNotes _ => SArray
  | DLatent _ _ _ => SLatent
  | DTime _ _ => STime
  end.

(** The kind of value the transform of a layer of type [type] returns on
    an input of kind [s]; [None] when it throws. *)
Definition transform_shape (type : string) (s : Shape) : option Shape :=
  if String.eqb type "input" then Some s
  else if String.eqb type "conv" || String.eqb type "deconv"
          || String.eqb type "lstm" || String.eqb type "attention"
    then match s with SArray => Some SArray | _ => None end
  else if String.eqb type "latent" then Some SLatent
  else if String.eqb type "time" then Some STime
  else Some SArray.

(** The number of [Math.random] calls the transform of a layer of type
    [type] makes on the input [d]. *)
Definition transform_draws (st : AppState.t) (type : string) (d : Data)
  : nat :=
  let notes := match d with DNotes ns => length ns | _ => 0%nat end in
  if String.eqb type "input" then 0
  else if String.eqb type "conv" || String.eqb type "deconv"
    then 32 * notes
  else if String.eqb type "lstm" then 2 * notes
  else if String.eqb type "latent" then 3 * AppState.latentDim st
  else if String.eqb type "attention" then notes
  else if String.eqb type "time" then 257
  else 2 * notes.

(** No layer of the list throws when the first one is given an input of
    kind [s]. *)
Fixpoint layers_ok (layers : list Layer.t) (s : Shape) : bool :=
  match layers with
  | [] => true
  | layer :: rest =>
      match transform_shape (Layer.type layer) s with
      | Some s' => layers_ok rest s'
      | None => false
      end
  end.

(** [chained st i d k outs k']: starting with [k] draws made, [outs] are
    the results of [processLayer(i, d)], [processLayer(i+1, ...)], ...,
    each layer receiving the [data] of the previous result; [k'] draws
    have been made at the end. *)
Inductive chained (random : nat -> Q) (sin : Q -> Q) (st : AppState.t)
  : nat -> Data -> nat -> list LayerOutput.t -> nat -> Prop :=
| chained_nil (i : nat) (d : Data) (k : nat) :
    chained random sin st i d k [] k
| chained_cons (i : nat) (d : Data) (k : nat) (o : LayerOutput.t) (k1 : nat)
               (outs : list LayerOutput.t) (k2 : nat) :
    DataGenerator.processLayer random sin st i d k = (Ok o, k1) ->
    chained random sin st (S i) (LayerOutput.data o) k1 outs k2 ->
    chained random sin st i d k (o :: outs) k2.

(** [runForwardPass] on a non-empty input with no animation running, up
    to but not including [animateStep(0)]. *)
Definition forward_pass_until_animation (random : nat -> Q) (sin : Q -> Q)
  : M unit :=
  modify_app AppState.reset;;
  modify_app (AppState.set_isAnimating true);;
  Visualizer.showLoadingAnimation;;
  processAllLayers_loop random sin.

(** The fields of [AppState]. *)
Inductive Field : Type :=
| FcurrentArchitecture | FinputData | FinputNotes | FlayerOutputs
| FcurrentStep | FtotalSteps | FisAnimating | FisAutoPlaying
| FanimationSpeed | Ftemperature | FlatentDim | FoutputNotes.

Definition same_field (f : Field) (a b : AppState.t) : Prop :=
  match f with
  | FcurrentArchitecture =>
      AppState.currentArchitecture a = AppState.currentArchitecture b
  | FinputData => AppState.inputData a = AppState.inputData b
  | FinputNotes => AppState.inputNotes a = AppState.inputNotes b
  | FlayerOutputs => AppState.layerOutputs a = AppState.layerOutputs b
  | FcurrentStep => AppState.currentStep a = AppState.currentStep b
  | FtotalSteps => AppState.totalSteps a = AppState.totalSteps b
  | FisAnimating => AppState.isAnimating a = AppState.isAnimating b
  | FisAutoPlaying => AppState.isAutoPlaying a = AppState.isAutoPlaying b
  | FanimationSpeed => AppState.animationSpeed a = AppState.animationSpeed b
  | Ftemperature => AppState.temperature a = AppState.temperature b
  | FlatentDim => AppState.latentDim a = AppState.latentDim b
  | FoutputNotes => AppState.outputNotes a = AppState.outputNotes b
  end.

(** [b] differs from [a] at most in the fields [fs]. *)
Definition changes_only (fs : list Field) (a b : AppState.t) : Prop :=
  forall f : Field, f ∉ fs -> same_field f a b.

(** The first cell of an activation map. *)
Definition first_cell (act : list (list Q)) : option Q :=
  row ← act !! 0%nat; row !! 0%nat.

(** The steps handed to [engine3D.highlightLayer], in order. *)
Definition highlighted (es : list Event) : list Z :=
  omap (fun e => match e with HighlightLayer i => Some i | _ => None end) es.



(** The world after [regenerateOutput data]. *)
Definition after_regenerateOutput (random : nat -> Q) (data : Data)
    (w : World) : World :=
  let '(notes, k) :=
    DataGenerator.generateOutput random (app w) data (draws w) in
  add_events [DrawOutput notes]
    (with_app (AppState.set_outputNotes notes) (with_draws k w)).

(** The render calls of [animateStep(step)] when the architecture has
    [total] layers and [outs] are the cached layer outputs. *)
Definition step_render_events (outs : list LayerOutput.t) (total step : Z)
  : list Event :=
  [HighlightLayer step]
  ++ match at_index outs step with
     | Some ld => [UpdateLayerInfo ld step]
     | None => []
     end
  ++ [AnimateProgress step total; UpdateLayerList outs].

(** The particle animation that [animateStep(step)] starts before it
    schedules the next step. *)
Definition data_flow_events (outs : list LayerOutput.t) (total step : Z)
  : list Event :=
  if ((step <? total - 1) && (step <? Z.of_nat (length outs) - 1))%Z
  then [AnimateDataFlow step (step + 1)]
  else [].

(** The timer that [animateStep(step)] sets. *)
Definition next_timer (total step : Z) (st : AppState.t) : Timer :=
  {| callback := CbAnimateStep (step + 1);
     delay := if (step <? total - 1)%Z
              then js_div 1000 (AppState.animationSpeed st)
              else Some 500%Q |}.

(** The kind of a layer value together with its size: the number of notes
    of an array, of entries of [mu], of entries of [embedding]. *)
Inductive Sized : Type :=
| ZNull
| ZArray (n : nat)
| ZLatent (n : nat)
| ZTime (n : nat).

Definition sized_of (d : Data) : Sized :=
  match d with
  | DNull => ZNull
  | DNotes notes => ZArray (length notes)
  | DLatent mu _ _ => ZLatent (length mu)
  | DTime _ embedding => ZTime (length embedding)
  end.

(** The number of notes in the last layer output of a forward pass of the
    preset [key] on [m] input notes. *)
Definition final_note_count (key : string) (m : nat) : nat :=
  if String.eqb key "VAE" then 88
  else if String.eqb key "Diffusion" then 256
  else m.

(** The kind and size of the value the transform of a layer of type [type]
    returns on an input of kind and size [s], when it returns. *)
Definition transform_sized (st : AppState.t) (type : string) (s : Sized)
  : Sized :=
  if String.eqb type "input" then s
  else if String.eqb type "conv" || String.eqb type "deconv"
          || String.eqb type "lstm" || String.eqb type "attention"
    then s
  else if String.eqb type "latent" then ZLatent (AppState.latentDim st)
  else if String.eqb type "time" then ZTime 256
  else match s with
       | ZArray n | ZTime n => ZArray n
       | ZLatent _ | ZNull => ZArray 88
       end.

Definition layers_sized (st : AppState.t) (layers : list Layer.t) (s : Sized)
  : Sized :=
  foldl (fun s layer => transform_sized st (Layer.type layer) s) s layers.

(** The calls [AudioPlayer.stop] makes on a player in state [p]. *)
Definition stop_events (p : PlayerState) : list Event :=
  match currentPart p with
  | Some _ => [PartStop; PartDispose]
  | None => []
  end ++ [TransportStop; TransportCancel; SynthReleaseAll].

(** A call of a method of the audio player, or the moment at which the
    [i]-th suspended call of [play] goes on. *)
Inductive AudioCall : Type :=
| CallPlay (notes : option (list Note.t))
| CallStop
| CallResume (i : nat).

Definition audioCall (c : AudioCall) : M unit :=
  match c with
  | CallPlay notes => AudioPlayer.play notes
  | CallStop => AudioPlayer.stop
  | CallResume i => AudioPlayer.toneStarted i
  end.

(** The calls [cs] made one after the other. *)
Fixpoint audioCalls (cs : list AudioCall) : M unit :=
  match cs with
  | [] => mret tt
  | c :: cs' => audioCall c;; audioCalls cs'
  end.

(** The state in which the rest of [play(notes)] leaves the page. *)
Definition resumed (notes : list Note.t) (w : World) : World :=
  with_timers
    (timers w ++
     [{| callback := CbAudioStop;
         delay := (fun d => d * 1000 + 500)%Q
                  <$> (l ← last notes; t ← Note.time l;
                       Some (t + Note.duration l)%Q) |}])
    (with_player {| isPlaying := true;
                    currentPart := Some (map AudioPlayer.part_event notes) |}
       (add_events
          (stop_events (player w)
           ++ [PartStart (map AudioPlayer.part_event notes); TransportStart])
          w)).

(** The number of [Tone.Part] objects created and not yet disposed. *)
Fixpoint live_parts (es : list Event) : Z :=
  match es with
  | [] => 0
  | PartStart _ :: es' => live_parts es' + 1
  | PartDispose :: es' => live_parts es' - 1
  | _ :: es' => live_parts es'
  end.

(** The parts alive are the one the player holds, if any. *)
Definition parts_accounted (w : World) : Prop :=
  live_parts (events w) = match currentPart (player w) with
                          | Some _ => 1
                          | None => 0
                          end%Z.

(** The property names every object literal inherits: a lookup of one of
    them in [counts] or [typeNames] does not give [undefined]. *)
Definition object_prototype_keys : list string :=
  ["constructor"; "__proto__"; "hasOwnProperty"; "isPrototypeOf";
   "propertyIsEnumerable"; "toLocaleString"; "toString"; "valueOf";
   "__defineGetter__"; "__defineSetter__"; "__lookupGetter__";
   "__lookupSetter__"].

(** The integers that JavaScript numbers represent exactly. *)
Definition safe_integer (m : Z) : Prop := (- 2 ^ 53 < m < 2 ^ 53)%Z.

(** The names of the twelve pitch classes. *)
Definition pitch_class_names : list string :=
  ["C"; "C#"; "D"; "D#"; "E"; "F"; "F#"; "G"; "G#"; "A"; "A#"; "B"].

(** The notes handed to [visualizer.drawOutput], in order. *)
Definition drawn_outputs (es : list Event) : list (list Note.t) :=
  omap (fun e => match e with DrawOutput ns => Some ns | _ => None end) es.

(** The fields a layer transform copies with its spread. *)
Definition same_core (a b : Note.t) : Prop :=
  Note.pitch a = Note.pitch b /\ Note.time a = Note.time b
  /\ Note.duration a = Note.duration b /\ Note.velocity a = Note.velocity b.

(** The layer types whose transform calls [data.map]. *)
Definition maps_notes (type : string) : bool :=
  String.eqb type "conv" || String.eqb type "deconv"
  || String.eqb type "lstm" || String.eqb type "attention".

(** What the page can receive once [setupEventListeners] has run: a click
    or an [input] event on one of the controls, a click on an item of the
    layer list, a pending timer or the auto-play interval. *)
Inductive Action : Type :=
| ClickArch (arch : string)
| ClickInput (type : string)
| SlideTemperature (value : string)
| SlideLatent (value : string)
| SlideSpeed (value : string)
| ClickRun
| ClickStepForward
| ClickStepBack
| ClickReset
| ClickAutoPlay
| ClickPlay
| ClickStop
| ClickLayer (index : nat)
| TimerFires (i : nat)
| IntervalFires
| ToneStarted (i : nat).

Section Perform.
Variable random : nat -> Q.
Variable sin : Q -> Q.
Variable parseFloat : string -> Q.
Variable parseInt : string -> nat.
Variable stepDisplay : bool.

(** The listener, callback or continuation that runs.  An item of the
    layer list calls [jumpToStep(index)] only when it was rendered as done or
    active; here it may be called for any index. *)
Definition perform (a : Action) : M unit :=
  match a with
  | ClickArch arch => archButtonClick arch
  | ClickInput type => generateInput random type
  | SlideTemperature value => tempSliderInput parseFloat value
  | SlideLatent value => latentSliderInput parseInt value
  | SlideSpeed value => speedSliderInput parseFloat value
  | ClickRun => runForwardPass random sin stepDisplay
  | ClickStepForward => stepForward random sin stepDisplay
  | ClickStepBack => stepBack
  | ClickReset => resetVisualization
  | ClickAutoPlay => toggleAutoPlay random sin stepDisplay
  | ClickPlay => playButtonClick
  | ClickStop => stopButtonClick
  | ClickLayer index => jumpToStep random sin stepDisplay (Z.of_nat index)
  | TimerFires i => fireTimer random stepDisplay i
  | IntervalFires => fireInterval random sin stepDisplay
  | ToneStarted i => AudioPlayer.toneStarted i
  end.
End Perform.

(** The states of the page: the one in which [initApp] leaves it, and the
    ones that follow by an action. *)
Inductive reachable (random : nat -> Q) (sin : Q -> Q)
    (parseFloat : string -> Q) (parseInt : string -> nat)
    (stepDisplay : bool) : World -> Prop :=
| reachable_init (canvas3d : bool) :
    reachable random sin parseFloat parseInt stepDisplay
              (snd (initApp canvas3d initialWorld))
| reachable_step (a : Action) (w : World) :
    reachable random sin parseFloat parseInt stepDisplay w ->
    reachable random sin parseFloat parseInt stepDisplay
              (snd (perform random sin parseFloat parseInt stepDisplay a w)).

(** [m] changes neither [AppState.isAutoPlaying] nor the interval, whether
    it returns or throws. *)
Definition keeps_autoplay {A : Type} (m : M A) : Prop :=
  forall w : World,
    AppState.isAutoPlaying (app (snd (m w))) = AppState.isAutoPlaying (app w)
    /\ autoPlayInterval (snd (m w)) = autoPlayInterval w.

Create HintDb keeps discriminated.

(** ** Concrete runs *)

(** The world after running [m] in [w]. *)
Definition run {A : Type} (m : M A) (w : World) : World := snd (m w).

(** The page after a click on the "scale" input button ... *)
Definition demo_input : World :=
  run (generateInput (always (1#2)) "scale") pageLoaded.

(** ... then on "Run Forward Pass": the first step is shown and the second
    is scheduled ... *)
Definition demo_running : World :=
  run (runForwardPass (always (1#2)) flat_sin true) demo_input.

(** The same click, stopped just before [animateStep(0)]. *)
Definition demo_loaded : World :=
  run (forward_pass_until_animation (always (1#2)) flat_sin) demo_input.

(** ... then after six timers: the last layer is shown and the completion
    is scheduled ... *)
Definition demo_last_step : World :=
  run (fireTimers (always (1#2)) true 6) demo_running.

(** ... and after the last timer: the pass is complete. *)
Definition demo_done : World :=
  run (fireTimers (always (1#2)) true 1) demo_last_step.

(** A click on "Reset" while the completion is pending. *)
Definition demo_reset_early : World :=
  run resetVisualization demo_last_step.




(** The object that the latent layer of the VAE preset hands to the
    "Decoder Dense" layer. *)
Definition demo_latent : Data :=
  fst (DataGenerator.applyLatentSampling (always (1#2)) AppState.initial
         DNull 0).


(** * Proofs *)

(** ** The monad of app.js *)

Lemma bind_Ok {A B} (m : M A) (f : A -> M B) (w w1 : World) (a : A) :
  m w = (Ok a, w1) -> (m ≫= f) w = f a w1.
Proof. intros H. unfold mbind, M_bind. rewrite H. reflexivity. Qed.

Lemma bind_Throw {A B} (m : M A) (f : A -> M B) (w w1 : World) (e : string) :
  m w = (Throw e, w1) -> (m ≫= f) w = (Throw e, w1).
Proof. intros H. unfold mbind, M_bind. rewrite H. reflexivity. Qed.

Lemma add_events_nil (w : World) : add_events [] w = w.
Proof. destruct w. unfold add_events. cbn. rewrite app_nil_r. reflexivity. Qed.

Lemma add_events_app (es1 es2 : list Event) (w : World) :
  add_events es2 (add_events es1 w) = add_events (es1 ++ es2) w.
Proof. unfold add_events. cbn. rewrite app_assoc. reflexivity. Qed.

Lemma deref_Some {A} (what : string) (x : option A) (a : A) (w : World) :
  x = Some a -> deref what x w = (Ok a, w).
Proof. intros ->. reflexivity. Qed.

Lemma at_index_Some {A} (l : list A) (i : Z) :
  (0 <= i < Z.of_nat (length l))%Z -> is_Some (at_index l i).
Proof.
  intros Hi. unfold at_index.
  destruct (Z.ltb_spec i 0) as [?|_]; [lia|].
  apply lookup_lt_is_Some. lia.
Qed.

Lemma at_index_Some_lt {A} (l : list A) (i : Z) (x : A) :
  at_index l i = Some x -> (0 <= i < Z.of_nat (length l))%Z.
Proof.
  unfold at_index. destruct (Z.ltb_spec i 0) as [?|?]; [discriminate|].
  intros Hx. apply lookup_lt_Some in Hx. lia.
Qed.

Section Runs.
Variable random : nat -> Q.
Variable stepDisplay : bool.

Lemma animateProgress_run (w : World) (arch : Arch.t) (s t : Z) :
  AppState.getCurrentArch (app w) = Some arch ->
  Visualizer.animateProgress s t w = (Ok tt, add_events [AnimateProgress s t] w).
Proof.
  intros Ha. unfold Visualizer.animateProgress.
  erewrite bind_Ok by reflexivity.
  erewrite bind_Ok by (apply deref_Some, Ha). reflexivity.
Qed.

Lemma updateLayerList_run (w : World) (arch : Arch.t) (ls : list LayerOutput.t) :
  AppState.getCurrentArch (app w) = Some arch ->
  Visualizer.updateLayerList ls w = (Ok tt, add_events [UpdateLayerList ls] w).
Proof.
  intros Ha. unfold Visualizer.updateLayerList.
  erewrite bind_Ok by reflexivity.
  erewrite bind_Ok by (apply deref_Some, Ha). reflexivity.
Qed.

Lemma showLayerInfo_run (w : World) (arch : Arch.t)
    (o : option LayerOutput.t) (s : Z) :
  AppState.getCurrentArch (app w) = Some arch ->
  (is_Some o -> is_Some (at_index (Arch.layers arch) s)) ->
  showLayerInfo o s w =
  (Ok tt, add_events (match o with
                      | Some ld => [UpdateLayerInfo ld s]
                      | None => []
                      end) w).
Proof.
  intros Ha Hl. destruct o as [ld|]; cbn.
  - destruct Hl as [layer Hlayer]; [eauto|].
    unfold Visualizer.updateLayerInfo.
    erewrite bind_Ok by reflexivity.
    erewrite bind_Ok by (apply deref_Some, Ha).
    erewrite bind_Ok by (apply deref_Some, Hlayer). reflexivity.
  - rewrite add_events_nil. reflexivity.
Qed.

(** The four render calls shared by [animateStep], [stepForward] and
    [updateStepView], followed by any continuation. *)
Lemma render_step_run {B} (k : M B) (w : World) (arch : Arch.t)
    (outs : list LayerOutput.t) (s total : Z) :
  AppState.getCurrentArch (app w) = Some arch ->
  (is_Some (at_index outs s) -> is_Some (at_index (Arch.layers arch) s)) ->
  (Engine3D.highlightLayer s;;
   showLayerInfo (at_index outs s) s;;
   Visualizer.animateProgress s total;;
   Visualizer.updateLayerList outs;;
   k) w
  = k (add_events (step_render_events outs total s) w).
Proof.
  intros Ha Hl.
  erewrite bind_Ok by reflexivity.
  erewrite bind_Ok by (eapply showLayerInfo_run; [exact Ha|exact Hl]).
  erewrite bind_Ok by (eapply animateProgress_run; exact Ha).
  erewrite bind_Ok by (eapply updateLayerList_run; exact Ha).
  rewrite !add_events_app. reflexivity.
Qed.

Lemma regenerateOutput_run (d : Data) (w : World) :
  regenerateOutput random d w = (Ok tt, after_regenerateOutput random d w).
Proof.
  unfold regenerateOutput, after_regenerateOutput.
  erewrite bind_Ok by reflexivity.
  unfold draw at 1. unfold mbind at 1, M_bind at 1.
  unfold fmap, Rand_fmap.
  destruct (DataGenerator.generateOutput random (app w) d (draws w)) as [notes k].
  reflexivity.
Qed.

End Runs.

Lemma mapM_Rand_cons {A B} (f : A -> Rand B) (x : A) (l : list A) (k : nat) :
  mapM f (x :: l) k =
  let '(y, k1) := f x k in
  let '(ys, k2) := mapM f l k1 in (y :: ys, k2).
Proof. reflexivity. Qed.

Lemma mapM_Rand_length {A B} (f : A -> Rand B) (l : list A) (k : nat) :
  length (fst (mapM f l k)) = length l.
Proof.
  revert k. induction l as [|x l IH]; intros k; [reflexivity|].
  rewrite mapM_Rand_cons. destruct (f x k) as [y k1].
  specialize (IH k1). destruct (mapM f l k1) as [ys k2].
  cbn in *. congruence.
Qed.

Lemma generateOutput_length random st d k :
  length (fst (DataGenerator.generateOutput random st d k)) = 32%nat.
Proof. unfold DataGenerator.generateOutput. rewrite mapM_Rand_length. reflexivity. Qed.

Ltac solve_changes_only :=
  let f := fresh "f" in let Hf := fresh "Hf" in
  intros f Hf; destruct f; try reflexivity;
  exfalso; apply Hf; repeat constructor.

Ltac field_notin :=
  let H := fresh in
  intros H;
  repeat (apply elem_of_cons in H as [H|H]; [discriminate H|]);
  apply elem_of_nil in H; exact H.

Ltac field_subset :=
  let f := fresh in
  let H := fresh in
  intros f H;
  repeat (apply elem_of_cons in H as [->|H]; [repeat constructor|]);
  apply elem_of_nil in H; destruct H.

Ltac list_norm :=
  repeat progress (rewrite <- ?app_assoc; cbn [Datatypes.app]; rewrite ?app_nil_r).

Lemma changes_only_refl fs a : changes_only fs a a.
Proof. intros f _. destruct f; reflexivity. Qed.

Lemma changes_only_trans fs a b c :
  changes_only fs a b -> changes_only fs b c -> changes_only fs a c.
Proof.
  intros H1 H2 f Hf. specialize (H1 f Hf). specialize (H2 f Hf).
  destruct f; cbn in *; congruence.
Qed.

Lemma changes_only_mono fs fs' a b :
  fs ⊆ fs' -> changes_only fs a b -> changes_only fs' a b.
Proof. intros Hs H f Hf. apply H. intros Hin. apply Hf, Hs, Hin. Qed.

Lemma changes_only_getCurrentArch fs a b :
  changes_only fs a b -> FcurrentArchitecture ∉ fs ->
  AppState.getCurrentArch b = AppState.getCurrentArch a.
Proof.
  intros H Hn. specialize (H _ Hn). cbn in H.
  unfold AppState.getCurrentArch. rewrite H. reflexivity.
Qed.

Section Animation.
Variable random : nat -> Q.
Variable stepDisplay : bool.

Lemma after_regenerateOutput_props (d : Data) (w : World) :
  let w' := after_regenerateOutput random d w in
  timers w' = timers w /\ player w' = player w
  /\ autoPlayInterval w' = autoPlayInterval w
  /\ changes_only [FoutputNotes] (app w) (app w')
  /\ length (AppState.outputNotes (app w')) = 32%nat
  /\ events w' = events w ++ [DrawOutput (AppState.outputNotes (app w'))].
Proof.
  unfold after_regenerateOutput.
  pose proof (generateOutput_length random (app w) d (draws w)) as Hlen.
  destruct (DataGenerator.generateOutput random (app w) d (draws w)) as [notes k].
  cbn in *. repeat split; try assumption. solve_changes_only.
Qed.

Lemma updateStepView_run (w : World) (arch : Arch.t) :
  AppState.getCurrentArch (app w) = Some arch ->
  (is_Some (at_index (AppState.layerOutputs (app w)) (AppState.currentStep (app w))) ->
   is_Some (at_index (Arch.layers arch) (AppState.currentStep (app w)))) ->
  exists w', updateStepView random stepDisplay w = (Ok tt, w')
    /\ timers w' = timers w /\ player w' = player w
    /\ autoPlayInterval w' = autoPlayInterval w
    /\ changes_only [FoutputNotes] (app w) (app w')
    /\ (length (AppState.outputNotes (app w')) = 32%nat
        /\ is_Some (at_index (AppState.layerOutputs (app w))
                             (AppState.currentStep (app w)))
        \/ AppState.outputNotes (app w') = AppState.outputNotes (app w))
    /\ exists new, events w' = events w ++ new
         /\ highlighted new = [AppState.currentStep (app w)].
Proof.
  intros Ha Hl. unfold updateStepView.
  erewrite bind_Ok by reflexivity.
  set (step := AppState.currentStep (app w)) in *.
  set (outs := AppState.layerOutputs (app w)) in *.
  set (disp := if stepDisplay
               then [StepDisplay (step + 1) (Z.of_nat (length (Arch.layers arch)))]
               else []).
  assert (Hd : when stepDisplay
                 (deref "arch" (AppState.getCurrentArch (app w))
                  ≫= λ arch0, emit (StepDisplay (step + 1)
                                   (Z.of_nat (length (Arch.layers arch0))))) w
               = (Ok tt, add_events disp w)).
  { subst disp. destruct stepDisplay; cbn.
    - erewrite bind_Ok by (apply deref_Some, Ha). reflexivity.
    - rewrite add_events_nil. reflexivity. }
  erewrite bind_Ok by exact Hd.
  erewrite render_step_run by (cbn; eauto).
  rewrite add_events_app.
  set (w1 := add_events _ w).
  assert (Hh : highlighted (disp ++ step_render_events outs (Z.of_nat (length outs)) step) = [step]).
  { subst disp. unfold step_render_events.
    destruct stepDisplay, (at_index outs step); reflexivity. }
  assert (Hw1 : exists w', (mret tt : M unit) w1 = (Ok tt, w')
    /\ timers w' = timers w /\ player w' = player w
    /\ autoPlayInterval w' = autoPlayInterval w
    /\ changes_only [FoutputNotes] (app w) (app w')
    /\ (length (AppState.outputNotes (app w')) = 32%nat
        /\ is_Some (at_index outs step)
        \/ AppState.outputNotes (app w') = AppState.outputNotes (app w))
    /\ exists new, events w' = events w ++ new
         /\ highlighted new = [step]).
  { exists w1. split; [reflexivity|]. subst w1. cbn.
    repeat split; auto using changes_only_refl. eexists; split; [reflexivity|exact Hh]. }
  destruct (at_index outs step) as [ld|] eqn:Hld; [|exact Hw1].
  unfold when. destruct (step =? Z.of_nat (length outs) - 1)%Z; [|exact Hw1].
  rewrite regenerateOutput_run.
  destruct (after_regenerateOutput_props (LayerOutput.data ld) w1)
    as (Ht & Hp & Hi & Hc & Hlen & He).
  eexists. split; [reflexivity|].
  rewrite Ht, Hp, Hi. subst w1. cbn in *.
  repeat split; auto.
  eexists. split; [rewrite He, <- app_assoc; reflexivity|].
  unfold highlighted in *. rewrite omap_app, Hh. reflexivity.
Qed.


Lemma completeForwardPass_run (w : World) (arch : Arch.t) :
  AppState.getCurrentArch (app w) = Some arch ->
  exists w', completeForwardPass random stepDisplay w = (Ok tt, w')
    /\ AppState.isAnimating (app w') = false
    /\ AppState.currentStep (app w') = (Z.of_nat (length (Arch.layers arch)) - 1)%Z
    /\ timers w' = timers w /\ player w' = player w
    /\ autoPlayInterval w' = autoPlayInterval w
    /\ changes_only [FisAnimating; FcurrentStep; FoutputNotes] (app w) (app w')
    /\ (AppState.layerOutputs (app w) <> [] ->
        length (AppState.outputNotes (app w')) = 32%nat)
    /\ (AppState.layerOutputs (app w) = [] ->
        AppState.outputNotes (app w') = AppState.outputNotes (app w))
    /\ exists new, events w' = events w ++ new
         ++ [SetExplanation (MsgForwardPassComplete
                               (length (AppState.outputNotes (app w'))));
             ConsoleLog (MsgForwardPassComplete
                           (length (AppState.outputNotes (app w'))))].
Proof.
  intros Ha. unfold completeForwardPass.
  erewrite bind_Ok by reflexivity.
  erewrite bind_Ok by reflexivity.
  erewrite bind_Ok by reflexivity.
  erewrite bind_Ok by (apply deref_Some; exact Ha).
  erewrite bind_Ok by reflexivity.
  cbn [app with_app add_events AppState.layerOutputs AppState.set_isAnimating].
  set (outs := AppState.layerOutputs (app w)).
  set (n := Z.of_nat (length (Arch.layers arch))).
  set (w1 := with_app (AppState.set_currentStep (n - 1)) _).
  assert (Hw1 : timers w1 = timers w /\ player w1 = player w
                /\ autoPlayInterval w1 = autoPlayInterval w
                /\ changes_only [FisAnimating; FcurrentStep; FoutputNotes] (app w) (app w1)
                /\ AppState.isAnimating (app w1) = false
                /\ AppState.currentStep (app w1) = (n - 1)%Z
                /\ AppState.layerOutputs (app w1) = outs
                /\ AppState.outputNotes (app w1) = AppState.outputNotes (app w)
                /\ events w1 = events w ++ [HideLoadingAnimation]).
  { subst w1. cbn. repeat split. solve_changes_only. }
  (* the state in which updateStepView runs *)
  assert (Hw2 : exists w2,
    match at_index outs (Z.of_nat (length outs) - 1) with
    | Some fld => regenerateOutput random (LayerOutput.data fld)
    | None => mret ()
    end w1 = (Ok tt, w2)
    /\ timers w2 = timers w /\ player w2 = player w
    /\ autoPlayInterval w2 = autoPlayInterval w
    /\ changes_only [FisAnimating; FcurrentStep; FoutputNotes] (app w) (app w2)
    /\ AppState.isAnimating (app w2) = false
    /\ AppState.currentStep (app w2) = (n - 1)%Z
    /\ AppState.layerOutputs (app w2) = outs
    /\ (outs <> [] -> length (AppState.outputNotes (app w2)) = 32%nat)
    /\ (outs = [] -> AppState.outputNotes (app w2) = AppState.outputNotes (app w))
    /\ exists new, events w2 = events w ++ new).
  { destruct Hw1 as (Ht & Hp & Hi & Hc & Han & Hcs & Hlo & Hon & Hev).
    destruct (at_index outs (Z.of_nat (length outs) - 1)) as [fld|] eqn:Hfld.
    - rewrite regenerateOutput_run.
      destruct (after_regenerateOutput_props (LayerOutput.data fld) w1)
        as (Ht' & Hp' & Hi' & Hc' & Hlen & He).
      eexists. split; [reflexivity|].
      rewrite Ht', Hp', Hi'.
      pose proof (Hc' FisAnimating ltac:(field_notin)) as E1.
      pose proof (Hc' FcurrentStep ltac:(field_notin)) as E2.
      pose proof (Hc' FlayerOutputs ltac:(field_notin)) as E3.
      cbn in E1, E2, E3.
      repeat split; try congruence.
      + eapply changes_only_trans; [exact Hc|].
        eapply changes_only_mono; [|exact Hc']. field_subset.
      + intros ->. cbn in Hfld. discriminate.
      + eexists. rewrite He, Hev, <- app_assoc. reflexivity.
    - exists w1. split; [reflexivity|].
      repeat split; try assumption.
      + intros Hne. exfalso.
        destruct (at_index_Some outs (Z.of_nat (length outs) - 1)) as [x Hx].
        * destruct outs; [congruence|]. cbn [length]. lia.
        * congruence.
      + eexists. exact Hev. }
  destruct Hw2 as (w2 & Hrun & Ht & Hp & Hi & Hc & Han & Hcs & Hlo & Hne & Hnil & new & Hev).
  erewrite bind_Ok by exact Hrun.
  assert (Ha2 : AppState.getCurrentArch (app w2) = Some arch).
  { rewrite (changes_only_getCurrentArch _ _ _ Hc) by field_notin. exact Ha. }
  destruct (updateStepView_run w2 arch Ha2) as
    (w3 & Hrun3 & Ht3 & Hp3 & Hi3 & Hc3 & Hon3 & new3 & Hev3 & _).
  { rewrite Hcs. intros [x Hx]. apply at_index_Some_lt in Hx.
    apply at_index_Some. subst n. lia. }
  erewrite bind_Ok by exact Hrun3.
  erewrite bind_Ok by reflexivity.
  eexists. split; [reflexivity|].
  unfold updateExplanation. cbn.
  pose proof (Hc3 FisAnimating ltac:(field_notin)) as E1.
  pose proof (Hc3 FcurrentStep ltac:(field_notin)) as E2.
  cbn in E1, E2.
  repeat split; try congruence.
  - eapply changes_only_trans; [exact Hc|].
    eapply changes_only_mono; [|exact Hc3]. field_subset.
  - intros Hout. destruct Hon3 as [[? _]|E]; [assumption|]. rewrite E. auto.
  - intros Hout. destruct Hon3 as [[_ [x Hx]]|E]; [|rewrite E; auto].
    exfalso. rewrite Hlo in Hx. fold outs in Hout. rewrite Hout in Hx.
    unfold at_index in Hx. destruct (_ <? 0)%Z; discriminate.
  - exists (new ++ new3). rewrite Hev3, Hev, <- !app_assoc. reflexivity.
Qed.


Lemma animateStep_run (w : World) (arch : Arch.t) (step : Z) :
  AppState.getCurrentArch (app w) = Some arch ->
  (step < Z.of_nat (length (Arch.layers arch)))%Z ->
  let total := Z.of_nat (length (Arch.layers arch)) in
  let outs := AppState.layerOutputs (app w) in
  let continue := AppState.isAnimating (app w) || AppState.isAutoPlaying (app w) in
  exists w', animateStep random stepDisplay step w = (Ok tt, w')
    /\ app w' = AppState.set_currentStep step (app w)
    /\ draws w' = draws w /\ player w' = player w
    /\ autoPlayInterval w' = autoPlayInterval w
    /\ events w' = events w ++ step_render_events outs total step
                   ++ (if continue then data_flow_events outs total step else [])
    /\ timers w' = timers w
                   ++ (if continue then [next_timer total step (app w)] else []).
Proof.
  intros Ha Hs total outs continue. unfold animateStep.
  erewrite bind_Ok by reflexivity.
  erewrite bind_Ok by (apply deref_Some; exact Ha).
  fold total. destruct (Z.geb_spec step total) as [?|_]; [lia|].
  erewrite bind_Ok by reflexivity.
  erewrite render_step_run; [|cbn; exact Ha|].
  2:{ intros [x Hx]. apply at_index_Some_lt in Hx. apply at_index_Some.
      fold total. lia. }
  fold outs continue. unfold data_flow_events, next_timer.
  destruct continue; cbn [when].
  - destruct (step <? total - 1)%Z; cbn [andb].
    + destruct (step <? Z.of_nat (length outs) - 1)%Z.
      * unfold Engine3D.animateDataFlow.
        erewrite bind_Ok by reflexivity.
        eexists. split; [reflexivity|]. cbn.
        repeat split; list_norm; reflexivity.
      * eexists. split; [reflexivity|]. cbn.
        repeat split; list_norm; reflexivity.
    + eexists. split; [reflexivity|]. cbn.
      repeat split; list_norm; reflexivity.
  - eexists. split; [reflexivity|]. cbn.
    repeat split; list_norm; reflexivity.
Qed.

Lemma animateStep_complete (w : World) (arch : Arch.t) (step : Z) :
  AppState.getCurrentArch (app w) = Some arch ->
  (Z.of_nat (length (Arch.layers arch)) <= step)%Z ->
  animateStep random stepDisplay step w = completeForwardPass random stepDisplay w.
Proof.
  intros Ha Hs. unfold animateStep.
  erewrite bind_Ok by reflexivity.
  erewrite bind_Ok by (apply deref_Some; exact Ha).
  destruct (Z.geb_spec step (Z.of_nat (length (Arch.layers arch)))) as [_|?]; [|lia].
  reflexivity.
Qed.


Lemma bind_assoc_M {A B C} (m : M A) (f : A -> M B) (g : B -> M C) (w : World) :
  ((m ≫= f) ≫= g) w = (m ≫= (fun a => f a ≫= g)) w.
Proof.
  unfold mbind, M_bind. destruct (m w) as [[a|e] w1]; reflexivity.
Qed.

Lemma fireTimers_add (a b : nat) (w : World) :
  fireTimers random stepDisplay (a + b) w
  = (fireTimers random stepDisplay a;; fireTimers random stepDisplay b) w.
Proof.
  revert w. induction a as [|a IH]; intros w.
  - reflexivity.
  - cbn [Nat.add fireTimers]. rewrite bind_assoc_M.
    destruct (fireTimer random stepDisplay 0 w) as [[[]|e] w1] eqn:Hf.
    + rewrite !(bind_Ok _ _ _ _ _ Hf). apply IH.
    + rewrite !(bind_Throw _ _ _ _ _ Hf). reflexivity.
Qed.

Lemma fireTimer_animateStep (w : World) (t : Timer) (s : Z) :
  timers w = [t] -> callback t = CbAnimateStep s ->
  fireTimer random stepDisplay 0 w
  = animateStep random stepDisplay s (with_timers [] w).
Proof.
  intros Ht Hc. unfold fireTimer. rewrite Ht. cbn. rewrite Hc. reflexivity.
Qed.

Lemma highlighted_step (outs : list LayerOutput.t) (total step : Z) (b : bool) :
  highlighted (step_render_events outs total step
               ++ (if b then data_flow_events outs total step else []))
  = [step].
Proof.
  unfold step_render_events, data_flow_events.
  destruct (at_index outs step), b; try reflexivity;
    destruct (_ && _)%bool; reflexivity.
Qed.

Lemma set_currentStep_changes (c : Z) (st : AppState.t) :
  changes_only [FcurrentStep] st (AppState.set_currentStep c st).
Proof. solve_changes_only. Qed.

Lemma fireTimers_walk (arch : Arch.t) (j : nat) :
  forall (s : Z) (w : World) (t : Timer),
    AppState.getCurrentArch (app w) = Some arch ->
    AppState.isAnimating (app w) || AppState.isAutoPlaying (app w) = true ->
    timers w = [t] -> callback t = CbAnimateStep s ->
    (0 <= s)%Z -> (s + Z.of_nat j <= Z.of_nat (length (Arch.layers arch)))%Z ->
    exists w' t', fireTimers random stepDisplay j w = (Ok tt, w')
      /\ timers w' = [t'] /\ callback t' = CbAnimateStep (s + Z.of_nat j)
      /\ changes_only [FcurrentStep] (app w) (app w')
      /\ ((0 < j)%nat -> AppState.currentStep (app w') = (s + Z.of_nat j - 1)%Z)
      /\ highlighted (events w')
         = highlighted (events w) ++ map (fun i => (s + Z.of_nat i)%Z) (seq 0 j)
      /\ (exists new, events w' = events w ++ new)
      /\ draws w' = draws w /\ player w' = player w
      /\ autoPlayInterval w' = autoPlayInterval w.
Proof.
  induction j as [|j IH]; intros s w t Ha Hflag Ht Hc Hs0 Hsn.
  - exists w, t. split; [reflexivity|]. cbn.
    rewrite Z.add_0_r, app_nil_r.
    repeat split; auto using changes_only_refl; [lia|].
    exists []. rewrite app_nil_r. reflexivity.
  - cbn [fireTimers].
    destruct (animateStep_run (with_timers [] w) arch s Ha ltac:(lia))
      as (w1 & Hrun & Happ & Hd & Hp & Hi & Hev & Htm).
    cbn [with_timers app draws player autoPlayInterval events timers
         Datatypes.app] in Happ, Hd, Hp, Hi, Hev, Htm.
    rewrite Hflag in Hev, Htm.
    rewrite <- (fireTimer_animateStep w t s Ht Hc) in Hrun.
    erewrite bind_Ok by exact Hrun.
    edestruct (IH (s + 1)%Z w1) as (w2 & t2 & Hrun2 & Ht2 & Hc2 & Hch & Hcs & Hh & [new2 Hnew2] & Hd2 & Hp2 & Hi2).
    + rewrite Happ. exact Ha.
    + rewrite Happ. exact Hflag.
    + exact Htm.
    + reflexivity.
    + lia.
    + lia.
    + exists w2, t2. split; [exact Hrun2|].
      split; [exact Ht2|].
      split; [rewrite Hc2; f_equal; lia|].
      split. { eapply changes_only_trans; [|exact Hch]. rewrite Happ.
               apply set_currentStep_changes. }
      split. { intros _. destruct j as [|j'].
               - specialize (Hch FcurrentStep). cbn in Hch.
                 (* no further step ran *)
                 cbn in Hrun2. injection Hrun2 as <-. rewrite Happ. cbn. lia.
               - rewrite Hcs by lia. lia. }
      split. { rewrite Hh, Hev. unfold highlighted at 1. rewrite omap_app.
               fold (highlighted (events w)).
               fold (highlighted (step_render_events (AppState.layerOutputs (app w))
                       (Z.of_nat (length (Arch.layers arch))) s ++
                       data_flow_events (AppState.layerOutputs (app w))
                         (Z.of_nat (length (Arch.layers arch))) s)).
               rewrite (highlighted_step _ _ _ true).
               rewrite <- app_assoc. cbn [seq map Datatypes.app].
               rewrite Z.add_0_r. f_equal. f_equal.
               rewrite <- seq_shift, map_map. apply map_ext. intros i. lia. }
      split. { eexists. rewrite Hnew2, Hev, <- app_assoc. reflexivity. }
      repeat split; congruence.
Qed.


Lemma animation_prefix (w : World) (arch : Arch.t) (k : nat) :
  AppState.getCurrentArch (app w) = Some arch ->
  AppState.isAnimating (app w) || AppState.isAutoPlaying (app w) = true ->
  timers w = [] ->
  (k < length (Arch.layers arch))%nat ->
  exists wk t,
    (animateStep random stepDisplay 0;; fireTimers random stepDisplay k) w
    = (Ok tt, wk)
    /\ timers wk = [t] /\ callback t = CbAnimateStep (Z.of_nat k + 1)
    /\ changes_only [FcurrentStep] (app w) (app wk)
    /\ AppState.currentStep (app wk) = Z.of_nat k
    /\ highlighted (events wk)
       = highlighted (events w) ++ map Z.of_nat (seq 0 (S k))
    /\ (exists new, events wk = events w ++ new)
    /\ draws wk = draws w /\ player wk = player w
    /\ autoPlayInterval wk = autoPlayInterval w.
Proof.
  intros Ha Hflag Ht Hk.
  destruct (animateStep_run w arch 0 Ha ltac:(lia))
    as (w0 & Hrun & Happ & Hd & Hp & Hi & Hev & Htm).
  cbn [Datatypes.app] in Hev, Htm. rewrite Hflag in Hev, Htm. rewrite Ht in Htm.
  erewrite bind_Ok by exact Hrun.
  edestruct (fireTimers_walk arch k 1 w0)
    as (wk & t & Hrunk & Htk & Hck & Hch & Hcs & Hh & [newk Hnewk] & Hdk & Hpk & Hik).
  - rewrite Happ. exact Ha.
  - rewrite Happ. exact Hflag.
  - exact Htm.
  - reflexivity.
  - lia.
  - lia.
  - exists wk, t. split; [exact Hrunk|]. split; [exact Htk|].
    split; [rewrite Hck; f_equal; lia|].
    split. { eapply changes_only_trans; [|exact Hch]. rewrite Happ.
             apply set_currentStep_changes. }
    split. { destruct k as [|k'].
             - cbn in Hrunk. injection Hrunk as <-. rewrite Happ. reflexivity.
             - rewrite Hcs by lia. lia. }
    split. { rewrite Hh, Hev. unfold highlighted at 1. rewrite omap_app.
             fold (highlighted (events w)).
             fold (highlighted (step_render_events (AppState.layerOutputs (app w))
                     (Z.of_nat (length (Arch.layers arch))) 0 ++
                     data_flow_events (AppState.layerOutputs (app w))
                       (Z.of_nat (length (Arch.layers arch))) 0)).
             rewrite (highlighted_step _ _ _ true).
             rewrite <- app_assoc. cbn [seq map Datatypes.app]. f_equal. f_equal.
             rewrite <- seq_shift, map_map. apply map_ext. intros i. lia. }
    split. { eexists. rewrite Hnewk, Hev, <- app_assoc. reflexivity. }
    repeat split; congruence.
Qed.

Lemma animation_completes (w : World) (arch : Arch.t) :
  AppState.getCurrentArch (app w) = Some arch ->
  AppState.isAnimating (app w) || AppState.isAutoPlaying (app w) = true ->
  timers w = [] ->
  exists wn,
    (animateStep random stepDisplay 0;;
     fireTimers random stepDisplay (length (Arch.layers arch))) w
    = (Ok tt, wn)
    /\ AppState.isAnimating (app wn) = false
    /\ AppState.currentStep (app wn)
       = (Z.of_nat (length (Arch.layers arch)) - 1)%Z
    /\ timers wn = []
    /\ changes_only [FisAnimating; FcurrentStep; FoutputNotes] (app w) (app wn)
    /\ (AppState.layerOutputs (app w) <> [] ->
        length (AppState.outputNotes (app wn)) = 32%nat)
    /\ exists new, events wn = events w ++ new
         ++ [SetExplanation (MsgForwardPassComplete
                               (length (AppState.outputNotes (app wn))));
             ConsoleLog (MsgForwardPassComplete
                           (length (AppState.outputNotes (app wn))))].
Proof.
  intros Ha Hflag Ht.
  destruct (length (Arch.layers arch)) as [|n'] eqn:Hn.
  - (* no layer: [animateStep(0)] completes at once *)
    destruct (completeForwardPass_run w arch Ha)
      as (w' & Hrun & Han & Hcs & Htm & _ & _ & Hch & Hlen & _ & Hev).
    rewrite <- (animateStep_complete w arch 0 Ha) in Hrun by lia.
    erewrite bind_Ok by exact Hrun.
    exists w'. split; [reflexivity|]. rewrite Hn in Hcs.
    repeat split; try assumption. congruence.
  - replace (S n') with (n' + 1)%nat by lia.
    destruct (animation_prefix w arch n' Ha Hflag Ht ltac:(lia))
      as (wk & t & Hrunk & Htk & Hck & Hch & Hcs & Hh & [newk Hnewk] & Hdk & Hpk & Hik).
    assert (Hak : AppState.getCurrentArch (app wk) = Some arch).
    { rewrite (changes_only_getCurrentArch _ _ _ Hch) by field_notin. exact Ha. }
    destruct (animateStep_run w arch 0 Ha ltac:(lia)) as (w0 & Hrun0 & _).
    rewrite (bind_Ok _ _ _ _ _ Hrun0) in Hrunk.
    rewrite (bind_Ok _ _ _ _ _ Hrun0).
    rewrite fireTimers_add.
    erewrite bind_Ok by exact Hrunk.
    cbn [fireTimers].
    assert (Hfire : fireTimer random stepDisplay 0 wk
                    = completeForwardPass random stepDisplay (with_timers [] wk)).
    { rewrite (fireTimer_animateStep wk t _ Htk Hck).
      apply (animateStep_complete _ arch); [exact Hak|lia]. }
    destruct (completeForwardPass_run (with_timers [] wk) arch Hak)
      as (w' & Hrun & Han & Hcs' & Htm & _ & _ & Hch' & Hlen & _ & new & Hev).
    rewrite <- Hfire in Hrun.
    erewrite bind_Ok by exact Hrun.
    exists w'. split; [reflexivity|].
    cbn [with_timers app timers events] in *.
    split; [exact Han|]. split; [rewrite Hcs', Hn; f_equal; lia|].
    split; [exact Htm|].
    split. { eapply changes_only_trans.
             - eapply changes_only_mono; [|exact Hch]. field_subset.
             - exact Hch'. }
    split. { intros Hne. apply Hlen.
             rewrite <- (Hch FlayerOutputs ltac:(field_notin)). exact Hne. }
    exists (newk ++ new). rewrite Hev, Hnewk, <- !app_assoc. reflexivity.
Qed.

End Animation.

(** ** The preset table *)

Lemma architectures_dom :
  dom AppState.architectures = list_to_set (C := gset string) preset_keys.
Proof.
  unfold AppState.architectures, preset_keys.
  rewrite !dom_insert_L, dom_empty_L. cbn. set_solver.
Qed.

Lemma architectures_lookup (k : string) :
  is_Some (AppState.architectures !! k) <-> k ∈ preset_keys.
Proof.
  rewrite <- elem_of_dom, architectures_dom, elem_of_list_to_set. reflexivity.
Qed.

Lemma getCurrentArch_cases (st : AppState.t) (arch : Arch.t) :
  AppState.getCurrentArch st = Some arch ->
  arch = AppState.VAE \/ arch = AppState.LSTM \/
  arch = AppState.Transformer \/ arch = AppState.Diffusion.
Proof.
  unfold AppState.getCurrentArch, AppState.architectures.
  intros H.
  repeat (apply lookup_insert_Some in H as [[_ <-]|[_ H]]; [tauto|]).
  rewrite lookup_empty in H. discriminate.
Qed.

(** C5. The preset table has exactly the four keys 'VAE', 'LSTM',
    'Transformer' and 'Diffusion' (a lookup succeeds exactly on them, they
    are pairwise distinct, the table has size 4), and whenever
    [currentArchitecture] is one of these keys, [getCurrentArch()] returns
    [architectures[currentArchitecture]], which is defined. *)
Theorem four_architecture_presets (st : AppState.t) (k : string) :
  k ∈ preset_keys ->
  AppState.currentArchitecture st = k ->
  (forall k' : string,
      is_Some (AppState.architectures !! k') <-> k' ∈ preset_keys)
  /\ NoDup preset_keys
  /\ size AppState.architectures = 4%nat
  /\ AppState.getCurrentArch st = AppState.architectures !! k
  /\ is_Some (AppState.getCurrentArch st).
Proof.
  intros Hk Hcur. split; [exact architectures_lookup|].
  split.
  { unfold preset_keys. apply NoDup_ListNoDup.
    repeat (constructor; [cbn; intros Hin; repeat (destruct Hin as [Hin|Hin]; [discriminate Hin|]); exact Hin|]).
    constructor. }
  split. { rewrite <- size_dom, architectures_dom. reflexivity. }
  unfold AppState.getCurrentArch. rewrite Hcur.
  split; [reflexivity|]. apply architectures_lookup, Hk.
Qed.

Lemma four_architecture_presets_witness :
  AppState.getCurrentArch AppState.initial = Some AppState.VAE.
Proof.
  destruct (four_architecture_presets AppState.initial "VAE") as (_ & _ & _ & H & _).
  - unfold preset_keys. apply list_elem_of_here.
  - reflexivity.
  - rewrite H. reflexivity.
Defined.

(** ** Sliders and audio *)

(** C8. Each slider handler returns normally and mutates exactly one field
    of [AppState]: the temperature slider sets [temperature], the latent
    slider [latentDim], the speed slider [animationSpeed], each to the
    parsed slider value, and every other field keeps its value. *)
Theorem slider_handlers_frame (parseFloat : string -> Q)
    (parseInt : string -> nat) (w : World) (value : string) :
  (exists w', tempSliderInput parseFloat value w = (Ok tt, w')
     /\ AppState.temperature (app w') = parseFloat value
     /\ changes_only [Ftemperature] (app w) (app w'))
  /\ (exists w', latentSliderInput parseInt value w = (Ok tt, w')
     /\ AppState.latentDim (app w') = parseInt value
     /\ changes_only [FlatentDim] (app w) (app w'))
  /\ (exists w', speedSliderInput parseFloat value w = (Ok tt, w')
     /\ AppState.animationSpeed (app w') = parseFloat value
     /\ changes_only [FanimationSpeed] (app w) (app w')).
Proof.
  repeat split; eexists; (split; [reflexivity|]); (split; [reflexivity|]);
    solve_changes_only.
Qed.


(** ** Stepping by hand *)

Section Stepping.
Variable random : nat -> Q.
Variable sin : Q -> Q.
Variable stepDisplay : bool.

Lemma stepForward_run (w : World) (arch : Arch.t) :
  AppState.getCurrentArch (app w) = Some arch ->
  AppState.layerOutputs (app w) <> [] ->
  let total := Z.of_nat (length (Arch.layers arch)) in
  let cur := AppState.currentStep (app w) in
  (0 <= cur <= total - 1)%Z ->
  exists w', stepForward random sin stepDisplay w = (Ok tt, w')
    /\ (AppState.isAnimating (app w) = true -> w' = w)
    /\ (AppState.isAnimating (app w) = false ->
        AppState.currentStep (app w')
        = (if (cur <? total - 1)%Z then cur + 1 else cur)%Z
        /\ changes_only [FcurrentStep; FoutputNotes] (app w) (app w')
        /\ ((cur <? total - 1)%Z = false -> w' = w)).
Proof.
  intros Ha Hne total cur Hrange. unfold stepForward.
  erewrite bind_Ok by reflexivity.
  destruct (AppState.isAnimating (app w)) eqn:Han.
  { exists w. split; [reflexivity|]. split; [reflexivity|discriminate]. }
  destruct (AppState.layerOutputs (app w)) as [|o outs'] eqn:Houts; [congruence|].
  cbn [length Nat.eqb].
  erewrite bind_Ok by (apply deref_Some; exact Ha).
  fold total cur. unfold when.
  destruct (Z.ltb_spec cur (total - 1)) as [Hlt|Hge].
  - erewrite bind_Ok by reflexivity.
    erewrite render_step_run; [|cbn; exact Ha|].
    2:{ intros _. apply at_index_Some. fold total. lia. }
    set (w1 := add_events _ _).
    assert (Hw1 : AppState.currentStep (app w1) = (cur + 1)%Z
                  /\ changes_only [FcurrentStep; FoutputNotes] (app w) (app w1)).
    { subst w1. cbn. split; [reflexivity|]. solve_changes_only. }
    destruct (at_index (o :: outs') (cur + 1)) as [ld|].
    + destruct (cur + 1 =? total - 1)%Z.
      * rewrite regenerateOutput_run.
        destruct (after_regenerateOutput_props random (LayerOutput.data ld) w1)
          as (_ & _ & _ & Hc & _).
        eexists. split; [reflexivity|]. split; [discriminate|]. intros _.
        destruct Hw1 as [Hcs Hch].
        split; [|split; [|discriminate]].
        -- rewrite <- (Hc FcurrentStep ltac:(field_notin)). exact Hcs.
        -- eapply changes_only_trans; [exact Hch|].
           eapply changes_only_mono; [|exact Hc]. field_subset.
      * exists w1. split; [reflexivity|]. split; [discriminate|]. intros _.
        destruct Hw1 as [Hcs Hch]. split; [exact Hcs|]. split; [exact Hch|discriminate].
    + exists w1. split; [reflexivity|]. split; [discriminate|]. intros _.
      destruct Hw1 as [Hcs Hch]. split; [exact Hcs|]. split; [exact Hch|discriminate].
  - exists w. split; [reflexivity|]. split; [discriminate|]. intros _.
    split; [reflexivity|]. split; [apply changes_only_refl|reflexivity].
Qed.

Lemma stepBack_run (w : World) (arch : Arch.t) :
  AppState.getCurrentArch (app w) = Some arch ->
  AppState.layerOutputs (app w) <> [] ->
  let total := Z.of_nat (length (Arch.layers arch)) in
  let cur := AppState.currentStep (app w) in
  (0 <= cur <= total - 1)%Z ->
  exists w', stepBack w = (Ok tt, w')
    /\ (AppState.isAnimating (app w) = true -> w' = w)
    /\ (AppState.isAnimating (app w) = false ->
        AppState.currentStep (app w')
        = (if (cur >? 0)%Z then cur - 1 else cur)%Z
        /\ changes_only [FcurrentStep] (app w) (app w')
        /\ ((cur >? 0)%Z = false -> w' = w)).
Proof.
  intros Ha Hne total cur Hrange. unfold stepBack.
  erewrite bind_Ok by reflexivity.
  destruct (AppState.isAnimating (app w)) eqn:Han.
  { exists w. split; [reflexivity|]. split; [reflexivity|discriminate]. }
  destruct (AppState.layerOutputs (app w)) as [|o outs'] eqn:Houts; [congruence|].
  cbn [length Nat.eqb]. fold cur. unfold when.
  destruct (Z.gtb_spec cur 0) as [Hgt|Hle].
  - erewrite bind_Ok by reflexivity.
    erewrite bind_Ok by reflexivity.
    erewrite bind_Ok.
    2:{ eapply showLayerInfo_run; [cbn; exact Ha|].
        intros _. apply at_index_Some. fold total. lia. }
    erewrite bind_Ok by (apply deref_Some; exact Ha).
    erewrite bind_Ok by (eapply animateProgress_run; cbn; exact Ha).
    erewrite updateLayerList_run by (cbn; exact Ha).
    eexists. split; [reflexivity|]. split; [discriminate|]. intros _.
    cbn. split; [reflexivity|]. split; [solve_changes_only|discriminate].
  - exists w. split; [reflexivity|]. split; [discriminate|]. intros _.
    split; [reflexivity|]. split; [apply changes_only_refl|reflexivity].
Qed.

(** C2. If the selected architecture is a preset, [currentStep] lies in
    [[0, layers.length - 1]] and [layerOutputs] is non-empty, then
    [stepForward] and [stepBack] return normally with [currentStep] still
    in that range; while [isAnimating] is true both leave [AppState]
    unchanged; otherwise [stepForward] adds exactly 1 unless the step is
    the last layer's, and [stepBack] subtracts exactly 1 unless the step
    is 0. *)
Theorem step_counter_stays_in_range (w : World) (arch : Arch.t) :
  AppState.getCurrentArch (app w) = Some arch ->
  AppState.layerOutputs (app w) <> [] ->
  let last := (Z.of_nat (length (Arch.layers arch)) - 1)%Z in
  let cur := AppState.currentStep (app w) in
  (0 <= cur <= last)%Z ->
  (exists w', stepForward random sin stepDisplay w = (Ok tt, w')
     /\ (0 <= AppState.currentStep (app w') <= last)%Z
     /\ (AppState.isAnimating (app w) = true -> app w' = app w)
     /\ (AppState.isAnimating (app w) = false ->
         AppState.currentStep (app w')
         = (if (cur =? last)%Z then cur else cur + 1)%Z))
  /\ (exists w', stepBack w = (Ok tt, w')
     /\ (0 <= AppState.currentStep (app w') <= last)%Z
     /\ (AppState.isAnimating (app w) = true -> app w' = app w)
     /\ (AppState.isAnimating (app w) = false ->
         AppState.currentStep (app w')
         = (if (cur =? 0)%Z then cur else cur - 1)%Z)).
Proof.
  intros Ha Hne last cur Hrange. split.
  - destruct (stepForward_run w arch Ha Hne Hrange) as (w' & Hrun & Hanim & Hstep).
    exists w'. split; [exact Hrun|].
    fold cur in Hstep. fold last in Hstep.
    assert (Hcs : AppState.isAnimating (app w) = false ->
                  AppState.currentStep (app w')
                  = (if (cur =? last)%Z then cur else cur + 1)%Z).
    { intros Hf. destruct (Hstep Hf) as (-> & _).
      destruct (Z.ltb_spec cur last), (Z.eqb_spec cur last); lia. }
    split; [|split; [|exact Hcs]].
    + destruct (AppState.isAnimating (app w)) eqn:Han.
      * rewrite (Hanim eq_refl). exact Hrange.
      * rewrite (Hcs eq_refl). destruct (Z.eqb_spec cur last); lia.
    + intros Ht. rewrite (Hanim Ht). reflexivity.
  - destruct (stepBack_run w arch Ha Hne Hrange) as (w' & Hrun & Hanim & Hstep).
    exists w'. split; [exact Hrun|].
    fold cur in Hstep.
    assert (Hcs : AppState.isAnimating (app w) = false ->
                  AppState.currentStep (app w')
                  = (if (cur =? 0)%Z then cur else cur - 1)%Z).
    { intros Hf. destruct (Hstep Hf) as (-> & _).
      destruct (Z.gtb_spec cur 0), (Z.eqb_spec cur 0); lia. }
    split; [|split; [|exact Hcs]].
    + destruct (AppState.isAnimating (app w)) eqn:Han.
      * rewrite (Hanim eq_refl). exact Hrange.
      * rewrite (Hcs eq_refl). destruct (Z.eqb_spec cur 0); lia.
    + intros Ht. rewrite (Hanim Ht). reflexivity.
Qed.
End Stepping.

(** ** The layer loop *)

Section Layers.
Variable random : nat -> Q.
Variable sin : Q -> Q.

Lemma map_notes_array (f : Note.t -> Rand Note.t) (notes : list Note.t) (k : nat) :
  exists out k',
    DataGenerator.map_notes f (DNotes notes) k = (Ok (DNotes out), k')
    /\ (out, k') = mapM f notes k.
Proof.
  unfold DataGenerator.map_notes, mbind, Rand_bind, mret, Rand_ret.
  destruct (mapM f notes k) as [out k']. eauto.
Qed.

Lemma fmap_Ok_run {A} (g : Rand A) (k : nat) :
  (Ok <$> g) k = (Ok (fst (g k)), snd (g k)).
Proof. unfold fmap, Rand_fmap. destruct (g k). reflexivity. Qed.

Lemma layerTransform_shape (st : AppState.t) (type : string) (i : nat)
    (d : Data) (k : nat) (s' : Shape) :
  transform_shape type (shape_of d) = Some s' ->
  exists d' k',
    DataGenerator.layerTransform random st type i d k = (Ok d', k')
    /\ shape_of d' = s'.
Proof.
  unfold transform_shape, DataGenerator.layerTransform.
  destruct (String.eqb_spec type "input") as [->|_].
  { intros [= <-]. eauto. }
  destruct (String.eqb_spec type "conv") as [->|_]; cbn [orb].
  { destruct d; try discriminate. intros [= <-].
    destruct (map_notes_array
      (fun note => f ← DataGenerator.fill_map 32 (DataGenerator.Math_random random);
                   mret (NoteUpd.set_features f note)) notes k) as (out & k' & H & _).
    unfold DataGenerator.applyConvolution. rewrite H. eauto. }
  destruct (String.eqb_spec type "deconv") as [->|_]; cbn [orb].
  { destruct d; try discriminate. intros [= <-].
    destruct (map_notes_array
      (fun note => f ← DataGenerator.fill_map 32 (DataGenerator.Math_random random);
                   mret (NoteUpd.set_features f note)) notes k) as (out & k' & H & _).
    unfold DataGenerator.applyConvolution. rewrite H. eauto. }
  destruct (String.eqb_spec type "lstm") as [->|_]; cbn [orb].
  { destruct d; try discriminate. intros [= <-].
    unfold DataGenerator.applyLSTM.
    edestruct map_notes_array as (out & k' & H & _). rewrite H. eauto. }
  destruct (String.eqb_spec type "latent") as [->|_]; cbn [orb].
  { cbn. intros [= <-]. rewrite fmap_Ok_run.
    eexists _, _. split; [reflexivity|].
    unfold DataGenerator.applyLatentSampling, mbind, Rand_bind, mret, Rand_ret.
    repeat match goal with |- context [let '(_, _) := ?e in _] => destruct e end.
    reflexivity. }
  destruct (String.eqb_spec type "attention") as [->|_]; cbn [orb].
  { destruct d; try discriminate. intros [= <-].
    unfold DataGenerator.applyAttention.
    edestruct map_notes_array as (out & k' & H & _). rewrite H. eauto. }
  destruct (String.eqb_spec type "time") as [->|_].
  { intros [= <-]. rewrite fmap_Ok_run.
    eexists _, _. split; [reflexivity|].
    unfold DataGenerator.applyTimeEmbedding, mbind, Rand_bind, mret, Rand_ret.
    repeat match goal with |- context [let '(_, _) := ?e in _] => destruct e end.
    reflexivity. }
  intros [= <-]. rewrite fmap_Ok_run.
  eexists _, _. split; [reflexivity|].
  unfold DataGenerator.applyGenericTransform, mbind, Rand_bind, mret, Rand_ret.
  destruct d; try reflexivity.
  repeat match goal with |- context [let '(_, _) := ?e in _] => destruct e end.
  reflexivity.
Qed.


Lemma processLayer_ok (st : AppState.t) (arch : Arch.t) (layer : Layer.t)
    (i : nat) (d : Data) (k : nat) (s' : Shape) :
  AppState.getCurrentArch st = Some arch ->
  Arch.layers arch !! i = Some layer ->
  transform_shape (Layer.type layer) (shape_of d) = Some s' ->
  exists o k',
    DataGenerator.processLayer random sin st i d k = (Ok o, k')
    /\ shape_of (LayerOutput.data o) = s'.
Proof.
  intros Ha Hl Hs. unfold DataGenerator.processLayer. rewrite Ha, Hl.
  destruct (layerTransform_shape st (Layer.type layer) i d k s' Hs)
    as (d' & k1 & Ht & Hd').
  unfold mbind at 1, Rand_bind at 1. rewrite Ht.
  unfold mbind, Rand_bind, mret, Rand_ret.
  destruct (DataGenerator.generateActivationMap random sin i k1) as [act k2].
  eexists _, _. split; [reflexivity|]. exact Hd'.
Qed.

(** [processLayer] reads the selected architecture, the latent dimension
    and the temperature, and nothing else of [AppState]. *)
Lemma processLayer_frame (st st' : AppState.t) (i : nat) (d : Data) (k : nat) :
  AppState.currentArchitecture st = AppState.currentArchitecture st' ->
  AppState.latentDim st = AppState.latentDim st' ->
  AppState.temperature st = AppState.temperature st' ->
  DataGenerator.processLayer random sin st i d k
  = DataGenerator.processLayer random sin st' i d k.
Proof.
  intros Hc Hl Ht.
  unfold DataGenerator.processLayer, AppState.getCurrentArch,
    DataGenerator.layerTransform, DataGenerator.applyLatentSampling,
    DataGenerator.applyGenericTransform.
  rewrite Hc, Hl, Ht. reflexivity.
Qed.

Lemma chained_frame (st st' : AppState.t) (i : nat) (d : Data) (k : nat)
    (outs : list LayerOutput.t) (k' : nat) :
  AppState.currentArchitecture st = AppState.currentArchitecture st' ->
  AppState.latentDim st = AppState.latentDim st' ->
  AppState.temperature st = AppState.temperature st' ->
  chained random sin st i d k outs k' -> chained random sin st' i d k outs k'.
Proof.
  intros Hc Hl Ht H. induction H as [|i d k o k1 outs k2 Hp _ IH].
  - constructor.
  - econstructor; [|exact IH].
    rewrite <- (processLayer_frame st st') by assumption. exact Hp.
Qed.

Lemma chained_lookup (st : AppState.t) (i : nat) (d : Data) (k : nat)
    (outs : list LayerOutput.t) (k' : nat) :
  chained random sin st i d k outs k' ->
  forall (j : nat) (o : LayerOutput.t),
    outs !! j = Some o ->
    exists din kin kout,
      DataGenerator.processLayer random sin st (i + j) din kin = (Ok o, kout)
      /\ match j with
         | O => din = d
         | S j' => exists prev, outs !! j' = Some prev /\ din = LayerOutput.data prev
         end.
Proof.
  intros H. induction H as [|i d k o k1 outs k2 Hp _ IH]; intros j o' Hj.
  - discriminate.
  - destruct j as [|j]; cbn in Hj.
    + injection Hj as <-. rewrite Nat.add_0_r. eauto.
    + destruct (IH j o' Hj) as (din & kin & kout & Hrun & Hin).
      exists din, kin, kout. split.
      * rewrite <- Nat.add_succ_comm. exact Hrun.
      * destruct j as [|j'].
        -- subst din. exists o. split; reflexivity.
        -- destruct Hin as (prev & Hprev & ->). exists prev. split; [exact Hprev|reflexivity].
Qed.

Lemma layersLoop_run (arch : Arch.t) (layers : list Layer.t) :
  forall (i : nat) (d : Data) (w : World),
    AppState.getCurrentArch (app w) = Some arch ->
    drop i (Arch.layers arch) = layers ->
    layers_ok layers (shape_of d) = true ->
    exists w' outs,
      layersLoop random sin layers i d w = (Ok tt, w')
      /\ AppState.layerOutputs (app w') = AppState.layerOutputs (app w) ++ outs
      /\ length outs = length layers
      /\ chained random sin (app w) i d (draws w) outs (draws w')
      /\ changes_only [FlayerOutputs] (app w) (app w')
      /\ events w' = events w /\ timers w' = timers w
      /\ player w' = player w /\ autoPlayInterval w' = autoPlayInterval w.
Proof.
  induction layers as [|layer rest IH]; intros i d w Ha Hdrop Hok.
  - exists w, []. split; [reflexivity|]. rewrite app_nil_r.
    repeat split; auto using changes_only_refl. constructor.
  - cbn [layers_ok] in Hok.
    destruct (transform_shape (Layer.type layer) (shape_of d)) as [s'|] eqn:Hs;
      [|discriminate].
    assert (Hl : Arch.layers arch !! i = Some layer).
    { rewrite <- (Nat.add_0_r i), <- lookup_drop, Hdrop. reflexivity. }
    destruct (processLayer_ok (app w) arch layer i d (draws w) s' Ha Hl Hs)
      as (o & k1 & Hp & Ho).
    cbn [layersLoop].
    erewrite bind_Ok by reflexivity.
    erewrite bind_Ok by (unfold draw; rewrite Hp; reflexivity).
    erewrite bind_Ok by reflexivity.
    set (w1 := with_app _ _).
    destruct (IH (S i) (LayerOutput.data o) w1) as
      (w' & outs & Hrun & Houts & Hlen & Hch & Hco & Hev & Htm & Hpl & Hau).
    + exact Ha.
    + replace (S i) with (i + 1)%nat by lia.
      rewrite <- drop_drop, Hdrop. reflexivity.
    + rewrite Ho. exact Hok.
    + exists w', (o :: outs). split; [exact Hrun|].
      split. { rewrite Houts. subst w1. cbn. rewrite <- app_assoc. reflexivity. }
      split. { cbn. rewrite Hlen. reflexivity. }
      split. { econstructor; [exact Hp|].
               eapply chained_frame; [| | |exact Hch]; reflexivity. }
      split. { eapply changes_only_trans; [|exact Hco]. subst w1. cbn.
               solve_changes_only. }
      subst w1. cbn in *. repeat split; assumption.
Qed.


Lemma presets_layers_ok (st : AppState.t) (arch : Arch.t) :
  AppState.getCurrentArch st = Some arch ->
  layers_ok (Arch.layers arch) SArray = true.
Proof.
  intros H. destruct (getCurrentArch_cases st arch H) as [->|[->|[->| ->]]];
    reflexivity.
Qed.

Lemma try_catch_Ok {A} (body : M A) (handler : string -> M A) (w w' : World) (a : A) :
  body w = (Ok a, w') -> try_catch body handler w = (Ok a, w').
Proof. intros H. unfold try_catch. rewrite H. reflexivity. Qed.

Lemma try_catch_Throw {A} (body : M A) (handler : string -> M A) (w w' : World) (e : string) :
  body w = (Throw e, w') -> try_catch body handler w = handler e w'.
Proof. intros H. unfold try_catch. rewrite H. reflexivity. Qed.

Variable stepDisplay : bool.

Lemma animateStep_no_throw (w : World) (arch : Arch.t) (step : Z) :
  AppState.getCurrentArch (app w) = Some arch ->
  exists w', animateStep random stepDisplay step w = (Ok tt, w').
Proof.
  intros Ha.
  destruct (Z.lt_ge_cases step (Z.of_nat (length (Arch.layers arch)))) as [Hlt|Hge].
  - destruct (animateStep_run random stepDisplay w arch step Ha Hlt) as (w' & H & _).
    eauto.
  - rewrite (animateStep_complete random stepDisplay w arch step Ha Hge).
    destruct (completeForwardPass_run random stepDisplay w arch Ha) as (w' & H & _).
    eauto.
Qed.

Lemma forward_pass_prefix_run (w : World) (notes : list Note.t)
    (arch : Arch.t) :
  AppState.inputData (app w) = Some notes ->
  notes <> [] ->
  AppState.isAnimating (app w) = false ->
  AppState.getCurrentArch (app w) = Some arch ->
  exists w1,
    forward_pass_until_animation random sin w = (Ok tt, w1)
    /\ runForwardPass random sin stepDisplay w
       = animateStep random stepDisplay 0 w1
    /\ length (AppState.layerOutputs (app w1)) = length (Arch.layers arch)
    /\ chained random sin (app w1) 0 (DNotes notes) (draws w)
               (AppState.layerOutputs (app w1)) (draws w1).
Proof.
  intros Hin Hne Han Ha.
  set (w0 := add_events [ShowLoadingAnimation]
               (with_app (AppState.set_isAnimating true)
                  (with_app AppState.reset w))).
  assert (Ha0 : AppState.getCurrentArch (app w0) = Some arch) by exact Ha.
  destruct (layersLoop_run arch (Arch.layers arch) 0 (DNotes notes) w0 Ha0
              eq_refl (presets_layers_ok _ _ Ha))
    as (w1 & outs & Hrun & Houts & Hlen & Hch & Hco & Hev & Htm & Hpl & Hau).
  assert (Hloop : processAllLayers_loop random sin w0 = (Ok tt, w1)).
  { unfold processAllLayers_loop.
    erewrite bind_Ok by reflexivity.
    erewrite bind_Ok by (apply deref_Some; exact Ha0).
    change (AppState.inputData (app w0)) with (AppState.inputData (app w)).
    rewrite Hin. exact Hrun. }
  assert (Hpre : forward_pass_until_animation random sin w = (Ok tt, w1)).
  { unfold forward_pass_until_animation.
    erewrite bind_Ok by reflexivity.
    erewrite bind_Ok by reflexivity.
    erewrite bind_Ok by reflexivity.
    exact Hloop. }
  change (AppState.layerOutputs (app w0)) with (@nil LayerOutput.t) in Houts.
  cbn [Datatypes.app] in Houts.
  assert (Hchain : chained random sin (app w1) 0 (DNotes notes) (draws w)
                     (AppState.layerOutputs (app w1)) (draws w1)).
  { rewrite Houts.
    eapply chained_frame; [| | |exact Hch].
    - exact (Hco FcurrentArchitecture ltac:(field_notin)).
    - exact (Hco FlatentDim ltac:(field_notin)).
    - exact (Hco Ftemperature ltac:(field_notin)). }
  exists w1. split; [exact Hpre|].
  split.
  { assert (Ha1 : AppState.getCurrentArch (app w1) = Some arch).
    { rewrite (changes_only_getCurrentArch _ _ _ Hco) by field_notin. exact Ha0. }
    destruct (animateStep_no_throw w1 arch 0 Ha1) as (w2 & Hstep).
    unfold runForwardPass.
    erewrite bind_Ok by reflexivity.
    rewrite Hin, Han. destruct notes as [|n0 notes']; [congruence|].
    rewrite Hstep. apply try_catch_Ok.
    unfold runForwardPass_try, processAllLayers.
    erewrite bind_Ok by reflexivity.
    erewrite bind_Ok by reflexivity.
    erewrite bind_Ok by reflexivity.
    erewrite bind_Ok by exact Hloop.
    exact Hstep. }
  split; [rewrite Houts; exact Hlen|exact Hchain].
Qed.

End Layers.

(** ** Randomness of the layer outputs *)

Lemma mapM_Rand_draws {A B} (f : A -> Rand B) (c : nat) :
  (forall a k, snd (f a k) = (k + c)%nat) ->
  forall l k, snd (mapM f l k) = (k + c * length l)%nat.
Proof.
  intros Hf l. induction l as [|x l IH]; intros k.
  - cbn. lia.
  - rewrite mapM_Rand_cons. specialize (Hf x k).
    destruct (f x k) as [y k1]. specialize (IH k1).
    destruct (mapM f l k1) as [ys k2]. cbn in *. lia.
Qed.

Lemma Rand_bind_snd {A B} (m : Rand A) (f : A -> Rand B) (k : nat) :
  snd ((m ≫= f) k) = snd (f (fst (m k)) (snd (m k))).
Proof. unfold mbind, Rand_bind. destruct (m k). reflexivity. Qed.

Lemma Rand_bind_fst {A B} (m : Rand A) (f : A -> Rand B) (k : nat) :
  fst ((m ≫= f) k) = fst (f (fst (m k)) (snd (m k))).
Proof. unfold mbind, Rand_bind. destruct (m k). reflexivity. Qed.

Ltac rand_simpl :=
  unfold mbind, Rand_bind, mret, Rand_ret, DataGenerator.Math_random; cbn.

Lemma mapM_Rand_first {A B} (f : A -> Rand B) (x : A) (l : list A) (k : nat) :
  fst (mapM f (x :: l) k) !! 0%nat = Some (fst (f x k)).
Proof.
  rewrite mapM_Rand_cons. destruct (f x k) as [y k1].
  destruct (mapM f l k1) as [ys k2]. reflexivity.
Qed.

Section Draws.
Variable random : nat -> Q.
Variable sin : Q -> Q.

Lemma fill_map_draws {A} (n c : nat) (e : Rand A) :
  (forall k, snd (e k) = (k + c)%nat) ->
  forall k, snd (DataGenerator.fill_map n e k) = (k + c * n)%nat.
Proof.
  intros He k. unfold DataGenerator.fill_map.
  rewrite (mapM_Rand_draws _ c) by (intros _ k0; apply He).
  rewrite length_replicate. reflexivity.
Qed.

Lemma map_notes_draws (f : Note.t -> Rand Note.t) (c : nat) (d : Data) (k : nat) :
  (forall a k, snd (f a k) = (k + c)%nat) ->
  snd (DataGenerator.map_notes f d k)
  = (k + c * match d with DNotes ns => length ns | _ => 0 end)%nat.
Proof.
  intros Hf. destruct d; cbn; try lia.
  rewrite Rand_bind_snd. cbn. apply mapM_Rand_draws, Hf.
Qed.

Lemma layerTransform_draws (st : AppState.t) (type : string) (i : nat)
    (d : Data) (k : nat) :
  snd (DataGenerator.layerTransform random st type i d k)
  = (k + transform_draws st type d)%nat.
Proof.
  unfold DataGenerator.layerTransform, transform_draws.
  destruct (String.eqb type "input"); [cbn; lia|].
  destruct (String.eqb type "conv" || String.eqb type "deconv").
  { unfold DataGenerator.applyConvolution. apply map_notes_draws.
    intros a k0. rewrite Rand_bind_snd. cbn [mret Rand_ret snd].
    rewrite (fill_map_draws 32 1) by (intros; rand_simpl; lia). lia. }
  destruct (String.eqb type "lstm").
  { unfold DataGenerator.applyLSTM. apply map_notes_draws.
    intros a k0. rand_simpl. lia. }
  destruct (String.eqb type "latent").
  { rewrite fmap_Ok_run. cbn [snd].
    unfold DataGenerator.applyLatentSampling.
    rewrite !Rand_bind_snd. cbn [mret Rand_ret snd].
    rewrite !(fill_map_draws _ 1) by (intros; rand_simpl; lia). lia. }
  destruct (String.eqb type "attention").
  { unfold DataGenerator.applyAttention.
    rewrite (map_notes_draws _ 1) by (intros; rand_simpl; lia). lia. }
  destruct (String.eqb type "time").
  { rewrite fmap_Ok_run. cbn [snd].
    unfold DataGenerator.applyTimeEmbedding.
    rewrite !Rand_bind_snd. cbn [mret Rand_ret snd].
    rewrite !(fill_map_draws _ 1) by (intros; rand_simpl; lia). cbn. lia. }
  rewrite fmap_Ok_run. cbn [snd].
  unfold DataGenerator.applyGenericTransform.
  destruct d; cbn; try lia.
  rewrite Rand_bind_snd. cbn.
  rewrite (mapM_Rand_draws _ 2) by (intros; rand_simpl; lia). lia.
Qed.

Lemma generateActivationMap_draws (i k : nat) :
  snd (DataGenerator.generateActivationMap random sin i k) = (k + 256)%nat.
Proof.
  unfold DataGenerator.generateActivationMap.
  rewrite (mapM_Rand_draws _ 16).
  - reflexivity.
  - intros a k0. rewrite (mapM_Rand_draws _ 1) by (intros; rand_simpl; lia). reflexivity.
Qed.

Lemma generateActivationMap_first (i k : nat) :
  first_cell (fst (DataGenerator.generateActivationMap random sin i k))
  = Some (Qmax 0 (Qmin 1 (random k * 0.7
                          + 0.3 * sin (inject_Z (Z.of_nat 0) * 0.5
                                       + inject_Z (Z.of_nat i)))))%Q.
Proof.
  unfold DataGenerator.generateActivationMap, first_cell.
  cbn [seq]. rewrite mapM_Rand_first. cbn [mbind option_bind].
  rewrite mapM_Rand_first. reflexivity.
Qed.


Lemma layerTransform_throws (st : AppState.t) (type : string) (i : nat)
    (d : Data) (k : nat) :
  transform_shape type (shape_of d) = None ->
  exists e k', DataGenerator.layerTransform random st type i d k = (Throw e, k').
Proof.
  unfold transform_shape, DataGenerator.layerTransform.
  destruct (String.eqb_spec type "input") as [->|_]; [discriminate|].
  destruct (String.eqb_spec type "conv") as [->|_]; cbn [orb].
  { destruct d; try discriminate; intros _; cbn; eauto. }
  destruct (String.eqb_spec type "deconv") as [->|_]; cbn [orb].
  { destruct d; try discriminate; intros _; cbn; eauto. }
  destruct (String.eqb_spec type "lstm") as [->|_]; cbn [orb].
  { destruct d; try discriminate; intros _; cbn; eauto. }
  destruct (String.eqb_spec type "latent") as [->|_]; [discriminate|].
  destruct (String.eqb_spec type "attention") as [->|_].
  { destruct d; try discriminate; intros _; cbn; eauto. }
  destruct (String.eqb type "time"); discriminate.
Qed.

Lemma processLayer_inv (st : AppState.t) (i : nat) (d : Data) (k : nat)
    (o : LayerOutput.t) (k' : nat) :
  DataGenerator.processLayer random sin st i d k = (Ok o, k') ->
  exists arch layer d' k1,
    AppState.getCurrentArch st = Some arch
    /\ Arch.layers arch !! i = Some layer
    /\ DataGenerator.layerTransform random st (Layer.type layer) i d k = (Ok d', k1)
    /\ o = LayerOutput.mk (Layer.name layer) (Layer.type layer) d'
              (fst (DataGenerator.generateActivationMap random sin i k1))
    /\ k' = snd (DataGenerator.generateActivationMap random sin i k1).
Proof.
  unfold DataGenerator.processLayer.
  destruct (AppState.getCurrentArch st) as [arch|]; [|discriminate].
  destruct (Arch.layers arch !! i) as [layer|] eqn:Hl; [|discriminate].
  unfold mbind at 1, Rand_bind at 1.
  destruct (DataGenerator.layerTransform random st (Layer.type layer) i d k)
    as [[d'|e] k1] eqn:Ht; [|discriminate].
  unfold mbind, Rand_bind, mret, Rand_ret.
  destruct (DataGenerator.generateActivationMap random sin i k1)
    as [act k2] eqn:Hact.
  intros [= <- <-]. exists arch, layer, d', k1.
  rewrite Hact. repeat split; assumption.
Qed.

End Draws.

Lemma clamp_low_high (s : Q) :
  (-1 <= s <= 1)%Q ->
  ~ (Qmax 0 (Qmin 1 (0 * 0.7 + 0.3 * s)) == Qmax 0 (Qmin 1 ((6#7) * 0.7 + 0.3 * s)))%Q.
Proof.
  intros Hs.
  pose proof (Q.min_spec 1 (0 * 0.7 + 0.3 * s)) as A0.
  pose proof (Q.min_spec 1 ((6#7) * 0.7 + 0.3 * s)) as A1.
  pose proof (Q.max_spec 0 (Qmin 1 (0 * 0.7 + 0.3 * s))) as B0.
  pose proof (Q.max_spec 0 (Qmin 1 ((6#7) * 0.7 + 0.3 * s))) as B1.
  revert A0 A1 B0 B1.
  generalize (Qmax 0 (Qmin 1 (0 * 0.7 + 0.3 * s))).
  generalize (Qmax 0 (Qmin 1 ((6#7) * 0.7 + 0.3 * s))).
  generalize (Qmin 1 (0 * 0.7 + 0.3 * s)).
  generalize (Qmin 1 ((6#7) * 0.7 + 0.3 * s)).
  intros m1 m0 M1 M0 A0 A1 B0 B1.
  destruct A0 as [[? ?]|[? ?]], A1 as [[? ?]|[? ?]],
           B0 as [[? ?]|[? ?]], B1 as [[? ?]|[? ?]]; lra.
Qed.

Lemma always_in_range (q : Q) : (0 <= q < 1)%Q -> random_in_range (always q).
Proof. intros H k. exact H. Qed.

(** C3 (amended). [processLayer] is not a deterministic function of
    [(layerIndex, inputData)]: with [Math.sin] bounded by 1, for every run
    that returns a layer output there is a random source with values in
    [[0, 1)] on which the same call returns a different output, the two
    activation maps differing in their first cell.  Every returned layer
    output carries an activation map made of 256 fresh draws, taken after
    the draws of the layer transform.  A transform of a layer whose type is
    neither 'input' nor 'latent' draws at least once when its input is a
    non-empty array of notes; latent sampling draws [3 * latentDim] times
    and the time embedding 257 times; a transform that is not 'input',
    'latent' or 'time' draws nothing when its input is not an array. *)
Theorem processLayer_not_deterministic (random : nat -> Q) (sin : Q -> Q)
    (st : AppState.t) (i : nat) (d : Data) (k : nat)
    (o : LayerOutput.t) (k' : nat) :
  sin_bounded sin ->
  DataGenerator.processLayer random sin st i d k = (Ok o, k') ->
  (exists (random' : nat -> Q) (o' : LayerOutput.t) (k'' : nat) (a a' : Q),
      random_in_range random'
      /\ DataGenerator.processLayer random' sin st i d k = (Ok o', k'')
      /\ first_cell (LayerOutput.activation o) = Some a
      /\ first_cell (LayerOutput.activation o') = Some a'
      /\ ~ (a == a')%Q
      /\ o' <> o)
  /\ (let k1 := snd (DataGenerator.layerTransform random st
                       (LayerOutput.type o) i d k) in
      k' = (k1 + 256)%nat
      /\ LayerOutput.activation o
         = fst (DataGenerator.generateActivationMap random sin i k1)
      /\ (LayerOutput.type o <> "input" -> LayerOutput.type o <> "latent" ->
          forall (n : Note.t) (ns : list Note.t),
            d = DNotes (n :: ns) -> (k < k1)%nat)
      /\ (LayerOutput.type o = "latent" ->
          k1 = (k + 3 * AppState.latentDim st)%nat)
      /\ (LayerOutput.type o = "time" -> k1 = (k + 257)%nat)
      /\ (LayerOutput.type o <> "input" ->
          LayerOutput.type o <> "latent" -> LayerOutput.type o <> "time" ->
          shape_of d <> SArray -> k1 = k)).
Proof.
  intros Hsin Hrun.
  destruct (processLayer_inv _ _ _ _ _ _ _ _ Hrun)
    as (arch & layer & d' & k1 & Ha & Hl & Ht & -> & ->).
  cbn [LayerOutput.type LayerOutput.activation].
  pose proof (layerTransform_draws random st (Layer.type layer) i d k) as Hk1.
  rewrite Ht in Hk1 |- *. cbn [snd] in Hk1 |- *. subst k1.
  split; [|cbv zeta; split; [|split; [|split; [|split; [|split]]]]].
  - (* another random source gives another activation map *)
    destruct (transform_shape (Layer.type layer) (shape_of d)) as [s'|] eqn:Hs.
    2:{ destruct (layerTransform_throws random st _ i d k Hs) as (e & k2 & Hthrow).
        congruence. }
    set (cell := fun r : Q =>
           Qmax 0 (Qmin 1 (r * 0.7
                           + 0.3 * sin (inject_Z (Z.of_nat 0) * 0.5
                                        + inject_Z (Z.of_nat i))))%Q).
    assert (Hcell : forall (r : nat -> Q) o2 k2,
               DataGenerator.processLayer r sin st i d k = (Ok o2, k2) ->
               first_cell (LayerOutput.activation o2)
               = Some (cell (r (k + transform_draws st (Layer.type layer) d)%nat))).
    { intros r o2 k2 H2.
      destruct (processLayer_inv _ _ _ _ _ _ _ _ H2)
        as (arch2 & layer2 & d2 & k3 & Ha2 & Hl2 & Ht2 & -> & _).
      assert (layer2 = layer) as -> by congruence.
      pose proof (layerTransform_draws r st (Layer.type layer) i d k) as Hk3.
      rewrite Ht2 in Hk3. cbn [snd] in Hk3. subst k3.
      cbn [LayerOutput.activation]. apply generateActivationMap_first. }
    pose proof (Hcell random _ _ Hrun) as Hme. cbn [LayerOutput.activation] in Hme.
    set (v := cell (random (k + transform_draws st (Layer.type layer) d)%nat)) in *.
    assert (Hother : forall q : Q, (0 <= q < 1)%Q -> ~ (v == cell q)%Q ->
      exists (random' : nat -> Q) o' k'' a a',
        random_in_range random'
        /\ DataGenerator.processLayer random' sin st i d k = (Ok o', k'')
        /\ first_cell (fst (DataGenerator.generateActivationMap random sin i
                               (k + transform_draws st (Layer.type layer) d))) = Some a
        /\ first_cell (LayerOutput.activation o') = Some a'
        /\ ~ (a == a')%Q
        /\ o' <> LayerOutput.mk (Layer.name layer) (Layer.type layer) d'
                   (fst (DataGenerator.generateActivationMap random sin i
                           (k + transform_draws st (Layer.type layer) d)))).
    { intros q Hq Hne.
      destruct (processLayer_ok (always q) sin st arch layer i d k s' Ha Hl Hs)
        as (o' & k'' & Hrun' & _).
      pose proof (Hcell (always q) _ _ Hrun') as Hyou.
      exists (always q), o', k'', v, (cell q).
      split; [apply always_in_range, Hq|].
      split; [exact Hrun'|]. split; [exact Hme|]. split; [exact Hyou|].
      split; [exact Hne|].
      intros ->. cbn [LayerOutput.activation] in Hyou.
      rewrite Hme in Hyou. injection Hyou as Hyou.
      apply Hne. unfold always in Hyou. rewrite <- Hyou. reflexivity. }
    destruct (Qeq_dec v (cell 0%Q)) as [E|NE].
    + apply (Hother (6#7)%Q); [lra|].
      rewrite E. apply clamp_low_high, Hsin.
    + apply (Hother 0%Q); [lra|exact NE].
  - rewrite generateActivationMap_draws. reflexivity.
  - reflexivity.
  - intros Hty Hla n ns ->. unfold transform_draws.
    apply String.eqb_neq in Hty, Hla. rewrite Hty, Hla. cbn [length].
    repeat match goal with |- context [if ?b then _ else _] => destruct b end;
      lia.
  - intros ->. reflexivity.
  - intros ->. reflexivity.
  - intros Hin Hla Hti Hsh. unfold transform_draws.
    apply String.eqb_neq in Hin, Hla, Hti. rewrite Hin, Hla, Hti.
    destruct d; cbn [shape_of] in Hsh; try congruence;
      repeat match goal with |- context [if ?b then _ else _] => destruct b end;
      lia.
Qed.

(** ** The generated notes *)

Section Notes.
Local Open Scope Q_scope.

Lemma clamp_bounds (lo hi x : Q) : lo <= hi -> lo <= Qmax lo (Qmin hi x) <= hi.
Proof.
  intros H. split.
  - apply Q.le_max_l.
  - apply Q.max_lub; [exact H | apply Q.le_min_l].
Qed.

Lemma mapM_Rand_Forall2 {A B} (f : A -> Rand B) (P : A -> B -> Prop) :
  (forall a k, P a (fst (f a k))) ->
  forall l k, Forall2 P l (fst (mapM f l k)).
Proof.
  intros Hf l. induction l as [|x l IH]; intros k.
  - constructor.
  - rewrite mapM_Rand_cons.
    specialize (Hf x k). destruct (f x k) as [y k1].
    specialize (IH k1). destruct (mapM f l k1) as [ys k2].
    constructor; assumption.
Qed.

Lemma quarter_nonneg (i : nat) : 0 <= inject_Z (Z.of_nat i) * 0.25.
Proof.
  assert (0 <= inject_Z (Z.of_nat i)).
  { change 0 with (inject_Z 0). rewrite <- Zle_Qle. lia. }
  nra.
Qed.

Lemma quarter_mono (i j : nat) :
  (i <= j)%nat -> inject_Z (Z.of_nat i) * 0.25 <= inject_Z (Z.of_nat j) * 0.25.
Proof.
  intros Hij.
  assert (inject_Z (Z.of_nat i) <= inject_Z (Z.of_nat j)).
  { rewrite <- Zle_Qle. lia. }
  nra.
Qed.

Lemma generateRandom_notes (random : nat -> Q) (k : nat) :
  random_in_range random ->
  Forall2 (fun i n => note_valid n
                      /\ Note.time n = Some (inject_Z (Z.of_nat i) * 0.25))
          (seq 0 32) (fst (DataGenerator.generateRandom random k)).
Proof.
  intros Hr. unfold DataGenerator.generateRandom.
  apply mapM_Rand_Forall2. intros i k0. rand_simpl.
  split; [|reflexivity].
  unfold note_valid; cbn. split; [|split; [|split]].
  - apply clamp_bounds. lra.
  - specialize (Hr (S k0)). lra.
  - lra.
  - eexists; split; [reflexivity|]. apply quarter_nonneg.
Qed.

Lemma generateOutput_notes (random : nat -> Q) (st : AppState.t) (d : Data)
    (k : nat) :
  random_in_range random ->
  Forall2 output_note (seq 0 32)
          (fst (DataGenerator.generateOutput random st d k)).
Proof.
  intros Hr. unfold DataGenerator.generateOutput.
  apply mapM_Rand_Forall2. intros i k0. rand_simpl.
  unfold output_note; cbn. split; [|split; [|split]].
  - apply clamp_bounds. lra.
  - reflexivity.
  - reflexivity.
  - specialize (Hr (S k0)). lra.
Qed.

(** Notes whose start times are given by a monotone function of their
    position are sorted by start time. *)
Lemma timed_by_position_sorted (notes : list Note.t) (n : nat) :
  Forall2 (fun i a => Note.time a = Some (inject_Z (Z.of_nat i) * 0.25))
          (seq 0 n) notes ->
  start_times_nondecreasing notes.
Proof.
  intros H i a b Ha Hb.
  destruct (Forall2_lookup_r _ _ _ _ _ H Ha) as (x & Hx & Hta).
  destruct (Forall2_lookup_r _ _ _ _ _ H Hb) as (y & Hy & Htb).
  apply lookup_seq in Hx as [-> _]. apply lookup_seq in Hy as [-> _].
  eexists _, _. split; [exact Hta|]. split; [exact Htb|].
  apply quarter_mono. lia.
Qed.

Lemma sorted_nil : start_times_nondecreasing [].
Proof. intros i a b H. discriminate. Qed.

Lemma sorted_single (a : Note.t) : start_times_nondecreasing [a].
Proof. intros i x y _ H. destruct i; discriminate. Qed.

Lemma sorted_cons (a b : Note.t) (l : list Note.t) (ta tb : Q) :
  Note.time a = Some ta -> Note.time b = Some tb -> Qle_bool ta tb = true ->
  start_times_nondecreasing (b :: l) ->
  start_times_nondecreasing (a :: b :: l).
Proof.
  intros Ha Hb Hle Hl i x y Hx Hy. destruct i as [|i].
  - cbn in Hx, Hy. injection Hx as <-. injection Hy as <-.
    exists ta, tb. repeat split; try assumption. apply Qle_bool_iff, Hle.
  - exact (Hl i x y Hx Hy).
Qed.

Ltac solve_sorted :=
  repeat (eapply sorted_cons; [reflexivity|reflexivity|reflexivity|]);
  apply sorted_single.

Ltac solve_fixed_note :=
  unfold note_valid; cbn;
  split; [split; apply Qle_bool_iff; reflexivity|];
  split; [split; apply Qle_bool_iff; reflexivity|];
  split; [reflexivity|];
  eexists; split; [reflexivity|apply Qle_bool_iff; reflexivity].

Lemma generateScale_notes :
  Forall note_valid DataGenerator.generateScale
  /\ start_times_nondecreasing DataGenerator.generateScale.
Proof.
  split.
  - unfold DataGenerator.generateScale. cbn.
    repeat (constructor; [solve_fixed_note|]). constructor.
  - unfold DataGenerator.generateScale. cbn. solve_sorted.
Qed.

Lemma generateChords_notes :
  Forall note_valid DataGenerator.generateChords
  /\ start_times_nondecreasing DataGenerator.generateChords.
Proof.
  split.
  - unfold DataGenerator.generateChords. cbn.
    repeat (constructor; [solve_fixed_note|]). constructor.
  - unfold DataGenerator.generateChords. cbn. solve_sorted.
Qed.

(** C9. With [Math.random] in [[0, 1)], for every input type string
    [generateInput] returns a non-empty list of notes, each with pitch in
    [[36, 96]], velocity in [[0, 1]], a positive duration and a
    non-negative start time, the start times being non-decreasing along
    the list; a type other than 'scale' and 'chord' gives [generateRandom]. *)
Theorem generateInput_notes_valid (random : nat -> Q) (type : string) (k : nat) :
  random_in_range random ->
  let notes := fst (DataGenerator.generateInput random type k) in
  notes <> []
  /\ Forall note_valid notes
  /\ start_times_nondecreasing notes
  /\ (type <> "scale" -> type <> "chord" ->
      DataGenerator.generateInput random type k
      = DataGenerator.generateRandom random k).
Proof.
  intros Hr notes.
  assert (Hrandom :
    let ns := fst (DataGenerator.generateRandom random k) in
    ns <> [] /\ Forall note_valid ns /\ start_times_nondecreasing ns).
  { pose proof (generateRandom_notes random k Hr) as H.
    split; [|split].
    - intros E. apply Forall2_length in H. rewrite E in H. discriminate.
    - apply (Forall2_Forall_r _ _ _ _ H). apply Forall_forall. tauto.
    - apply (timed_by_position_sorted _ 32).
      eapply Forall2_impl; [exact H|]. cbn. tauto. }
  subst notes. unfold DataGenerator.generateInput.
  destruct (String.eqb_spec type "random") as [->|Hnr].
  { destruct Hrandom as (? & ? & ?). repeat split; assumption. }
  destruct (String.eqb_spec type "scale") as [->|Hns].
  { destruct generateScale_notes. cbn. repeat split; try assumption;
      [discriminate|congruence]. }
  destruct (String.eqb_spec type "chord") as [->|Hnc].
  { destruct generateChords_notes. cbn. repeat split; try assumption;
      [discriminate|congruence]. }
  destruct Hrandom as (? & ? & ?). repeat split; assumption.
Qed.

Lemma generateInput_notes_valid_witness :
  fst (DataGenerator.generateInput (always (1#2)) "chord" 0%nat) <> [].
Proof.
  apply (generateInput_notes_valid (always (1#2)) "chord" 0%nat).
  apply always_in_range. split; [apply Qle_bool_iff|apply Qlt_alt]; reflexivity.
Defined.

End Notes.

(** ** The forward pass, the animator and failures *)

Lemma half_in_range : random_in_range (always (1#2)).
Proof.
  apply always_in_range. split; [apply Qle_bool_iff|apply Qlt_alt]; reflexivity.
Qed.

Lemma flat_sin_bounded : sin_bounded flat_sin.
Proof. intros x. split; apply Qle_bool_iff; reflexivity. Qed.

Section ForwardPass.
Variable random : nat -> Q.
Variable sin : Q -> Q.
Variable stepDisplay : bool.

(** C1 (amended). For every non-empty [AppState.inputData] and each of
    the preset architectures, when no animation is running ([isAnimating]
    is false), [runForwardPass] reaches [animateStep(0)] in a state whose
    [layerOutputs] holds exactly one layer output per layer of the current
    architecture, chained in order: entry 0 is the result of
    [processLayer(0, inputData)], and entry [i+1] is the result of
    [processLayer(i+1, d)] where [d] is the [data] field of entry [i]. *)
Theorem forward_pass_fills_layer_outputs (w : World) (notes : list Note.t)
    (arch : Arch.t) :
  AppState.inputData (app w) = Some notes ->
  notes <> [] ->
  AppState.isAnimating (app w) = false ->
  AppState.getCurrentArch (app w) = Some arch ->
  exists w1,
    forward_pass_until_animation random sin w = (Ok tt, w1)
    /\ runForwardPass random sin stepDisplay w
       = animateStep random stepDisplay 0 w1
    /\ length (AppState.layerOutputs (app w1)) = length (Arch.layers arch)
    /\ chained random sin (app w1) 0 (DNotes notes) (draws w)
               (AppState.layerOutputs (app w1)) (draws w1)
    /\ forall (i : nat) (o : LayerOutput.t),
         AppState.layerOutputs (app w1) !! i = Some o ->
         exists din kin kout,
           DataGenerator.processLayer random sin (app w1) i din kin
           = (Ok o, kout)
           /\ match i with
              | O => din = DNotes notes
              | S i' =>
                  exists prev,
                    AppState.layerOutputs (app w1) !! i' = Some prev
                    /\ din = LayerOutput.data prev
              end.
Proof.
  intros Hin Hne Han Ha.
  destruct (forward_pass_prefix_run random sin stepDisplay w notes arch
              Hin Hne Han Ha) as (w1 & Hpre & Hrun & Hlen & Hchain).
  exists w1. split; [exact Hpre|]. split; [exact Hrun|].
  split; [exact Hlen|]. split; [exact Hchain|].
  (* entry by entry *)
  intros i o Hi.
  destruct (chained_lookup random sin _ _ _ _ _ _ Hchain i o Hi)
    as (din & kin & kout & Hp & Hd).
  exists din, kin, kout. split; [exact Hp|].
  destruct i as [|i']; [exact Hd|].
  destruct Hd as (prev & Hprev & ->). exists prev. split; [exact Hprev|reflexivity].
Qed.



(** C10 (amended). With [Math.random] in [[0, 1)], [generateOutput]
    returns exactly 32 notes, the [i]-th with pitch in [[36, 96]], start
    time [i * 0.25], duration 0.25 and velocity in [[0.6, 1]], and the
    result does not depend on [latentData].  Consequently the completion
    message reports 32 generated notes whenever [layerOutputs] is non-empty
    at completion, as it is at the end of a forward pass that runs from
    [runForwardPass] through all its timers without another event in
    between. *)
Theorem generateOutput_32_notes (st : AppState.t) (d : Data) (k : nat) :
  random_in_range random ->
  let notes := fst (DataGenerator.generateOutput random st d k) in
  length notes = 32%nat
  /\ (forall (i : nat) (n : Note.t), notes !! i = Some n -> output_note i n)
  /\ (forall d' : Data,
      DataGenerator.generateOutput random st d' k
      = DataGenerator.generateOutput random st d k)
  (* the completion message, when there are layer outputs *)
  /\ (forall (w : World) (arch : Arch.t),
      AppState.getCurrentArch (app w) = Some arch ->
      AppState.layerOutputs (app w) <> [] ->
      exists w' pre,
        completeForwardPass random stepDisplay w = (Ok tt, w')
        /\ length (AppState.outputNotes (app w')) = 32%nat
        /\ events w' = events w ++ pre
             ++ [SetExplanation (MsgForwardPassComplete 32);
                 ConsoleLog (MsgForwardPassComplete 32)])
  (* an uninterrupted forward pass *)
  /\ (forall (w : World) (input : list Note.t) (arch : Arch.t),
      AppState.inputData (app w) = Some input -> input <> [] ->
      AppState.isAnimating (app w) = false ->
      AppState.getCurrentArch (app w) = Some arch ->
      timers w = [] ->
      exists w' pre,
        (runForwardPass random sin stepDisplay;;
         fireTimers random stepDisplay (length (Arch.layers arch))) w
        = (Ok tt, w')
        /\ events w' = events w ++ pre
             ++ [SetExplanation (MsgForwardPassComplete 32);
                 ConsoleLog (MsgForwardPassComplete 32)]).
Proof.
  intros Hr notes. split; [apply generateOutput_length|].
  split.
  { intros i n Hi.
    destruct (Forall2_lookup_r _ _ _ _ _
                (generateOutput_notes random st d k Hr) Hi) as (j & Hj & Hn).
    apply lookup_seq in Hj as [-> _]. exact Hn. }
  split; [reflexivity|].
  split.
  - intros w arch Ha Hne.
    destruct (completeForwardPass_run random stepDisplay w arch Ha)
      as (w' & Hrun & _ & _ & _ & _ & _ & _ & Hlen & _ & pre & Hev).
    exists w', pre. split; [exact Hrun|].
    specialize (Hlen Hne). split; [exact Hlen|].
    rewrite Hlen in Hev. exact Hev.
  - intros w input arch Hin Hne Han Ha Htm.
    destruct (forward_pass_prefix_run random sin stepDisplay w input arch
                Hin Hne Han Ha) as (w1 & Hpre & Hrun & Hlen & _).
    assert (Hw1 : AppState.getCurrentArch (app w1) = Some arch
                  /\ AppState.isAnimating (app w1) = true
                  /\ timers w1 = [] /\ exists new, events w1 = events w ++ new).
    { clear Hrun Hlen. unfold forward_pass_until_animation in Hpre.
      erewrite bind_Ok in Hpre by reflexivity.
      erewrite bind_Ok in Hpre by reflexivity.
      erewrite bind_Ok in Hpre by reflexivity.
      unfold processAllLayers_loop in Hpre.
      erewrite bind_Ok in Hpre by reflexivity.
      erewrite bind_Ok in Hpre by (apply deref_Some; exact Ha).
      set (w0 := add_events _ _) in Hpre.
      destruct (layersLoop_run random sin arch (Arch.layers arch) 0
                  (data_of_input (AppState.inputData (app w0))) w0 Ha eq_refl)
        as (w1' & outs & Hrun' & _ & _ & _ & Hco & Hev & Htm' & _).
      { change (AppState.inputData (app w0)) with (AppState.inputData (app w)).
        rewrite Hin. apply (presets_layers_ok _ _ Ha). }
      rewrite Hrun' in Hpre. injection Hpre as <-.
      split. { rewrite (changes_only_getCurrentArch _ _ _ Hco) by field_notin.
               exact Ha. }
      split. { rewrite <- (Hco FisAnimating ltac:(field_notin)). reflexivity. }
      split. { rewrite Htm'. exact Htm. }
      eexists. rewrite Hev. reflexivity. }
    destruct Hw1 as (Ha1 & Han1 & Htm1 & new1 & Hev1).
    destruct (animation_completes random stepDisplay w1 arch Ha1
                ltac:(rewrite Han1; reflexivity) Htm1)
      as (wn & Hrunn & _ & _ & _ & _ & Hlenn & new & Hevn).
    assert (Hne1 : AppState.layerOutputs (app w1) <> []).
    { intros E. rewrite E in Hlen.
      destruct (getCurrentArch_cases _ _ Ha) as [->|[->|[->| ->]]]; discriminate. }
    specialize (Hlenn Hne1). rewrite Hlenn in Hevn.
    exists wn, (new1 ++ new). split.
    + destruct (animateStep_no_throw random stepDisplay w1 arch 0 Ha1) as (w2 & Hstep).
      rewrite (bind_Ok _ _ _ _ _ Hstep) in Hrunn.
      rewrite Hstep in Hrun.
      rewrite (bind_Ok _ _ _ _ _ Hrun). exact Hrunn.
    + rewrite Hevn, Hev1. list_norm. reflexivity.
Qed.

End ForwardPass.

(** ** The theorems on concrete runs *)

Example generateScale_pitches :
  map Note.pitch DataGenerator.generateScale
  = [60; 62; 64; 65; 67; 69; 71; 72; 72; 71; 69; 67; 65; 64; 62; 60]%Q.
Proof. reflexivity. Qed.

Example generateChords_times :
  map Note.time DataGenerator.generateChords
  = map (fun t : Z => Some (inject_Z t * 1)%Q) [0; 0; 0; 1; 1; 1; 2; 2; 2; 3; 3; 3]%Z.
Proof. reflexivity. Qed.

Example demo_running_state :
  AppState.isAnimating (app demo_running) = true
  /\ length (AppState.layerOutputs (app demo_running)) = 7%nat
  /\ highlighted (events demo_running) = [0]%Z
  /\ map callback (timers demo_running) = [CbAnimateStep 1].
Proof. vm_compute. repeat split. Qed.

Example demo_done_state :
  AppState.isAnimating (app demo_done) = false
  /\ AppState.currentStep (app demo_done) = 6%Z
  /\ length (AppState.outputNotes (app demo_done)) = 32%nat
  /\ highlighted (events demo_done) = [0; 1; 2; 3; 4; 5; 6; 6]%Z
  /\ last (events demo_done) = Some (ConsoleLog (MsgForwardPassComplete 32))
  /\ timers demo_done = [].
Proof. vm_compute. repeat split. Qed.

Lemma forward_pass_fills_layer_outputs_witness :
  exists w1,
    forward_pass_until_animation (always (1#2)) flat_sin demo_input = (Ok tt, w1)
    /\ length (AppState.layerOutputs (app w1)) = 7%nat.
Proof.
  destruct (forward_pass_fills_layer_outputs (always (1#2)) flat_sin true
              demo_input DataGenerator.generateScale AppState.VAE)
    as (w1 & Hpre & _ & Hlen & _).
  - vm_compute. reflexivity.
  - intros E. apply (f_equal length) in E. vm_compute in E. discriminate.
  - reflexivity.
  - reflexivity.
  - exists w1. split; [exact Hpre|exact Hlen].
Defined.

(** A second click on "Run Forward Pass" while the first pass is animating:
    the input is non-empty and the architecture is a preset, yet the call
    returns at once; no layer is processed and no animation step runs. *)
Lemma forward_pass_counterexample :
  (exists notes, AppState.inputData (app demo_running) = Some notes /\ notes <> [])
  /\ AppState.getCurrentArch (app demo_running) = Some AppState.VAE
  /\ AppState.isAnimating (app demo_running) = true
  /\ runForwardPass (always (1#2)) flat_sin true demo_running
     = (Ok tt, demo_running)
  /\ ~ exists w1,
        forward_pass_until_animation (always (1#2)) flat_sin demo_running
        = (Ok tt, w1)
        /\ runForwardPass (always (1#2)) flat_sin true demo_running
           = animateStep (always (1#2)) true 0 w1.
Proof.
  split; [|split; [|split; [|split]]].
  - exists DataGenerator.generateScale. split; [vm_compute; reflexivity|].
    intros E. apply (f_equal length) in E. vm_compute in E. discriminate.
  - reflexivity.
  - vm_compute. reflexivity.
  - vm_compute. reflexivity.
  - intros (w1 & Hpre & Hrun).
    apply (f_equal snd) in Hpre. cbn [snd] in Hpre. subst w1.
    apply (f_equal (fun r => length (events (snd r)))) in Hrun.
    vm_compute in Hrun. discriminate.
Qed.

Lemma step_counter_stays_in_range_witness :
  exists w',
    stepBack demo_done = (Ok tt, w')
    /\ (0 <= AppState.currentStep (app w') <= 6)%Z.
Proof.
  destruct (step_counter_stays_in_range (always (1#2)) flat_sin true
              demo_done AppState.VAE)
    as [_ (w' & Hrun & Hrange & _)].
  - reflexivity.
  - intros E. apply (f_equal length) in E. vm_compute in E. discriminate.
  - vm_compute. split; discriminate.
  - exists w'. split; [exact Hrun|exact Hrange].
Defined.

Lemma processLayer_not_deterministic_witness :
  exists (random' : nat -> Q) (o' : LayerOutput.t),
    fst (DataGenerator.processLayer random' flat_sin AppState.initial 1
           (DNotes DataGenerator.generateScale) 0) = Ok o'
    /\ fst (DataGenerator.processLayer (always (1#2)) flat_sin AppState.initial
              1 (DNotes DataGenerator.generateScale) 0) <> Ok o'.
Proof.
  destruct (DataGenerator.processLayer (always (1#2)) flat_sin AppState.initial
              1 (DNotes DataGenerator.generateScale) 0) as [[o|e] k'] eqn:E.
  - destruct (processLayer_not_deterministic (always (1#2)) flat_sin
                AppState.initial 1 (DNotes DataGenerator.generateScale) 0 o k'
                flat_sin_bounded E)
      as ((random' & o' & k'' & a & a' & _ & Hrun & _ & _ & _ & Hne) & _).
    exists random', o'. rewrite Hrun. split; [reflexivity|].
    cbn. intros [= ->]. apply Hne. reflexivity.
  - vm_compute in E. discriminate.
Defined.

(** The "Decoder Dense" layer of the VAE preset is not an input layer, and
    on the latent object its transform draws nothing: it returns the same
    data for two different random sources. *)
Lemma transform_draws_counterexample :
  exists layer,
    Arch.layers AppState.VAE !! 4%nat = Some layer
    /\ Layer.type layer = "dense"
    /\ Layer.type layer <> "input"
    /\ snd (DataGenerator.layerTransform (always (1#2)) AppState.initial
              (Layer.type layer) 4 demo_latent 0) = 0%nat
    /\ fst (DataGenerator.layerTransform (always 0) AppState.initial
              (Layer.type layer) 4 demo_latent 0)
       = fst (DataGenerator.layerTransform (always (1#2)) AppState.initial
                (Layer.type layer) 4 demo_latent 0).
Proof.
  eexists. split; [reflexivity|]. cbn [Layer.type].
  split; [reflexivity|]. split; [discriminate|].
  split; vm_compute; reflexivity.
Qed.






Lemma generateOutput_32_notes_witness :
  length (fst (DataGenerator.generateOutput (always (1#2)) AppState.initial
                 DNull 0)) = 32%nat.
Proof.
  apply (generateOutput_32_notes (always (1#2)) flat_sin true AppState.initial
           DNull 0 half_in_range).
Defined.

(** Reset is clicked while the completion of a forward pass is pending:
    when the timer fires there is no layer output, no output is generated
    and the completion message reports 0 notes. *)
Lemma completion_message_counterexample :
  AppState.layerOutputs (app demo_reset_early) = []
  /\ map callback (timers demo_reset_early) = [CbAnimateStep 7]
  /\ exists w',
      fireTimer (always (1#2)) true 0 demo_reset_early = (Ok tt, w')
      /\ last (events w') = Some (ConsoleLog (MsgForwardPassComplete 0))
      /\ AppState.outputNotes (app w') = [].
Proof.
  split; [vm_compute; reflexivity|]. split; [vm_compute; reflexivity|].
  eexists. split; [vm_compute; reflexivity|].
  split; vm_compute; reflexivity.
Qed.

(** * Further properties of the code *)

Section Generator.
Local Open Scope Q_scope.
Variable random : nat -> Q.
Variable sin : Q -> Q.

Lemma mapM_Rand_Forall {A B} (f : A -> Rand B) (P : B -> Prop) :
  (forall a k, P (fst (f a k))) ->
  forall l k, Forall P (fst (mapM f l k)).
Proof.
  intros Hf l k.
  apply (Forall2_Forall_r (fun _ b => P b) P l); [|apply Forall_forall; auto].
  apply mapM_Rand_Forall2. intros a k0. apply Hf.
Qed.

Lemma fill_map_length {A} (n : nat) (e : Rand A) (k : nat) :
  length (fst (DataGenerator.fill_map n e k)) = n.
Proof.
  unfold DataGenerator.fill_map. rewrite mapM_Rand_length.
  apply length_replicate.
Qed.

Lemma fill_map_Forall {A} (n : nat) (e : Rand A) (P : A -> Prop) (k : nat) :
  (forall k0, P (fst (e k0))) ->
  Forall P (fst (DataGenerator.fill_map n e k)).
Proof.
  intros He. unfold DataGenerator.fill_map.
  apply mapM_Rand_Forall. intros _ k0. apply He.
Qed.

(** X1. Whatever [Math.random] and [Math.sin] return, the activation map
    of [generateActivationMap] has 16 rows of 16 cells and every cell lies
    in [[0, 1]]: the clamp [Math.max(0, Math.min(1, value))] does not rely
    on the range of its argument. *)
Theorem activation_map_16x16_unit_interval (layerIndex k : nat) :
  let map := fst (DataGenerator.generateActivationMap random sin layerIndex k) in
  length map = 16%nat
  /\ Forall (fun row => length row = 16%nat
                        /\ Forall (fun v => 0 <= v <= 1) row) map.
Proof.
  unfold DataGenerator.generateActivationMap. split.
  - rewrite mapM_Rand_length. reflexivity.
  - apply mapM_Rand_Forall. intros i k0. split.
    + rewrite mapM_Rand_length. reflexivity.
    + apply mapM_Rand_Forall. intros j k1. rand_simpl.
      apply clamp_bounds. lra.
Qed.

(** X2. With [Math.random] in [[0, 1)], [applyLatentSampling] returns an
    object whose [mu], [sigma] and [z] each have [AppState.latentDim]
    entries, [mu] and [z] in [[-1, 1)] and [sigma] in [[0, 1)], after
    exactly [3 * latentDim] calls of [Math.random]; its argument is never
    read, so the result is the same for every input. *)
Theorem latent_sampling_sizes_and_ranges (st : AppState.t) (d : Data) (k : nat) :
  random_in_range random ->
  exists mu sigma z,
    DataGenerator.applyLatentSampling random st d k
    = (DLatent mu sigma z, (k + 3 * AppState.latentDim st)%nat)
    /\ length mu = AppState.latentDim st
    /\ length sigma = AppState.latentDim st
    /\ length z = AppState.latentDim st
    /\ Forall (fun v => -1 <= v < 1) mu
    /\ Forall (fun v => 0 <= v < 1) sigma
    /\ Forall (fun v => -1 <= v < 1) z
    /\ forall d', DataGenerator.applyLatentSampling random st d' k
                  = DataGenerator.applyLatentSampling random st d k.
Proof.
  intros Hr. unfold DataGenerator.applyLatentSampling.
  set (n := AppState.latentDim st).
  set (e1 := r ← DataGenerator.Math_random random; mret (r * 2 - 1)).
  pose proof (fill_map_length n e1 k) as L1.
  pose proof (fill_map_draws n 1 e1 ltac:(intros; subst e1; rand_simpl; lia) k) as D1.
  assert (F1 : forall k0, Forall (fun v => -1 <= v < 1)
                            (fst (DataGenerator.fill_map n e1 k0))).
  { intros k0. apply fill_map_Forall. intros k1. subst e1. rand_simpl.
    specialize (Hr k1). lra. }
  pose proof (F1 k) as F1k.
  unfold mbind at 1, Rand_bind at 1.
  destruct (DataGenerator.fill_map n e1 k) as [mu k1]. cbn [fst snd] in *. subst k1.
  pose proof (fill_map_length n (DataGenerator.Math_random random) (k + 1 * n)%nat) as L2.
  pose proof (fill_map_draws n 1 (DataGenerator.Math_random random)
                ltac:(intros; rand_simpl; lia) (k + 1 * n)%nat) as D2.
  pose proof (fill_map_Forall n (DataGenerator.Math_random random)
                (fun v => 0 <= v < 1) (k + 1 * n)%nat
                ltac:(intros k1; rand_simpl; apply Hr)) as F2.
  unfold mbind at 1, Rand_bind at 1.
  destruct (DataGenerator.fill_map n (DataGenerator.Math_random random) (k + 1 * n)%nat)
    as [sigma k2]. cbn [fst snd] in *. subst k2.
  pose proof (fill_map_length n e1 (k + 1 * n + 1 * n)%nat) as L3.
  pose proof (fill_map_draws n 1 e1 ltac:(intros; subst e1; rand_simpl; lia)
                (k + 1 * n + 1 * n)%nat) as D3.
  pose proof (F1 (k + 1 * n + 1 * n)%nat) as F3.
  unfold mbind at 1, Rand_bind at 1.
  destruct (DataGenerator.fill_map n e1 (k + 1 * n + 1 * n)%nat) as [z k3].
  cbn [fst snd] in *. subst k3.
  exists mu, sigma, z. split; [cbn; f_equal; lia|].
  repeat split; try assumption; try (eapply Forall_impl; [eassumption|cbn; intros; lra]).
Qed.

End Generator.

Section Transforms.
Local Open Scope Q_scope.
Variable random : nat -> Q.
Variable sin : Q -> Q.

Lemma maps_notes_cases (type : string) :
  maps_notes type = true ->
  type = "conv" \/ type = "deconv" \/ type = "lstm" \/ type = "attention".
Proof.
  unfold maps_notes. rewrite !orb_true_iff, !String.eqb_eq. tauto.
Qed.

Lemma map_notes_on_array (f : Note.t -> Rand Note.t) (notes : list Note.t)
    (k : nat) :
  DataGenerator.map_notes f (DNotes notes) k
  = (Ok (DNotes (fst (mapM f notes k))), snd (mapM f notes k)).
Proof.
  unfold DataGenerator.map_notes, mbind, Rand_bind, mret, Rand_ret.
  destruct (mapM f notes k); reflexivity.
Qed.

Lemma map_notes_core (f : Note.t -> Rand Note.t) (notes : list Note.t)
    (k : nat) :
  (forall a k0, same_core a (fst (f a k0))) ->
  Forall2 same_core notes (fst (mapM f notes k)).
Proof. intros Hf. apply mapM_Rand_Forall2, Hf. Qed.

(** X3. The transforms of the layer types 'conv', 'deconv', 'lstm' and
    'attention' call [data.map]: on an array they return an array with one
    note per input note, in order, with the same pitch, time, duration and
    velocity, to which 'conv' and 'deconv' add 32 [features], 'lstm' adds
    [hidden] and [cell], and 'attention' adds [attention]; on anything
    that is not an array they throw before any random number is drawn. *)
Theorem note_mapping_layers_keep_the_notes (st : AppState.t) (type : string)
    (i : nat) (d : Data) (k : nat) :
  maps_notes type = true ->
  match d with
  | DNotes notes =>
      exists out k',
        DataGenerator.layerTransform random st type i d k = (Ok (DNotes out), k')
        /\ Forall2 same_core notes out
        /\ (type = "conv" \/ type = "deconv" ->
            Forall (fun n => exists f, Note.features n = Some f
                                       /\ length f = 32%nat) out)
        /\ (type = "lstm" ->
            Forall (fun n => is_Some (Note.hidden n) /\ is_Some (Note.cell n)) out)
        /\ (type = "attention" ->
            Forall (fun n => is_Some (Note.attention n)) out)
  | _ =>
      exists e, DataGenerator.layerTransform random st type i d k = (Throw e, k)
  end.
Proof.
  intros Hm. apply maps_notes_cases in Hm.
  destruct d as [|notes|mu sg z|t e];
    try (destruct Hm as [-> | [-> | [-> | ->]]]; eexists; reflexivity).
  assert (Hconv : forall a k0,
             let n := fst ((f ← DataGenerator.fill_map 32 (DataGenerator.Math_random random);
                            mret (NoteUpd.set_features f a)) k0) in
             same_core a n
             /\ exists f, Note.features n = Some f /\ length f = 32%nat).
  { intros a k0. unfold mbind, Rand_bind, mret, Rand_ret.
    pose proof (fill_map_length 32 (DataGenerator.Math_random random) k0) as L.
    destruct (DataGenerator.fill_map 32 (DataGenerator.Math_random random) k0)
      as [f k1]. cbn in *. split; [repeat split|eauto]. }
  destruct Hm as [-> | [-> | [-> | ->]]];
    cbn [DataGenerator.layerTransform String.eqb Ascii.eqb Bool.eqb orb];
    cbv beta iota;
    unfold DataGenerator.applyConvolution, DataGenerator.applyLSTM,
      DataGenerator.applyAttention;
    rewrite map_notes_on_array; do 2 eexists; (split; [reflexivity|]).
  - split; [apply map_notes_core; intros; apply Hconv|].
    split; [intros _; apply mapM_Rand_Forall; intros; apply Hconv|].
    split; discriminate.
  - split; [apply map_notes_core; intros; apply Hconv|].
    split; [intros _; apply mapM_Rand_Forall; intros; apply Hconv|].
    split; discriminate.
  - split; [apply map_notes_core; intros; rand_simpl; repeat split|].
    split; [intros [?|?]; discriminate|].
    split; [|discriminate].
    intros _. apply mapM_Rand_Forall. intros. rand_simpl. split; eauto.
  - split; [apply map_notes_core; intros; rand_simpl; repeat split|].
    split; [intros [?|?]; discriminate|].
    split; [discriminate|].
    intros _. apply mapM_Rand_Forall. intros. rand_simpl. eauto.
Qed.

Lemma clamp_min_max (x : Q) : 0 <= Qmin 1 (Qmax 0 x) <= 1.
Proof.
  split; [apply Q.min_glb; [lra|apply Q.le_max_l]|apply Q.le_min_l].
Qed.

Lemma applyGenericTransform_sized (st : AppState.t) (d : Data) (i k : nat) :
  sized_of (fst (DataGenerator.applyGenericTransform random st d i k))
  = match sized_of d with
    | ZArray n | ZTime n => ZArray n
    | ZLatent _ | ZNull => ZArray 88
    end.
Proof.
  destruct d as [|notes|mu sg z|t e]; try reflexivity.
  - unfold DataGenerator.applyGenericTransform.
    unfold mbind at 1, Rand_bind at 1.
    match goal with
    | |- context [mapM ?f notes k] =>
        pose proof (mapM_Rand_length f notes k) as L;
        destruct (mapM f notes k) as [out k']
    end.
    cbn in *. congruence.
  - cbn. rewrite length_map. reflexivity.
Qed.

(** X4. [applyGenericTransform] returns an array of notes for every input
    and never throws: one note per input note for an array, one per entry
    of [embedding] for a time-embedding object, and 88 for a latent object
    or [null].  Every returned velocity lies in [[0, 1]], whatever
    [Math.random] returns.  When the input is not an array no random
    number is drawn and the returned notes have no [time] field and
    duration 0.5. *)
Theorem generic_transform_returns_notes (st : AppState.t) (d : Data)
    (i k : nat) :
  exists out,
    fst (DataGenerator.applyGenericTransform random st d i k) = DNotes out
    /\ length out = match d with
                    | DNotes notes => length notes
                    | DTime _ embedding => length embedding
                    | DLatent _ _ _ | DNull => 88%nat
                    end
    /\ Forall (fun n => 0 <= Note.velocity n <= 1) out
    /\ ((forall notes, d <> DNotes notes) ->
        snd (DataGenerator.applyGenericTransform random st d i k) = k
        /\ Forall (fun n => Note.time n = None /\ Note.duration n == 0.5) out).
Proof.
  destruct d as [|notes|mu sg z|t e].
  - eexists. split; [reflexivity|]. split; [reflexivity|].
    split; [|intros _; split; [reflexivity|]];
      cbn; repeat constructor; cbn; lra.
  - unfold DataGenerator.applyGenericTransform.
    unfold mbind at 1, Rand_bind at 1.
    match goal with
    | |- context [mapM ?f notes k] =>
        pose proof (mapM_Rand_length f notes k) as L;
        pose proof (mapM_Rand_Forall f (fun n => 0 <= Note.velocity n <= 1)) as V;
        specialize (V ltac:(intros a k0; rand_simpl; apply clamp_min_max) notes k);
        destruct (mapM f notes k) as [out k']
    end.
    exists out. cbn in *. split; [reflexivity|]. split; [exact L|].
    split; [exact V|]. intros Hne. destruct (Hne notes eq_refl).
  - eexists. split; [reflexivity|]. split; [reflexivity|].
    split; [|intros _; split; [reflexivity|]];
      cbn; repeat constructor; cbn; lra.
  - eexists. split; [reflexivity|]. split; [cbn; apply length_map|].
    split; [|intros _; split; [reflexivity|]];
      cbn; apply Forall_map, Forall_forall; intros; cbn; (lra || (split; [reflexivity|lra])).
Qed.


End Transforms.

Section ProcessLayer.
Local Open Scope Q_scope.
Variable random : nat -> Q.
Variable sin : Q -> Q.



Lemma transform_shape_maps (type : string) (d : Data) :
  transform_shape type (shape_of d) = None
  <-> maps_notes type = true /\ forall notes, d <> DNotes notes.
Proof.
  unfold transform_shape, maps_notes.
  destruct (String.eqb type "input") eqn:Ei.
  { apply String.eqb_eq in Ei. subst type. cbn. split; [discriminate|intros [? _]; discriminate]. }
  destruct (String.eqb type "conv" || String.eqb type "deconv"
            || String.eqb type "lstm" || String.eqb type "attention") eqn:Em.
  - destruct d as [|notes| |]; cbn; split; try discriminate;
      try (intros _; split; [reflexivity|discriminate]);
      try (intros _; reflexivity).
    intros [_ H]. destruct (H notes eq_refl).
  - split; [|intros [? _]; discriminate].
    repeat match goal with |- context [if ?b then _ else _] => destruct b end; discriminate.
Qed.

Lemma layerTransform_throws_no_draw (st : AppState.t) (type : string)
    (i : nat) (d : Data) (k : nat) :
  maps_notes type = true ->
  (forall notes, d <> DNotes notes) ->
  exists e, DataGenerator.layerTransform random st type i d k = (Throw e, k).
Proof.
  intros Hm Hn. apply maps_notes_cases in Hm.
  destruct d as [|notes| |]; [|destruct (Hn notes eq_refl)| |];
    destruct Hm as [-> | [-> | [-> | ->]]]; eexists; reflexivity.
Qed.

(** X6. [processLayer] returns exactly when the selected architecture is
    a preset, [layerIndex] is the index of one of its layers and, for a
    layer whose transform calls [data.map], the input is an array.  When
    it returns, the output carries the layer's name and type and the call
    has drawn the random numbers of the transform plus the 256 of the
    activation map; when it throws, no random number has been drawn. *)
Theorem processLayer_outcome (st : AppState.t) (i : nat) (d : Data) (k : nat) :
  match DataGenerator.processLayer random sin st i d k with
  | (Ok o, k') =>
      exists arch layer,
        AppState.getCurrentArch st = Some arch
        /\ Arch.layers arch !! i = Some layer
        /\ LayerOutput.layer o = Layer.name layer
        /\ LayerOutput.type o = Layer.type layer
        /\ (maps_notes (Layer.type layer) = true -> exists notes, d = DNotes notes)
        /\ k' = (k + transform_draws st (Layer.type layer) d + 256)%nat
  | (Throw e, k') =>
      k' = k
      /\ (AppState.getCurrentArch st = None
          \/ exists arch,
               AppState.getCurrentArch st = Some arch
               /\ match Arch.layers arch !! i with
                  | None => True
                  | Some layer =>
                      maps_notes (Layer.type layer) = true
                      /\ forall notes, d <> DNotes notes
                  end)
  end.
Proof.
  destruct (DataGenerator.processLayer random sin st i d k) as [[o|e] k'] eqn:E.
  - apply processLayer_inv in E.
    destruct E as (arch & layer & d' & k1 & Ha & Hl & Ht & -> & ->).
    exists arch, layer. repeat split; try assumption.
    + intros Hm. destruct d as [|notes| |]; eauto.
      all: match goal with
           | |- exists _, ?d = _ =>
               destruct (layerTransform_throws_no_draw st (Layer.type layer) i d k Hm
                           ltac:(discriminate)) as [e N]; congruence
           end.
    + rewrite generateActivationMap_draws.
      pose proof (layerTransform_draws random st (Layer.type layer) i d k) as D.
      rewrite Ht in D. cbn in D. lia.
  - unfold DataGenerator.processLayer in E.
    destruct (AppState.getCurrentArch st) as [arch|] eqn:Ha;
      [|unfold mret, Rand_ret in E; split; [congruence|left; reflexivity]].
    destruct (Arch.layers arch !! i) as [layer|] eqn:Hl;
      [|unfold mret, Rand_ret in E; split; [congruence|right; exists arch; rewrite Hl; auto]].
    unfold mbind, Rand_bind in E.
    destruct (DataGenerator.layerTransform random st (Layer.type layer) i d k)
      as [[d'|e'] k1] eqn:Ht.
    { destruct (DataGenerator.generateActivationMap random sin i k1). discriminate. }
    unfold mret, Rand_ret in E. injection E as <- <-.
    destruct (transform_shape (Layer.type layer) (shape_of d)) as [s'|] eqn:Hs.
    { destruct (layerTransform_shape random st _ i d k s' Hs) as (? & ? & Hok & _).
      congruence. }
    apply transform_shape_maps in Hs. destruct Hs as [Hm Hn].
    split.
    + destruct (layerTransform_throws_no_draw st (Layer.type layer) i d k Hm Hn)
        as [e0 N]. congruence.
    + right. exists arch. rewrite Hl. auto.
Qed.

End ProcessLayer.

Section Sizes.
Local Open Scope Q_scope.
Variable random : nat -> Q.
Variable sin : Q -> Q.
Variable stepDisplay : bool.

Lemma layerTransform_sized (st : AppState.t) (type : string) (i : nat)
    (d : Data) (k : nat) (d' : Data) (k' : nat) :
  DataGenerator.layerTransform random st type i d k = (Ok d', k') ->
  sized_of d' = transform_sized st type (sized_of d).
Proof.
  assert (Hmap : forall f, DataGenerator.map_notes f d k = (Ok d', k') ->
                           sized_of d' = sized_of d).
  { intros f. destruct d as [|notes| |]; try discriminate.
    rewrite map_notes_on_array. intros [= <- _]. cbn.
    rewrite mapM_Rand_length. reflexivity. }
  destruct (String.eqb_spec type "input") as [->|Hi];
    [intros [= <- _]; reflexivity|].
  destruct (String.eqb_spec type "conv") as [->|Hc]; [apply Hmap|].
  destruct (String.eqb_spec type "deconv") as [->|Hd]; [apply Hmap|].
  destruct (String.eqb_spec type "lstm") as [->|Hl]; [apply Hmap|].
  destruct (String.eqb_spec type "attention") as [->|Hat]; [apply Hmap|].
  destruct (String.eqb_spec type "latent") as [->|Hla].
  { cbn [DataGenerator.layerTransform transform_sized String.eqb Ascii.eqb
           Bool.eqb orb]. cbv beta iota.
    unfold fmap, Rand_fmap, DataGenerator.applyLatentSampling.
    set (n := AppState.latentDim st).
    unfold mbind at 1, Rand_bind at 1.
    match goal with
    | |- context [DataGenerator.fill_map n ?e k] =>
        pose proof (fill_map_length n e k) as L;
        destruct (DataGenerator.fill_map n e k) as [mu k1]
    end.
    unfold mbind at 1, Rand_bind at 1;
      destruct (DataGenerator.fill_map n _ k1) as [sg k2];
      unfold mbind at 1, Rand_bind at 1;
      destruct (DataGenerator.fill_map n _ k2) as [z k3].
    cbn; intros [= <- _]; cbn in *; congruence. }
  destruct (String.eqb_spec type "time") as [->|Hti].
  { cbn [DataGenerator.layerTransform transform_sized String.eqb Ascii.eqb
           Bool.eqb orb]. cbv beta iota.
    unfold fmap, Rand_fmap, DataGenerator.applyTimeEmbedding.
    unfold mbind at 1, Rand_bind at 1.
    destruct (DataGenerator.Math_random random k) as [t k1].
    unfold mbind at 1, Rand_bind at 1.
    pose proof (fill_map_length 256 (DataGenerator.Math_random random) k1) as L.
    destruct (DataGenerator.fill_map 256 _ k1) as [e k2].
    cbn. intros [= <- _]. cbn in *. congruence. }
  unfold DataGenerator.layerTransform, transform_sized.
  apply String.eqb_neq in Hi, Hc, Hd, Hl, Hat, Hla, Hti.
  rewrite Hi, Hc, Hd, Hl, Hat, Hla, Hti. cbn [orb].
  unfold fmap, Rand_fmap.
  pose proof (applyGenericTransform_sized random st d i k) as G.
  destruct (DataGenerator.applyGenericTransform random st d i k) as [g k1].
  intros [= <- _]. exact G.
Qed.

(** The data of the last output, or [d] when there is none. *)
Lemma chained_sized (st : AppState.t) (arch : Arch.t) (i : nat) (d : Data)
    (k : nat) (outs : list LayerOutput.t) (k' : nat) :
  AppState.getCurrentArch st = Some arch ->
  chained random sin st i d k outs k' ->
  sized_of (default d (LayerOutput.data <$> last outs))
  = layers_sized st (take (length outs) (drop i (Arch.layers arch))) (sized_of d).
Proof.
  intros Ha Hch. induction Hch as [i d k|i d k o k1 outs k2 Hp Hch IH].
  - reflexivity.
  - apply processLayer_inv in Hp.
    destruct Hp as (arch' & layer & d' & k1' & Ha' & Hl & Ht & -> & ->).
    assert (arch' = arch) by congruence. subst arch'.
    apply layerTransform_sized in Ht.
    rewrite (drop_S _ _ _ Hl). cbn [length take].
    unfold layers_sized in *. cbn [foldl]. rewrite <- Ht.
    cbn [LayerOutput.data] in IH. rewrite <- IH.
    destruct outs as [|o' outs']; [reflexivity|].
    cbn. destruct (last (o' :: outs')) eqn:E; [reflexivity|].
    apply last_None in E. discriminate.
Qed.

Lemma getCurrentArch_key (st : AppState.t) (arch : Arch.t) :
  AppState.getCurrentArch st = Some arch ->
  (AppState.currentArchitecture st = "VAE" /\ arch = AppState.VAE)
  \/ (AppState.currentArchitecture st = "LSTM" /\ arch = AppState.LSTM)
  \/ (AppState.currentArchitecture st = "Transformer"
      /\ arch = AppState.Transformer)
  \/ (AppState.currentArchitecture st = "Diffusion"
      /\ arch = AppState.Diffusion).
Proof.
  unfold AppState.getCurrentArch, AppState.architectures.
  intros H.
  repeat (apply lookup_insert_Some in H as [[<- <-]|[_ H]]; [tauto|]).
  rewrite lookup_empty in H. discriminate.
Qed.

Lemma forward_pass_prefix_arch (w w1 : World) (notes : list Note.t)
    (arch : Arch.t) :
  AppState.inputData (app w) = Some notes ->
  AppState.getCurrentArch (app w) = Some arch ->
  forward_pass_until_animation random sin w = (Ok tt, w1) ->
  AppState.getCurrentArch (app w1) = Some arch.
Proof.
  intros Hin Ha Hpre.
  set (w0 := add_events [ShowLoadingAnimation]
               (with_app (AppState.set_isAnimating true)
                  (with_app AppState.reset w))).
  assert (Ha0 : AppState.getCurrentArch (app w0) = Some arch) by exact Ha.
  destruct (layersLoop_run random sin arch (Arch.layers arch) 0 (DNotes notes) w0 Ha0
              eq_refl (presets_layers_ok _ _ Ha))
    as (w1' & outs & Hrun & Houts & Hlen & Hch & Hco & _).
  assert (Hloop : processAllLayers_loop random sin w0 = (Ok tt, w1')).
  { unfold processAllLayers_loop.
    erewrite bind_Ok by reflexivity.
    erewrite bind_Ok by (apply deref_Some; exact Ha0).
    change (AppState.inputData (app w0)) with (AppState.inputData (app w)).
    rewrite Hin. exact Hrun. }
  assert (Hpre' : forward_pass_until_animation random sin w = (Ok tt, w1')).
  { unfold forward_pass_until_animation.
    erewrite bind_Ok by reflexivity.
    erewrite bind_Ok by reflexivity.
    erewrite bind_Ok by reflexivity.
    exact Hloop. }
  assert (w1 = w1') by congruence. subst w1'.
  rewrite (changes_only_getCurrentArch _ _ _ Hco) by field_notin. exact Ha0.
Qed.

(** X7. The number of notes a forward pass leaves in the last layer
    output depends on the preset only: 88 for 'VAE' and 256 for
    'Diffusion', whatever the input, and the length of the input for
    'LSTM' and 'Transformer'. *)
Theorem forward_pass_final_note_count (w : World) (notes : list Note.t)
    (arch : Arch.t) :
  AppState.inputData (app w) = Some notes ->
  notes <> [] ->
  AppState.isAnimating (app w) = false ->
  AppState.getCurrentArch (app w) = Some arch ->
  exists w1 o out,
    forward_pass_until_animation random sin w = (Ok tt, w1)
    /\ runForwardPass random sin stepDisplay w
       = animateStep random stepDisplay 0 w1
    /\ last (AppState.layerOutputs (app w1)) = Some o
    /\ LayerOutput.data o = DNotes out
    /\ length out
       = final_note_count (AppState.currentArchitecture (app w)) (length notes).
Proof.
  intros Hin Hne Han Ha.
  destruct (forward_pass_prefix_run random sin stepDisplay w notes arch
              Hin Hne Han Ha) as (w1 & Hpre & Hrun & Hlen & Hchain).
  pose proof (forward_pass_prefix_arch w w1 notes arch Hin Ha Hpre) as Ha1.
  pose proof (chained_sized _ arch _ _ _ _ _ Ha1 Hchain) as Hs.
  rewrite Hlen, drop_0, firstn_all in Hs.
  destruct (last (AppState.layerOutputs (app w1))) as [o|] eqn:El.
  2:{ apply last_None in El. rewrite El in Hlen.
      destruct (getCurrentArch_cases _ _ Ha) as [->|[->|[->| ->]]]; discriminate. }
  cbn [fmap option_fmap option_map default] in Hs. unfold id in Hs.
  assert (Hz : sized_of (LayerOutput.data o)
               = ZArray (final_note_count
                           (AppState.currentArchitecture (app w)) (length notes))).
  { rewrite Hs.
    destruct (getCurrentArch_key _ _ Ha) as [[-> ->]|[[-> ->]|[[-> ->]|[-> ->]]]];
      reflexivity. }
  destruct (LayerOutput.data o) as [|out| |] eqn:Ed; try discriminate.
  exists w1, o, out. injection Hz as Hz. auto.
Qed.

(** X8. In a forward pass of the 'VAE' preset the output of the layer
    'Decoder Dense' (index 4) is always the same array: 88 notes with
    pitches 21, 22, ..., 108, velocity 0.5, duration 0.5 and no start time.
    The latent sample, the input notes, the temperature and [Math.random]
    play no part in it. *)
Theorem vae_decoder_ignores_latent_sample (w : World) (notes : list Note.t) :
  AppState.inputData (app w) = Some notes ->
  notes <> [] ->
  AppState.isAnimating (app w) = false ->
  AppState.currentArchitecture (app w) = "VAE" ->
  exists w1 o,
    forward_pass_until_animation random sin w = (Ok tt, w1)
    /\ runForwardPass random sin stepDisplay w
       = animateStep random stepDisplay 0 w1
    /\ AppState.layerOutputs (app w1) !! 4%nat = Some o
    /\ LayerOutput.layer o = "Decoder Dense"
    /\ LayerOutput.data o
       = DNotes (map (fun i : nat =>
                        NoteUpd.untimed (inject_Z (Z.of_nat i) + 21) 0.5 0.5)
                     (seq 0 88)).
Proof.
  intros Hin Hne Han Hkey.
  assert (Ha : AppState.getCurrentArch (app w) = Some AppState.VAE)
    by (unfold AppState.getCurrentArch; rewrite Hkey; reflexivity).
  destruct (forward_pass_prefix_run random sin stepDisplay w notes _
              Hin Hne Han Ha) as (w1 & Hpre & Hrun & Hlen & Hchain).
  pose proof (forward_pass_prefix_arch w w1 notes _ Hin Ha Hpre) as Ha1.
  destruct (lookup_lt_is_Some_2 (AppState.layerOutputs (app w1)) 4) as [o Ho];
    [rewrite Hlen; cbn; lia|].
  exists w1, o. split; [exact Hpre|]. split; [exact Hrun|]. split; [exact Ho|].
  destruct (chained_lookup random sin _ _ _ _ _ _ Hchain 4 o Ho)
    as (din & kin & kout & Hp & prev & Hprev & ->).
  destruct (chained_lookup random sin _ _ _ _ _ _ Hchain 3 prev Hprev)
    as (din3 & kin3 & kout3 & Hp3 & _).
  apply processLayer_inv in Hp3.
  destruct Hp3 as (a3 & l3 & d3 & k3 & Ha3 & Hl3 & Ht3 & -> & _).
  rewrite Ha1 in Ha3. injection Ha3 as <-. cbn in Hl3. injection Hl3 as <-.
  cbn [Layer.type] in Ht3.
  apply processLayer_inv in Hp.
  destruct Hp as (a4 & l4 & d4 & k4 & Ha4 & Hl4 & Ht4 & -> & _).
  rewrite Ha1 in Ha4. injection Ha4 as <-. cbn in Hl4. injection Hl4 as <-.
  cbn [Layer.type Layer.name LayerOutput.data LayerOutput.layer] in *.
  split; [reflexivity|].
  destruct (layerTransform_shape random (app w1) "latent" 3 din3 kin3 SLatent
              eq_refl) as (d3' & k3' & Ht3' & Hs3).
  change (0 + 3)%nat with 3%nat in Ht3.
  rewrite Ht3 in Ht3'. injection Ht3' as <- <-.
  destruct d3 as [| |mu sg z|]; try discriminate.
  cbn in Ht4. injection Ht4 as <- _. reflexivity.
Qed.

End Sizes.

Section Midi.
Local Open Scope Q_scope.

Lemma Qfloor_div12 (x : Q) (m : Z) :
  x == inject_Z m -> Qfloor (x / 12) = (m / 12)%Z.
Proof.
  intros H. rewrite (Qfloor_comp (x / 12) (inject_Z m / 12)) by (rewrite H; reflexivity).
  unfold Qfloor, Qdiv, Qmult, Qinv, inject_Z. cbn.
  rewrite Z.mul_1_r. reflexivity.
Qed.

Lemma Qceiling_div12 (x : Q) (m : Z) :
  x == inject_Z m -> Qceiling (x / 12) = (- ((- m) / 12))%Z.
Proof.
  intros H. unfold Qceiling.
  rewrite (Qfloor_comp (- (x / 12)) (inject_Z (- m) / 12)).
  - rewrite (Qfloor_div12 (inject_Z (- m)) (- m)) by reflexivity. reflexivity.
  - rewrite H. rewrite inject_Z_opp. field.
Qed.

Lemma js_rem_int (x : Q) (m : Z) :
  x == inject_Z m -> AudioPlayer.js_rem x 12 == inject_Z (Z.rem m 12).
Proof.
  intros H. unfold AudioPlayer.js_rem. cbv zeta.
  assert (Hq : x / inject_Z 12 == inject_Z m / 12) by (rewrite H; reflexivity).
  destruct (Qle_bool 0 (x / inject_Z 12)) eqn:E.
  - apply Qle_bool_iff in E. rewrite Hq in E.
    assert (0 <= m)%Z.
    { rewrite Zle_Qle. change (inject_Z 0) with 0.
      clear H Hq. revert E. generalize (inject_Z m). intros y E.
      unfold Qdiv in E. change (/ 12) with (1 # 12) in E. lra. }
    change (inject_Z 12) with 12. rewrite (Qfloor_div12 x m H).
    rewrite H. unfold Qminus. rewrite <- inject_Z_opp, <- inject_Z_plus.
    rewrite inject_Z_injective. rewrite Z.rem_mod_nonneg by lia.
    rewrite (Z.mod_eq m 12) by lia. lia.
  - assert (~ 0 <= x / inject_Z 12).
    { intros C. apply Qle_bool_iff in C. congruence. }
    rewrite Hq in H0.
    assert (m < 0)%Z.
    { destruct (Z_lt_le_dec m 0) as [?|Hm]; [assumption|]. exfalso. apply H0.
      rewrite Zle_Qle in Hm. change (inject_Z 0) with 0 in Hm.
      revert Hm. generalize (inject_Z m). intros y ?.
      unfold Qdiv. change (/ 12) with (1 # 12). lra. }
    change (inject_Z 12) with 12. rewrite (Qceiling_div12 x m H).
    rewrite H. unfold Qminus. rewrite <- inject_Z_opp, <- inject_Z_plus.
    rewrite inject_Z_injective.
    replace (Z.rem m 12) with (- ((- m) mod 12))%Z.
    + rewrite (Z.mod_eq (- m) 12) by lia. lia.
    + rewrite <- (Z.opp_involutive m) at 2. rewrite Z.rem_opp_l by lia.
      rewrite Z.rem_mod_nonneg by lia. reflexivity.
Qed.

Lemma at_number_int {A} (l : list A) (k : Q) (r : Z) :
  k == inject_Z r -> AudioPlayer.at_number l k = at_index l r.
Proof.
  intros H. unfold AudioPlayer.at_number.
  rewrite (Qfloor_comp k (inject_Z r) H), Qfloor_Z.
  assert (E : Qeq_bool (inject_Z r) k = true) by (apply Qeq_bool_iff; symmetry; exact H).
  rewrite E. reflexivity.
Qed.

Lemma at_number_frac {A} (l : list A) (k : Q) :
  (forall r, ~ k == inject_Z r) -> AudioPlayer.at_number l k = None.
Proof.
  intros H. unfold AudioPlayer.at_number.
  destruct (Qeq_bool (inject_Z (Qfloor k)) k) eqn:E; [|reflexivity].
  apply Qeq_bool_iff in E. destruct (H (Qfloor k)). symmetry. exact E.
Qed.

Lemma midiToNote_int (x : Q) (m : Z) :
  x == inject_Z m ->
  AudioPlayer.midiToNote x
  = (name ← at_index pitch_class_names (Z.rem m 12);
     Some (name +:+ pretty (m / 12 - 1)%Z)).
Proof.
  intros H. unfold AudioPlayer.midiToNote. cbv zeta.
  rewrite (at_number_int _ _ _ (js_rem_int x m H)).
  rewrite (Qfloor_div12 x m H). reflexivity.
Qed.

Lemma pretty_N_go_ne_hash (x : N) (s s' : string) :
  s <> "#" +:+ s' -> pretty_N_go x s <> "#" +:+ s'.
Proof.
  revert s. induction (N.lt_wf_0 x) as [x _ IH]; intros s Hs.
  assert (x = 0 \/ 0 < x)%N as [->|Hx] by lia.
  - rewrite pretty_N_go_0. exact Hs.
  - rewrite pretty_N_go_step by exact Hx. apply IH.
    { apply N.div_lt; [exact Hx|reflexivity]. }
    unfold pretty_N_char. repeat case_match; discriminate.
Qed.

Lemma pretty_Z_ne_hash (z : Z) (s : string) : pretty z <> "#" +:+ s.
Proof.
  destruct z as [|p|p]; unfold pretty, pretty_Z; [discriminate| |discriminate].
  unfold pretty, pretty_positive, pretty, pretty_N.
  destruct (decide (N.pos p = 0%N)); [discriminate|].
  apply pretty_N_go_ne_hash. discriminate.
Qed.

Lemma note_name_inj (i j : nat) (n1 n2 : string) (o1 o2 : Z) :
  pitch_class_names !! i = Some n1 ->
  pitch_class_names !! j = Some n2 ->
  n1 +:+ pretty o1 = n2 +:+ pretty o2 ->
  i = j /\ o1 = o2.
Proof.
  intros H1 H2 H. unfold pitch_class_names in H1, H2.
  do 12 (try destruct i as [|i]);
    try (cbn in H1; discriminate);
    cbn in H1; injection H1 as <-;
    (do 12 (try destruct j as [|j]);
     try (cbn in H2; discriminate);
     cbn in H2; injection H2 as <-);
    cbn in H; try discriminate;
    injection H as H;
    try (split; [reflexivity|apply (inj pretty); exact H]);
    try (exfalso; eapply pretty_Z_ne_hash; exact H);
    try (exfalso; eapply pretty_Z_ne_hash; symmetry; exact H).
Qed.

(** X9. [midiToNote(midi)], on the integers that JavaScript represents
    exactly and on all other numbers: for an integer [m >= 0] the result is the
    name of pitch class [m mod 12] followed by the octave
    [floor(m / 12) - 1] in decimal; for a negative integer it is a name
    ('C' and the octave) only when [m] is a multiple of 12 and [NaN]
    otherwise, because [%] keeps the sign of [m]; for a number that is not
    an integer it is [NaN]. *)
Theorem midiToNote_names (x : Q) :
  (forall m : Z,
      x == inject_Z m -> safe_integer m -> (0 <= m)%Z ->
      exists name,
        pitch_class_names !! Z.to_nat (m mod 12) = Some name
        /\ AudioPlayer.midiToNote x = Some (name +:+ pretty (m / 12 - 1)%Z))
  /\ (forall m : Z,
        x == inject_Z m -> safe_integer m -> (m < 0)%Z ->
        AudioPlayer.midiToNote x
        = if (m mod 12 =? 0)%Z then Some ("C" +:+ pretty (m / 12 - 1)%Z)
          else None)
  /\ ((forall m : Z, ~ x == inject_Z m) -> AudioPlayer.midiToNote x = None).
Proof.
  split; [|split].
  - intros m H _ Hm. rewrite (midiToNote_int x m H).
    rewrite Z.rem_mod_nonneg by lia.
    pose proof (Z.mod_pos_bound m 12 ltac:(lia)) as Hb.
    unfold at_index. destruct (Z.ltb_spec (m mod 12) 0); [lia|].
    destruct (lookup_lt_is_Some_2 pitch_class_names (Z.to_nat (m mod 12)))
      as [name Hn]; [cbn; lia|].
    exists name. rewrite Hn. split; reflexivity.
  - intros m H _ Hm. rewrite (midiToNote_int x m H).
    assert (Hr : Z.rem m 12 = (- ((- m) mod 12))%Z).
    { rewrite <- (Z.opp_involutive m) at 1. rewrite Z.rem_opp_l by lia.
      rewrite Z.rem_mod_nonneg by lia. reflexivity. }
    pose proof (Z.mod_pos_bound (- m) 12 ltac:(lia)) as Hb.
    destruct (Z.eqb_spec (m mod 12) 0) as [E|E].
    + assert (Z.rem m 12 = 0)%Z as ->.
      { rewrite Hr. apply Z.mod_divide in E; [|lia].
        destruct E as [c ->]. rewrite <- Z.mul_opp_l, Z.mod_mul by lia. lia. }
      reflexivity.
    + assert (Z.rem m 12 < 0)%Z.
      { rewrite Hr. assert ((- m) mod 12 <> 0)%Z; [|lia]. intros C.
        apply E. apply Z.mod_divide in C; [|lia]. destruct C as [c Hc].
        replace m with ((- c) * 12)%Z by lia. apply Z.mod_mul. lia. }
      unfold at_index. destruct (Z.ltb_spec (Z.rem m 12) 0); [reflexivity|lia].
  - intros H. unfold AudioPlayer.midiToNote. cbv zeta.
    rewrite at_number_frac; [reflexivity|].
    intros r C. unfold AudioPlayer.js_rem in C. cbv zeta in C.
    match type of C with
    | _ - inject_Z ?z == _ => apply (H (r + z)%Z); rewrite inject_Z_plus; lra
    end.
Qed.

(** X10. [midiToNote] never gives two integers the same name (integers
    that JavaScript represents exactly). *)
Theorem midiToNote_injective (a b : Z) (s : string) :
  safe_integer a -> safe_integer b ->
  AudioPlayer.midiToNote (inject_Z a) = Some s ->
  AudioPlayer.midiToNote (inject_Z b) = Some s ->
  a = b.
Proof.
  assert (Hdec : forall m : Z,
             AudioPlayer.midiToNote (inject_Z m) = Some s ->
             exists i name,
               pitch_class_names !! i = Some name
               /\ s = name +:+ pretty (m / 12 - 1)%Z
               /\ (m = 12 * (m / 12) + Z.of_nat i)%Z).
  { intros m. rewrite (midiToNote_int _ m) by reflexivity.
    unfold at_index. destruct (Z.ltb_spec (Z.rem m 12) 0) as [|Hr]; [discriminate|].
    destruct (pitch_class_names !! Z.to_nat (Z.rem m 12)) as [name|] eqn:E;
      [|discriminate].
    intros [= <-]. exists (Z.to_nat (Z.rem m 12)), name.
    split; [exact E|]. split; [reflexivity|].
    rewrite Z2Nat.id by exact Hr.
    destruct (Z_lt_le_dec m 0) as [Hm|Hm].
    - assert (Z.rem m 12 = 0)%Z as Hz.
      { pose proof (Z.rem_nonpos m 12 ltac:(lia) ltac:(lia)). lia. }
      rewrite Hz. apply Z.rem_divide in Hz; [|lia]. destruct Hz as [c ->].
      rewrite Z.div_mul by lia. lia.
    - rewrite Z.rem_mod_nonneg by lia. rewrite (Z.mod_eq m 12) by lia. lia. }
  intros _ _ Ha Hb.
  destruct (Hdec a Ha) as (i & n1 & Hi & -> & Ea).
  destruct (Hdec b Hb) as (j & n2 & Hj & Hs & Eb).
  destruct (note_name_inj i j n1 n2 _ _ Hi Hj Hs) as [-> Ho]. lia.
Qed.

Lemma Qmax_inject_Z (a b : Z) :
  Qmax (inject_Z a) (inject_Z b) == inject_Z (Z.max a b).
Proof.
  destruct (Z.max_spec a b) as [[Hz ->]|[Hz ->]];
    destruct (Q.max_spec (inject_Z a) (inject_Z b)) as [[Hq ->]|[Hq ->]];
    try reflexivity.
  - rewrite <- Zle_Qle in Hq. lia.
  - rewrite <- Zlt_Qlt in Hq. lia.
Qed.

Lemma Qmin_inject_Z (a b : Z) :
  Qmin (inject_Z a) (inject_Z b) == inject_Z (Z.min a b).
Proof.
  destruct (Z.min_spec a b) as [[Hz ->]|[Hz ->]];
    destruct (Q.min_spec (inject_Z a) (inject_Z b)) as [[Hq ->]|[Hq ->]];
    try reflexivity.
  - rewrite <- Zle_Qle in Hq. lia.
  - rewrite <- Zlt_Qlt in Hq. lia.
Qed.

(** X11. Every note of [generateOutput], for every [Math.random] and
    every temperature, has an integer pitch between 36 and 96, so that
    [midiToNote] gives it a name, with an octave between 2 and 7: the
    pitch handed to the synthesiser is never [NaN]. *)
Theorem output_notes_have_names (random : nat -> Q) (st : AppState.t)
    (d : Data) (k : nat) :
  Forall (fun n =>
            exists (m : Z) (name : string),
              (36 <= m <= 96)%Z
              /\ Note.pitch n == inject_Z m
              /\ pitch_class_names !! Z.to_nat (m mod 12) = Some name
              /\ AudioPlayer.midiToNote (Note.pitch n)
                 = Some (name +:+ pretty (m / 12 - 1)%Z)
              /\ (2 <= m / 12 - 1 <= 7)%Z)
         (fst (DataGenerator.generateOutput random st d k)).
Proof.
  unfold DataGenerator.generateOutput. apply mapM_Rand_Forall.
  intros i k0. rand_simpl. unfold DataGenerator.Math_floor.
  set (z := Qfloor (random k0 * AppState.temperature st * 24 - 12)).
  exists (Z.max 36 (Z.min 96 (60 + z))).
  assert (Hp : Qmax 36 (Qmin 96 (60 + inject_Z z))
               == inject_Z (Z.max 36 (Z.min 96 (60 + z)))).
  { rewrite <- Qmax_inject_Z, <- Qmin_inject_Z, inject_Z_plus. reflexivity. }
  set (m := Z.max 36 (Z.min 96 (60 + z))) in *.
  assert (Hm : (36 <= m <= 96)%Z) by (subst m; lia).
  pose proof (Z.mod_pos_bound m 12 ltac:(lia)) as Hb.
  destruct (lookup_lt_is_Some_2 pitch_class_names (Z.to_nat (m mod 12)))
    as [name Hn]; [cbn; lia|].
  exists name. split; [exact Hm|]. split; [exact Hp|]. split; [exact Hn|].
  split.
  - rewrite (midiToNote_int _ m Hp). rewrite Z.rem_mod_nonneg by lia.
    unfold at_index. destruct (Z.ltb_spec (m mod 12) 0); [lia|].
    rewrite Hn. reflexivity.
  - assert (3 <= m / 12)%Z by (apply Z.div_le_lower_bound; lia).
    assert (m / 12 <= 8)%Z by (apply Z.div_le_upper_bound; lia). lia.
Qed.

End Midi.

Section Audio.
Local Open Scope Q_scope.
Variable random : nat -> Q.
Variable stepDisplay : bool.

Lemma stop_run (w : World) :
  AudioPlayer.stop w
  = (Ok tt, with_player AudioPlayer.initial
              (add_events (stop_events (player w)) w)).
Proof.
  unfold AudioPlayer.stop, stop_events.
  destruct w as [a d [pl [part|]] au tm ev su];
    unfold mbind, M_bind, mret, M_ret, get_player, set_player, emit;
    cbn; unfold with_player, add_events; cbn; rewrite <- ?app_assoc; reflexivity.
Qed.

(** The call of [play] returns at its [await]. *)
Lemma play_run (w : World) (n : Note.t) (ns : list Note.t) :
  let notes := n :: ns in
  AudioPlayer.play (Some notes) w
  = (Ok tt, with_suspended (suspended w ++ [notes])
              (add_events [ToneStart] w)).
Proof. reflexivity. Qed.

Lemma play_resumed_run (w : World) (notes : list Note.t) :
  AudioPlayer.play_resumed notes w = (Ok tt, resumed notes w).
Proof.
  unfold AudioPlayer.play_resumed, resumed.
  erewrite bind_Ok by apply stop_run.
  unfold mbind, M_bind, mret, M_ret, get_player, set_player, emit, setTimeout.
  cbn. unfold with_timers, with_player, add_events. cbn.
  rewrite <- !app_assoc. reflexivity.
Qed.

Lemma toneStarted_run (w : World) (i : nat) (notes : list Note.t) :
  suspended w !! i = Some notes ->
  AudioPlayer.toneStarted i w
  = (Ok tt, resumed notes (with_suspended (delete i (suspended w)) w)).
Proof.
  intros Hi. unfold AudioPlayer.toneStarted. rewrite Hi.
  apply play_resumed_run.
Qed.

Lemma toneStarted_at (w : World) (pre post : list (list Note.t))
    (notes : list Note.t) :
  suspended w = pre ++ notes :: post ->
  AudioPlayer.toneStarted (length pre) w
  = (Ok tt, resumed notes (with_suspended (pre ++ post) w)).
Proof.
  intros Hs. erewrite toneStarted_run.
  - rewrite Hs, delete_middle. reflexivity.
  - rewrite Hs, lookup_app_r by lia. rewrite Nat.sub_diag. reflexivity.
Qed.

Lemma fireTimer_audio_stop (w : World) (pre post : list Timer) (t : Timer) :
  timers w = pre ++ t :: post ->
  callback t = CbAudioStop ->
  fireTimer random stepDisplay (length pre) w
  = (Ok tt, with_player AudioPlayer.initial
              (add_events (stop_events (player w))
                 (with_timers (pre ++ post) w))).
Proof.
  intros Ht Hcb. unfold fireTimer.
  rewrite Ht, lookup_app_r by lia. rewrite Nat.sub_diag.
  cbn [lookup list_lookup]. rewrite Hcb. cbn [runCallback].
  rewrite delete_middle, stop_run. reflexivity.
Qed.

Lemma toneStarted_idle (w : World) (i : nat) :
  suspended w !! i = None -> AudioPlayer.toneStarted i w = (Ok tt, w).
Proof. intros Hi. unfold AudioPlayer.toneStarted. rewrite Hi. reflexivity. Qed.

(** [play(notes)] and then its own continuation. *)
Lemma play_then_resumed (w : World) (n : Note.t) (ns : list Note.t) :
  let notes := n :: ns in
  (AudioPlayer.play (Some notes);;
   AudioPlayer.toneStarted (length (suspended w))) w
  = (Ok tt, resumed notes (add_events [ToneStart] w)).
Proof.
  intros notes. erewrite bind_Ok by apply play_run.
  erewrite toneStarted_run.
  2:{ cbn [suspended with_suspended add_events].
      rewrite lookup_app_r by lia. rewrite Nat.sub_diag. reflexivity. }
  cbn [suspended with_suspended add_events].
  rewrite delete_middle, app_nil_r.
  destruct w; reflexivity.
Qed.

Lemma live_parts_app (es es' : list Event) :
  live_parts (es ++ es') = (live_parts es + live_parts es')%Z.
Proof.
  induction es as [|e es IH]; [reflexivity|].
  destruct e; cbn [Datatypes.app live_parts]; rewrite IH; lia.
Qed.

Lemma live_parts_stop (p : PlayerState) :
  live_parts (stop_events p) = match currentPart p with
                               | Some _ => -1
                               | None => 0
                               end%Z.
Proof. unfold stop_events. destruct (currentPart p); reflexivity. Qed.

(** X12. Whatever sequence of [play] and [stop] calls is made on the
    audio player, and whenever the suspended calls of [play] go on, in
    whatever order, every call returns and the [Tone.Part] objects created
    and not yet disposed are exactly the one held in [currentPart], if
    any: at most one part is alive at any time, none leaks, and [AppState]
    is not touched. *)
Theorem audio_parts_never_leak (cs : list AudioCall) (w : World) :
  parts_accounted w ->
  exists w',
    audioCalls cs w = (Ok tt, w')
    /\ parts_accounted w'
    /\ (0 <= live_parts (events w') <= 1)%Z
    /\ app w' = app w.
Proof.
  revert w. induction cs as [|c cs IH]; intros w Hw.
  - exists w. split; [reflexivity|]. split; [exact Hw|].
    split; [|reflexivity].
    rewrite Hw. destruct (currentPart (player w)); lia.
  - assert (Hc : exists w1, audioCall c w = (Ok tt, w1)
                            /\ parts_accounted w1 /\ app w1 = app w).
    { destruct c as [[[|n ns]|]| |i]; cbn [audioCall].
      - eexists. split; [reflexivity|]. split; [|reflexivity].
        unfold parts_accounted in *. cbn [events player add_events].
        rewrite live_parts_app, Hw. cbn [live_parts]. lia.
      - eexists. split; [apply play_run|]. split; [|reflexivity].
        unfold parts_accounted in *.
        cbn [events player with_suspended add_events].
        rewrite live_parts_app, Hw. cbn [live_parts]. lia.
      - eexists. split; [reflexivity|]. split; [|reflexivity].
        unfold parts_accounted in *. cbn [events player add_events].
        rewrite live_parts_app, Hw. cbn [live_parts]. lia.
      - eexists. split; [apply stop_run|]. split; [|reflexivity].
        unfold parts_accounted in *.
        cbn [events player with_player add_events currentPart
             AudioPlayer.initial].
        rewrite live_parts_app, live_parts_stop, Hw.
        destruct (currentPart (player w)); lia.
      - destruct (suspended w !! i) as [notes|] eqn:Hi.
        + eexists. split; [apply (toneStarted_run _ _ _ Hi)|].
          split; [|reflexivity].
          unfold parts_accounted, resumed in *.
          cbn [events player with_timers with_player with_suspended
               add_events currentPart].
          rewrite live_parts_app. cbn [live_parts].
          rewrite live_parts_app, live_parts_stop, Hw. cbn [live_parts].
          destruct (currentPart (player w)); lia.
        + exists w. split; [apply (toneStarted_idle _ _ Hi)|].
          split; [exact Hw|reflexivity]. }
    destruct Hc as (w1 & Hrun1 & Hw1 & Happ1).
    destruct (IH w1 Hw1) as (w' & Hrun & Hw' & Hle & Happ).
    exists w'. cbn [audioCalls]. erewrite bind_Ok by exact Hrun1.
    split; [exact Hrun|]. split; [exact Hw'|]. split; [exact Hle|].
    congruence.
Qed.

(** X13. [play(notes)] returns at [await Tone.start()] with the player
    and the timers as they were; its continuation starts the playback and
    the auto-stop timer, and when that timer fires the player is back in
    its initial state.  Since [stop] does not cancel the timer, a second
    playback started before it fires is stopped by it: after
    [play(notes); play(later)], the two continuations and the first timer,
    nothing plays, while the timer of the second playback is still
    pending. *)
Theorem audio_auto_stop_timer (w : World) (notes later : list Note.t) :
  notes <> [] ->
  let i := length (timers w) in
  let j := length (suspended w) in
  (exists w',
      AudioPlayer.play (Some notes) w = (Ok tt, w')
      /\ player w' = player w
      /\ timers w' = timers w
      /\ suspended w' = suspended w ++ [notes])
  /\ (exists w' t,
      (AudioPlayer.play (Some notes);; AudioPlayer.toneStarted j) w
      = (Ok tt, w')
      /\ isPlaying (player w') = true
      /\ currentPart (player w') = Some (map AudioPlayer.part_event notes)
      /\ timers w' = timers w ++ [t]
      /\ callback t = CbAudioStop
      /\ suspended w' = suspended w)
  /\ (exists w',
      (AudioPlayer.play (Some notes);; AudioPlayer.toneStarted j;;
       fireTimer random stepDisplay i) w = (Ok tt, w')
      /\ player w' = AudioPlayer.initial
      /\ timers w' = timers w)
  /\ (later <> [] ->
      exists w' t,
        (AudioPlayer.play (Some notes);; AudioPlayer.play (Some later);;
         AudioPlayer.toneStarted j;; AudioPlayer.toneStarted j;;
         fireTimer random stepDisplay i) w = (Ok tt, w')
        /\ player w' = AudioPlayer.initial
        /\ timers w' = timers w ++ [t]
        /\ callback t = CbAudioStop
        /\ suspended w' = suspended w).
Proof.
  intros Hne i j. destruct notes as [|n ns]; [congruence|].
  subst i j. split; [|split; [|split]].
  - eexists. split; [apply play_run|]. repeat split.
  - eexists _, _. split; [apply play_then_resumed|]. repeat split.
  - rewrite <- bind_assoc_M. erewrite bind_Ok by apply play_then_resumed.
    erewrite fireTimer_audio_stop with (pre := timers w) (post := []);
      [|reflexivity..].
    eexists. split; [reflexivity|]. split; [reflexivity|]. apply app_nil_r.
  - intros Hl. destruct later as [|m ms]; [congruence|].
    erewrite bind_Ok by apply play_run.
    erewrite bind_Ok by apply play_run.
    erewrite bind_Ok.
    2:{ apply toneStarted_at with (pre := suspended w) (post := [m :: ms]).
        cbn [suspended with_suspended add_events].
        rewrite <- app_assoc. reflexivity. }
    erewrite bind_Ok.
    2:{ apply toneStarted_at with (pre := suspended w) (post := []).
        reflexivity. }
    erewrite fireTimer_audio_stop with (pre := timers w);
      [|cbn; rewrite <- app_assoc; reflexivity|reflexivity].
    eexists _, _. split; [reflexivity|]. split; [reflexivity|].
    split; [reflexivity|]. split; [reflexivity|]. apply app_nil_r.
Qed.

End Audio.

Section Grid.
Local Open Scope Z_scope.

Lemma getNodeCount_values (type : string) :
  Engine3D.getNodeCount type ∈ [8; 12; 14; 16; 18; 20; 24].
Proof.
  unfold Engine3D.getNodeCount.
  destruct (Engine3D.counts !! type) as [c|] eqn:E; [|set_solver].
  unfold Engine3D.counts in E. apply elem_of_list_to_map_2 in E.
  repeat (apply elem_of_cons in E as [[= -> ->]|E]; [cbn; set_solver|]).
  apply elem_of_nil in E. destruct E.
Qed.

Lemma grid_cases (type : string) :
  let n := Engine3D.getNodeCount type in
  (n, Engine3D.grid_rows n, Engine3D.grid_cols n)
  ∈ [(8, 3, 3); (12, 4, 3); (14, 4, 4); (16, 4, 4); (18, 5, 4); (20, 5, 4);
     (24, 5, 5)].
Proof.
  intros n. subst n. pose proof (getNodeCount_values type) as H.
  repeat (apply elem_of_cons in H as [->|H]; [vm_compute; set_solver|]).
  apply elem_of_nil in H. destruct H.
Qed.

(** X15. [createLayerGroup] arranges the nodes of a layer, whatever its
    type (a key of [Object.prototype] apart), on a grid of [rows = ceil(sqrt(n))] by [cols = ceil(n / rows)]
    cells: [n] is positive, every node index below [n] gets a row below
    [rows] and a column below [cols], and the last node lies in the last
    row, so that the group is centred. *)
Theorem layer_grid_fits (type : string) :
  type ∉ object_prototype_keys ->
  let n := Engine3D.getNodeCount type in
  let rows := Engine3D.grid_rows n in
  let cols := Engine3D.grid_cols n in
  0 < n
  /\ (forall i, 0 <= i < n -> 0 <= i / cols < rows /\ 0 <= Z.rem i cols < cols)
  /\ (n - 1) / cols = rows - 1.
Proof.
  intros _ n rows cols. pose proof (grid_cases type) as H. cbv zeta in H.
  fold n in H. fold rows in H. fold cols in H.
  clearbody n rows cols.
  repeat (apply elem_of_cons in H as [[= -> -> ->]|H];
          [split; [lia|]; split; [|reflexivity];
           intros i Hi; rewrite Z.rem_mod_nonneg by lia;
           Z.to_euclidean_division_equations; lia|]).
  apply elem_of_nil in H. destruct H.
Qed.

Lemma node_position_inj (layer : Layer.t) (x x' : Q) (i j : Z) :
  0 <= i < Engine3D.getNodeCount (Layer.type layer) ->
  0 <= j < Engine3D.getNodeCount (Layer.type layer) ->
  let p := Engine3D.node_position layer x i in
  let q := Engine3D.node_position layer x' j in
  (p.1.2 == q.1.2)%Q -> (p.2 == q.2)%Q -> i = j.
Proof.
  intros Hi Hj p q. subst p q. unfold Engine3D.node_position. cbn [fst snd].
  pose proof (grid_cases (Layer.type layer)) as H. cbv zeta in H.
  revert Hi Hj H.
  generalize (Engine3D.getNodeCount (Layer.type layer)) as n.
  intros n Hi Hj H.
  repeat (apply elem_of_cons in H as [[= -> E1 E2]|H];
    [rewrite E1, E2; clear E1 E2; intros Hy Hz;
     apply Qplus_inj_l, Qmult_inj_r in Hy; [|discriminate];
     apply Qplus_inj_l, Qmult_inj_r in Hz; [|discriminate];
     rewrite inject_Z_injective in Hy, Hz;
     rewrite !Z.rem_mod_nonneg in Hz by lia;
     Z.to_euclidean_division_equations; lia|]).
  apply elem_of_nil in H. destruct H.
Qed.

(** X16. No two nodes that [buildNetwork] creates for layers of ordinary
    types (none a key of [Object.prototype]) have the same position:
    nodes of different layers differ in [x], nodes of one layer differ in
    [y] or [z]. *)
Theorem network_nodes_do_not_overlap (layers : list Layer.t) (a b : nat)
    (la lb : Layer.t) (i j : nat) (p q : Q * Q * Q) :
  Forall (fun l => Layer.type l ∉ object_prototype_keys) layers ->
  layers !! a = Some la ->
  layers !! b = Some lb ->
  Engine3D.layer_positions layers a la !! i = Some p ->
  Engine3D.layer_positions layers b lb !! j = Some q ->
  (p.1.1 == q.1.1)%Q -> (p.1.2 == q.1.2)%Q -> (p.2 == q.2)%Q ->
  a = b /\ i = j.
Proof.
  intros _ Ha Hb Hp Hq. unfold Engine3D.layer_positions in Hp, Hq.
  rewrite list_lookup_fmap in Hp, Hq.
  destruct (seq 0 _ !! i) as [i'|] eqn:Ei in Hp; [|discriminate].
  destruct (seq 0 _ !! j) as [j'|] eqn:Ej in Hq; [|discriminate].
  apply lookup_seq in Ei as [-> Hi]. apply lookup_seq in Ej as [-> Hj].
  cbn in Hp, Hq. injection Hp as <-. injection Hq as <-.
  intros Hx Hy Hz.
  assert (a = b) as <-.
  { unfold Engine3D.node_position in Hx. cbn [fst snd] in Hx.
    assert (E : (inject_Z (Z.of_nat a) == inject_Z (Z.of_nat b))%Q) by lra.
    rewrite inject_Z_injective in E. lia. }
  split; [reflexivity|].
  assert (la = lb) as <- by congruence.
  apply Nat2Z.inj. eapply (node_position_inj la); [| |exact Hy|exact Hz]; lia.
Qed.

End Grid.

Section AppExtras.
Variable random : nat -> Q.
Variable sin : Q -> Q.
Variable stepDisplay : bool.

Lemma stepForward_advance (w : World) (arch : Arch.t) :
  AppState.getCurrentArch (app w) = Some arch ->
  AppState.layerOutputs (app w) <> [] ->
  AppState.isAnimating (app w) = false ->
  let total := Z.of_nat (length (Arch.layers arch)) in
  let cur := AppState.currentStep (app w) in
  (-1 <= cur < total - 1)%Z ->
  exists w', stepForward random sin stepDisplay w = (Ok tt, w')
    /\ AppState.currentStep (app w') = (cur + 1)%Z
    /\ changes_only [FcurrentStep; FoutputNotes] (app w) (app w')
    /\ timers w' = timers w /\ player w' = player w
    /\ autoPlayInterval w' = autoPlayInterval w.
Proof.
  intros Ha Hne Han total cur Hrange. unfold stepForward.
  erewrite bind_Ok by reflexivity. rewrite Han.
  destruct (AppState.layerOutputs (app w)) as [|o outs'] eqn:Houts; [congruence|].
  cbn [length Nat.eqb].
  erewrite bind_Ok by (apply deref_Some; exact Ha).
  fold total cur. unfold when.
  destruct (Z.ltb_spec cur (total - 1)) as [Hlt|Hge]; [|lia].
  erewrite bind_Ok by reflexivity.
  erewrite render_step_run; [|cbn; exact Ha|].
  2:{ intros _. apply at_index_Some. fold total. lia. }
  set (w1 := add_events _ _).
  assert (Hw1 : AppState.currentStep (app w1) = (cur + 1)%Z
                /\ changes_only [FcurrentStep; FoutputNotes] (app w) (app w1)
                /\ timers w1 = timers w /\ player w1 = player w
                /\ autoPlayInterval w1 = autoPlayInterval w).
  { subst w1. cbn. split; [reflexivity|]. split; [solve_changes_only|auto]. }
  destruct Hw1 as (Hcs & Hch & Htm & Hpl & Hau).
  assert (Hreg : forall d,
             let w2 := after_regenerateOutput random d w1 in
             AppState.currentStep (app w2) = (cur + 1)%Z
             /\ changes_only [FcurrentStep; FoutputNotes] (app w) (app w2)
             /\ timers w2 = timers w /\ player w2 = player w
             /\ autoPlayInterval w2 = autoPlayInterval w).
  { intros d w2. subst w2.
    destruct (after_regenerateOutput_props random d w1)
      as (Ht2 & Hp2 & Ha2 & Hc & _).
    split; [rewrite <- (Hc FcurrentStep ltac:(field_notin)); exact Hcs|].
    split; [|repeat split; congruence].
    eapply changes_only_trans; [exact Hch|].
    eapply changes_only_mono; [|exact Hc]. field_subset. }
  destruct (at_index (o :: outs') (cur + 1)) as [ld|].
  - destruct (cur + 1 =? total - 1)%Z.
    + rewrite regenerateOutput_run. eexists. split; [reflexivity|]. apply Hreg.
    + exists w1. split; [reflexivity|]. auto.
  - exists w1. split; [reflexivity|]. auto.
Qed.

(** X21. The callback of the auto-play interval, with layer outputs
    present and [totalSteps] equal to the number [n] of layers, moves
    [currentStep] from [cur] to [(cur + 1) mod n] when no animation is
    running: it wraps around after the last layer.  While an animation is
    running it changes nothing, except at the last step, where it leaves
    [currentStep] at -1. *)
Theorem autoPlayTick_cycles (w : World) (arch : Arch.t) :
  AppState.getCurrentArch (app w) = Some arch ->
  let n := Z.of_nat (length (Arch.layers arch)) in
  let cur := AppState.currentStep (app w) in
  AppState.totalSteps (app w) = n ->
  AppState.layerOutputs (app w) <> [] ->
  (0 <= cur <= n - 1)%Z ->
  exists w',
    autoPlayTick random sin stepDisplay w = (Ok tt, w')
    /\ AppState.currentStep (app w')
       = (if AppState.isAnimating (app w)
          then (if (cur =? n - 1)%Z then -1 else cur)
          else (cur + 1) mod n)%Z
    /\ changes_only [FcurrentStep; FoutputNotes] (app w) (app w')
    /\ timers w' = timers w /\ player w' = player w
    /\ autoPlayInterval w' = autoPlayInterval w.
Proof.
  intros Ha n cur Htot Hne Hrange. unfold autoPlayTick.
  erewrite bind_Ok by reflexivity. rewrite Htot. fold cur. unfold when.
  destruct (AppState.isAnimating (app w)) eqn:Han.
  - (* stepForward returns at once *)
    destruct (Z.geb_spec cur (n - 1)) as [Hlast|Hnot].
    + erewrite bind_Ok by reflexivity.
      unfold stepForward. erewrite bind_Ok by reflexivity.
      cbn [app with_app AppState.isAnimating AppState.set_currentStep].
      rewrite Han. eexists. split; [reflexivity|].
      destruct (Z.eqb_spec cur (n - 1)); [|lia].
      cbn. split; [reflexivity|]. split; [solve_changes_only|auto].
    + erewrite bind_Ok by reflexivity.
      unfold stepForward. erewrite bind_Ok by reflexivity. rewrite Han.
      exists w. split; [reflexivity|].
      destruct (Z.eqb_spec cur (n - 1)); [lia|].
      split; [reflexivity|]. split; [apply changes_only_refl|auto].
  - destruct (Z.geb_spec cur (n - 1)) as [Hlast|Hnot].
    + erewrite bind_Ok by reflexivity.
      set (w0 := with_app (AppState.set_currentStep (-1)) w).
      destruct (stepForward_advance w0 arch) as (w' & Hrun & Hcs & Hch & Hrest);
        [exact Ha|exact Hne|exact Han|cbn; fold n; lia|].
      exists w'. split; [exact Hrun|]. split.
      * rewrite Hcs. cbn. replace (cur + 1)%Z with n by lia.
        rewrite Z.mod_same by lia. reflexivity.
      * split; [|exact Hrest].
        eapply changes_only_trans; [|exact Hch]. subst w0. cbn. solve_changes_only.
    + erewrite bind_Ok by reflexivity.
      destruct (stepForward_advance w arch) as (w' & Hrun & Hcs & Hch & Hrest);
        [exact Ha|exact Hne|exact Han|fold n cur; lia|].
      exists w'. split; [exact Hrun|]. split; [|split; [exact Hch|exact Hrest]].
      rewrite Hcs. fold cur. rewrite Z.mod_small by lia. reflexivity.
Qed.

(** X22. [jumpToStep(stepIndex)] does nothing when [stepIndex] is
    negative or not below [totalSteps]; otherwise, with layer outputs
    present, it sets [currentStep] to [stepIndex], highlights that layer
    and sets no timer. *)
Theorem jumpToStep_bounds (w : World) (stepIndex : Z) :
  ((stepIndex < 0 \/ AppState.totalSteps (app w) <= stepIndex)%Z ->
   jumpToStep random sin stepDisplay stepIndex w = (Ok tt, w))
  /\ (forall arch : Arch.t,
        AppState.getCurrentArch (app w) = Some arch ->
        AppState.layerOutputs (app w) <> [] ->
        (length (AppState.layerOutputs (app w))
         <= length (Arch.layers arch))%nat ->
        (0 <= stepIndex < AppState.totalSteps (app w))%Z ->
        exists w' new,
          jumpToStep random sin stepDisplay stepIndex w = (Ok tt, w')
          /\ AppState.currentStep (app w') = stepIndex
          /\ changes_only [FcurrentStep; FoutputNotes] (app w) (app w')
          /\ timers w' = timers w /\ player w' = player w
          /\ events w' = events w ++ new
          /\ highlighted new = [stepIndex]).
Proof.
  split.
  - intros Hout. unfold jumpToStep. erewrite bind_Ok by reflexivity.
    destruct (Z.ltb_spec stepIndex 0); [reflexivity|].
    destruct (Z.geb_spec stepIndex (AppState.totalSteps (app w)));
      [reflexivity|lia].
  - intros arch Ha Hne Hlen Hin. unfold jumpToStep.
    erewrite bind_Ok by reflexivity.
    destruct (Z.ltb_spec stepIndex 0); [lia|].
    destruct (Z.geb_spec stepIndex (AppState.totalSteps (app w))); [lia|].
    cbn [orb]. erewrite bind_Ok by reflexivity.
    set (w0 := with_app (AppState.set_currentStep stepIndex) w).
    destruct (AppState.layerOutputs (app w)) as [|o outs] eqn:Houts;
      [congruence|].
    erewrite bind_Ok by reflexivity.
    destruct (updateStepView_run random stepDisplay w0 arch)
      as (w' & Hrun & Htm & Hpl & _ & Hch & _ & new & Hev & Hhl);
      [exact Ha| |].
    { subst w0. cbn. rewrite Houts. intros [ld Hld].
      unfold at_index in *. destruct (stepIndex <? 0)%Z; [discriminate|].
      apply lookup_lt_is_Some_2. apply lookup_lt_Some in Hld. cbn in *. lia. }
    exists w', new. split; [exact Hrun|].
    split; [rewrite <- (Hch FcurrentStep ltac:(field_notin)); reflexivity|].
    split; [|auto].
    eapply changes_only_trans; [|eapply changes_only_mono; [|exact Hch]; field_subset].
    subst w0. cbn. solve_changes_only.
Qed.

Lemma buildNetwork_run (w : World) (arch : Arch.t) (key : string) :
  AppState.getCurrentArch (app w) = Some arch ->
  Engine3D.buildNetwork key w
  = (Ok tt,
     with_app (AppState.set_totalSteps (Z.of_nat (length (Arch.layers arch))))
       (add_events [ClearNetwork; BuildNetwork key] w)).
Proof.
  intros Ha. unfold Engine3D.buildNetwork.
  erewrite bind_Ok by reflexivity.
  erewrite bind_Ok by reflexivity.
  erewrite bind_Ok by (apply deref_Some; exact Ha).
  erewrite bind_Ok by reflexivity.
  unfold modify_app, with_app, add_events. cbn. rewrite <- app_assoc. reflexivity.
Qed.

Lemma buildNetwork_throw (w : World) (key : string) :
  AppState.getCurrentArch (app w) = None ->
  Engine3D.buildNetwork key w
  = (Throw "TypeError: arch is undefined", add_events [ClearNetwork] w).
Proof.
  intros Ha. unfold Engine3D.buildNetwork.
  erewrite bind_Ok by reflexivity.
  erewrite bind_Ok by reflexivity.
  cbn [app add_events]. rewrite Ha. reflexivity.
Qed.

(** X18. A click on an architecture button whose [data-arch] is a preset
    key selects that preset, resets the step data, rebuilds the network and
    sets [totalSteps] to the number of layers of the new preset; the input
    and the pending timers are kept.  When [data-arch] is not a preset key,
    the handler throws in [buildNetwork] after the network has been
    cleared: [currentArchitecture] already holds the unknown key and
    [totalSteps] still holds the number of layers of the previous
    preset. *)
Theorem archButtonClick_switches (w : World) (key : string) :
  (forall arch : Arch.t,
      AppState.architectures !! key = Some arch ->
      exists w',
        archButtonClick key w = (Ok tt, w')
        /\ AppState.currentArchitecture (app w') = key
        /\ AppState.getCurrentArch (app w') = Some arch
        /\ AppState.totalSteps (app w') = Z.of_nat (length (Arch.layers arch))
        /\ AppState.layerOutputs (app w') = []
        /\ AppState.outputNotes (app w') = []
        /\ AppState.currentStep (app w') = 0%Z
        /\ AppState.isAnimating (app w') = false
        /\ changes_only [FcurrentArchitecture; FlayerOutputs; FcurrentStep;
                         FtotalSteps; FisAnimating; FoutputNotes]
                        (app w) (app w')
        /\ timers w' = timers w /\ player w' = player w
        /\ events w'
           = events w
             ++ [ClearNetwork; BuildNetwork key; UpdateLayerList [];
                 DomSet "layer-info" "style.display" "none";
                 DomSet "tensor-preview" "style.display" "none";
                 SetExplanation (MsgSwitchedTo (Arch.name arch));
                 ConsoleLog (MsgSwitchedTo (Arch.name arch))])
  /\ (AppState.architectures !! key = None ->
      exists e w',
        archButtonClick key w = (Throw e, w')
        /\ AppState.currentArchitecture (app w') = key
        /\ AppState.totalSteps (app w') = AppState.totalSteps (app w)
        /\ AppState.layerOutputs (app w') = []
        /\ timers w' = timers w
        /\ events w' = events w ++ [ClearNetwork]).
Proof.
  split.
  - intros arch Hk. unfold archButtonClick.
    erewrite bind_Ok by reflexivity.
    erewrite bind_Ok by reflexivity.
    set (w0 := with_app AppState.reset
                 (with_app (AppState.set_currentArchitecture key) w)).
    assert (Ha0 : AppState.getCurrentArch (app w0) = Some arch) by exact Hk.
    erewrite bind_Ok by (apply buildNetwork_run; exact Ha0).
    erewrite bind_Ok by (eapply updateLayerList_run; exact Ha0).
    erewrite bind_Ok by reflexivity.
    erewrite bind_Ok by reflexivity.
    erewrite bind_Ok by reflexivity.
    erewrite bind_Ok by (apply deref_Some; exact Ha0).
    unfold updateExplanation. erewrite bind_Ok by reflexivity.
    eexists. split; [reflexivity|]. cbn. rewrite <- !app_assoc.
    repeat (split; [reflexivity|]).
    split; [exact Hk|]. repeat (split; [reflexivity|]).
    split; [solve_changes_only|]. repeat split.
  - intros Hk. unfold archButtonClick.
    erewrite bind_Ok by reflexivity.
    erewrite bind_Ok by reflexivity.
    set (w0 := with_app AppState.reset
                 (with_app (AppState.set_currentArchitecture key) w)).
    assert (Ha0 : AppState.getCurrentArch (app w0) = None) by exact Hk.
    erewrite bind_Throw by (apply buildNetwork_throw; exact Ha0).
    eexists. eexists. split; [reflexivity|]. cbn. repeat split.
Qed.

Lemma resetVisualization_run (w : World) (arch : Arch.t) :
  AppState.getCurrentArch (app w) = Some arch ->
  exists w' new,
    resetVisualization w = (Ok tt, w')
    /\ app w' = (if autoPlayInterval w
                 then AppState.set_isAutoPlaying false (AppState.reset (app w))
                 else AppState.reset (app w))
    /\ timers w' = timers w /\ draws w' = draws w
    /\ player w' = AudioPlayer.initial
    /\ autoPlayInterval w' = false
    /\ events w' = events w ++ new
    /\ highlighted new = [].
Proof.
  intros Ha. unfold resetVisualization.
  erewrite bind_Ok by reflexivity.
  erewrite bind_Ok by reflexivity.
  cbn [autoPlayInterval with_app].
  pose proof stop_run as Hstop.
  destruct (autoPlayInterval w) eqn:Hau; unfold when.
  - erewrite bind_Ok.
    2:{ erewrite bind_Ok by reflexivity. erewrite bind_Ok by reflexivity.
        reflexivity. }
    erewrite bind_Ok by apply Hstop.
    do 5 (erewrite bind_Ok by reflexivity).
    erewrite bind_Ok by (eapply updateLayerList_run; exact Ha).
    do 4 (erewrite bind_Ok by reflexivity).
    unfold updateExplanation. erewrite bind_Ok by reflexivity.
    eexists. eexists. split; [reflexivity|]. cbn.
    rewrite <- ?app_assoc.
    repeat (split; [reflexivity || exact Hau|]).
    unfold stop_events. destruct (currentPart (player w)); reflexivity.
  - erewrite bind_Ok by reflexivity.
    erewrite bind_Ok by apply Hstop.
    do 5 (erewrite bind_Ok by reflexivity).
    erewrite bind_Ok by (eapply updateLayerList_run; exact Ha).
    do 4 (erewrite bind_Ok by reflexivity).
    unfold updateExplanation. erewrite bind_Ok by reflexivity.
    eexists. eexists. split; [reflexivity|]. cbn.
    rewrite <- ?app_assoc.
    repeat (split; [reflexivity || exact Hau|]).
    unfold stop_events. destruct (currentPart (player w)); reflexivity.
Qed.

(** X23. [resetVisualization] resets the step data, stops the player and
    clears the auto-play interval, but leaves the pending timers alone.
    So after a Reset during an animation the pending [animateStep(s)]
    still fires: it highlights layer [s] and sets [currentStep] to [s]
    although there are no layer outputs, and then the animation ends, as
    no further timer is set. *)
Theorem reset_leaves_pending_timers (w : World) (arch : Arch.t) :
  AppState.getCurrentArch (app w) = Some arch ->
  (exists w',
      resetVisualization w = (Ok tt, w')
      /\ timers w' = timers w
      /\ player w' = AudioPlayer.initial
      /\ autoPlayInterval w' = false
      /\ AppState.layerOutputs (app w') = []
      /\ AppState.outputNotes (app w') = []
      /\ AppState.currentStep (app w') = 0%Z
      /\ AppState.isAnimating (app w') = false
      /\ changes_only [FlayerOutputs; FcurrentStep; FisAnimating;
                       FisAutoPlaying; FoutputNotes] (app w) (app w'))
  /\ (forall (t : Timer) (s : Z),
        timers w = [t] -> callback t = CbAnimateStep s ->
        (0 <= s < Z.of_nat (length (Arch.layers arch)))%Z ->
        AppState.isAutoPlaying (app w) = autoPlayInterval w ->
        exists w'' new,
          (resetVisualization;; fireTimer random stepDisplay 0) w = (Ok tt, w'')
          /\ AppState.currentStep (app w'') = s
          /\ AppState.isAnimating (app w'') = false
          /\ AppState.layerOutputs (app w'') = []
          /\ timers w'' = []
          /\ events w'' = events w ++ new
          /\ highlighted new = [s]).
Proof.
  intros Ha.
  destruct (resetVisualization_run w arch Ha)
    as (w' & new & Hrun & Happ & Htm & Hdr & Hpl & Hau & Hev & Hhl).
  assert (Ha' : AppState.getCurrentArch (app w') = Some arch).
  { rewrite Happ. destruct (autoPlayInterval w); exact Ha. }
  split.
  - exists w'. split; [exact Hrun|]. rewrite Happ.
    destruct (autoPlayInterval w); cbn; repeat (split; try assumption);
      solve_changes_only.
  - intros t s Ht Hcb Hs Hinv.
    erewrite bind_Ok by exact Hrun.
    unfold fireTimer. rewrite Htm, Ht. cbn [lookup list_lookup].
    rewrite Hcb. cbn [runCallback delete list_delete].
    set (w1 := with_timers [] w').
    destruct (animateStep_run random stepDisplay w1 arch s) as
      (w2 & Hstep & Happ2 & _ & _ & _ & Hev2 & Htm2); [exact Ha'|lia|].
    assert (Hc : AppState.isAnimating (app w1) || AppState.isAutoPlaying (app w1)
                 = false).
    { subst w1. cbn. rewrite Happ. rewrite <- Hinv.
      destruct (AppState.isAutoPlaying (app w)) eqn:E; cbn; [reflexivity|].
      exact E. }
    rewrite Hc in Hev2, Htm2. rewrite app_nil_r in Hev2, Htm2.
    exists w2. eexists. split; [exact Hstep|].
    rewrite Happ2. cbn [AppState.currentStep AppState.set_currentStep
      AppState.isAnimating AppState.layerOutputs].
    split; [reflexivity|].
    assert (Hfields : AppState.isAnimating (app w1) = false
                      /\ AppState.layerOutputs (app w1) = []).
    { subst w1. cbn. rewrite Happ. destruct (autoPlayInterval w); split; reflexivity. }
    destruct Hfields as [Hia Hlo].
    split; [exact Hia|]. split; [exact Hlo|].
    split; [exact Htm2|].
    split.
    + rewrite Hev2. subst w1. cbn [events with_timers]. rewrite Hev.
      rewrite <- app_assoc. reflexivity.
    + unfold highlighted in *. rewrite omap_app, Hhl.
      unfold step_render_events. subst w1. cbn [app with_timers] in *.
      rewrite Hlo.
      unfold at_index. destruct (s <? 0)%Z; reflexivity.
Qed.

(** X24. With layer outputs present and auto-play off, a click on the
    Auto Play button turns [isAutoPlaying] and the interval on and changes
    nothing else, and a second click restores [AppState] and the interval
    exactly; no timer is set and no random number is drawn. *)
Theorem toggleAutoPlay_twice (w : World) :
  AppState.layerOutputs (app w) <> [] ->
  AppState.isAutoPlaying (app w) = false ->
  autoPlayInterval w = false ->
  exists w1 w2,
    toggleAutoPlay random sin stepDisplay w = (Ok tt, w1)
    /\ AppState.isAutoPlaying (app w1) = true
    /\ autoPlayInterval w1 = true
    /\ changes_only [FisAutoPlaying] (app w) (app w1)
    /\ timers w1 = timers w /\ draws w1 = draws w
    /\ toggleAutoPlay random sin stepDisplay w1 = (Ok tt, w2)
    /\ app w2 = app w
    /\ autoPlayInterval w2 = false
    /\ timers w2 = timers w /\ draws w2 = draws w /\ player w2 = player w
    /\ events w2
       = events w ++ [DomSet "autoplay-btn" "textContent" "⏸️ Pause";
                      DomSet "autoplay-btn" "textContent" "⏯️ Auto Play"].
Proof.
  intros Hne Hap Hau.
  destruct w as [a d p au tm ev]. cbn in Hne, Hap, Hau. subst au.
  destruct a as [ca ind inn lo cs ts ia iap sp te ld on].
  cbn in Hne, Hap. subst iap.
  destruct lo as [|o lo]; [congruence|].
  eexists. eexists.
  split; [reflexivity|]. cbn.
  split; [reflexivity|]. split; [reflexivity|].
  split; [solve_changes_only|].
  split; [reflexivity|]. split; [reflexivity|].
  split; [reflexivity|]. cbn. rewrite <- app_assoc. repeat split.
Qed.

(** X17. [animateStep(step)], for a step of the selected preset, starts a
    particle animation only from [step] to [step + 1] and only when both
    are layers of the architecture, so that the calls of [getTensorShape]
    and [getDataSize] that [animateDataFlow] makes for its particles
    return the [outputShape] and [params] of these two layers and do not
    throw. *)
Theorem data_flow_between_existing_layers (w : World) (arch : Arch.t)
    (step : Z) :
  AppState.getCurrentArch (app w) = Some arch ->
  (0 <= step < Z.of_nat (length (Arch.layers arch)))%Z ->
  exists w' new,
    animateStep random stepDisplay step w = (Ok tt, w')
    /\ events w' = events w ++ new
    /\ forall fromLayer toLayer : Z,
         AnimateDataFlow fromLayer toLayer ∈ new ->
         fromLayer = step /\ toLayer = (step + 1)%Z
         /\ exists f t,
              at_index (Arch.layers arch) fromLayer = Some f
              /\ at_index (Arch.layers arch) toLayer = Some t
              /\ Engine3D.getTensorShape fromLayer toLayer w'
                 = (Ok (Layer.outputShape f, Layer.outputShape t), w')
              /\ Engine3D.getDataSize fromLayer toLayer w'
                 = (Ok (Layer.params f, Layer.params t), w').
Proof.
  intros Ha Hs.
  destruct (animateStep_run random stepDisplay w arch step Ha ltac:(lia))
    as (w' & Hrun & Happ & _ & _ & _ & Hev & _).
  exists w'. eexists. split; [exact Hrun|]. split; [exact Hev|].
  intros fl tl Hin.
  assert (Hflow : AnimateDataFlow fl tl
                  ∈ data_flow_events (AppState.layerOutputs (app w))
                      (Z.of_nat (length (Arch.layers arch))) step).
  { apply elem_of_app in Hin as [Hin|Hin].
    - unfold step_render_events in Hin.
      destruct (at_index (AppState.layerOutputs (app w)) step);
        cbn in Hin;
        repeat (apply elem_of_cons in Hin as [Hin|Hin]; [discriminate|]);
        apply elem_of_nil in Hin; destruct Hin.
    - destruct (_ || _); [exact Hin|]. apply elem_of_nil in Hin. destruct Hin. }
  unfold data_flow_events in Hflow.
  destruct (Z.ltb_spec step (Z.of_nat (length (Arch.layers arch)) - 1))
    as [Hlt|]; [|apply elem_of_nil in Hflow; destruct Hflow].
  destruct (step <? _)%Z; cbn in Hflow;
    [|apply elem_of_nil in Hflow; destruct Hflow].
  apply elem_of_cons in Hflow as [Hflow|Hflow];
    [|apply elem_of_nil in Hflow; destruct Hflow].
  injection Hflow as -> ->.
  split; [reflexivity|]. split; [reflexivity|].
  destruct (at_index_Some (Arch.layers arch) step ltac:(lia)) as [f Hf].
  destruct (at_index_Some (Arch.layers arch) (step + 1) ltac:(lia)) as [t Ht].
  assert (Ha' : AppState.getCurrentArch (app w') = Some arch)
    by (rewrite Happ; exact Ha).
  exists f, t. split; [exact Hf|]. split; [exact Ht|].
  unfold Engine3D.getTensorShape, Engine3D.getDataSize.
  split.
  - erewrite bind_Ok by reflexivity.
    erewrite bind_Ok by (apply deref_Some; exact Ha').
    erewrite bind_Ok by (apply deref_Some; exact Hf).
    erewrite bind_Ok by (apply deref_Some; exact Ht). reflexivity.
  - erewrite bind_Ok by reflexivity.
    erewrite bind_Ok by (apply deref_Some; exact Ha').
    erewrite bind_Ok by (apply deref_Some; exact Hf).
    erewrite bind_Ok by (apply deref_Some; exact Ht). reflexivity.
Qed.

(** X20. [stepForward] with an input but no layer outputs yet, and no
    animation running, processes all layers of the selected preset, chained
    as in a forward pass, shows step 0 and sets no timer: [isAnimating]
    stays false. *)
Theorem stepForward_generates_data (w : World) (notes : list Note.t)
    (arch : Arch.t) :
  AppState.inputData (app w) = Some notes ->
  notes <> [] ->
  AppState.isAnimating (app w) = false ->
  AppState.layerOutputs (app w) = [] ->
  AppState.getCurrentArch (app w) = Some arch ->
  exists w' new k',
    stepForward random sin stepDisplay w = (Ok tt, w')
    /\ length (AppState.layerOutputs (app w')) = length (Arch.layers arch)
    /\ chained random sin (app w') 0 (DNotes notes) (draws w)
               (AppState.layerOutputs (app w')) k'
    /\ AppState.currentStep (app w') = 0%Z
    /\ AppState.isAnimating (app w') = false
    /\ timers w' = timers w /\ player w' = player w
    /\ events w' = events w ++ new
    /\ highlighted new = [0%Z].
Proof.
  intros Hin Hne Han Hlo Ha.
  set (w0 := with_app AppState.reset w).
  assert (Ha0 : AppState.getCurrentArch (app w0) = Some arch) by exact Ha.
  destruct (layersLoop_run random sin arch (Arch.layers arch) 0 (DNotes notes)
              w0 Ha0 eq_refl (presets_layers_ok _ _ Ha))
    as (w1 & outs & Hrun & Houts & Hlen & Hch & Hco & Hev & Htm & Hpl & Hau).
  change (AppState.layerOutputs (app w0)) with (@nil LayerOutput.t) in Houts.
  cbn [Datatypes.app] in Houts.
  assert (Hloop : processAllLayers_loop random sin w0 = (Ok tt, w1)).
  { unfold processAllLayers_loop.
    erewrite bind_Ok by reflexivity.
    erewrite bind_Ok by (apply deref_Some; exact Ha0).
    change (AppState.inputData (app w0)) with (AppState.inputData (app w)).
    rewrite Hin. exact Hrun. }
  assert (Ha1 : AppState.getCurrentArch (app w1) = Some arch).
  { rewrite (changes_only_getCurrentArch _ _ _ Hco) by field_notin. exact Ha0. }
  set (w2 := with_app (AppState.set_currentStep 0) w1).
  destruct (updateStepView_run random stepDisplay w2 arch)
    as (w3 & Hview & Htm3 & Hpl3 & _ & Hch3 & _ & new & Hev3 & Hhl);
    [exact Ha1| |].
  { intros _. apply at_index_Some. subst w2. cbn.
    destruct (getCurrentArch_cases _ _ Ha) as [->|[->|[->| ->]]]; cbn; lia. }
  assert (Htry : generateDataOnly_try random sin stepDisplay w = (Ok tt, w3)).
  { unfold generateDataOnly_try.
    erewrite bind_Ok by reflexivity.
    erewrite bind_Ok by exact Hloop.
    erewrite bind_Ok by reflexivity. exact Hview. }
  exists w3, new, (draws w1).
  split.
  { unfold stepForward. erewrite bind_Ok by reflexivity.
    rewrite Han, Hlo. cbn [length Nat.eqb].
    unfold generateDataOnly. erewrite bind_Ok by reflexivity.
    rewrite Hin. destruct notes as [|n0 notes']; [congruence|].
    apply try_catch_Ok. exact Htry. }
  assert (Hlo3 : AppState.layerOutputs (app w3) = outs).
  { rewrite <- (Hch3 FlayerOutputs ltac:(field_notin)). subst w2. cbn. exact Houts. }
  rewrite Hlo3. split; [exact Hlen|].
  split.
  { eapply chained_frame; [| | |exact Hch].
    - rewrite <- (Hch3 FcurrentArchitecture ltac:(field_notin)). subst w2. cbn.
      exact (Hco FcurrentArchitecture ltac:(field_notin)).
    - rewrite <- (Hch3 FlatentDim ltac:(field_notin)). subst w2. cbn.
      exact (Hco FlatentDim ltac:(field_notin)).
    - rewrite <- (Hch3 Ftemperature ltac:(field_notin)). subst w2. cbn.
      exact (Hco Ftemperature ltac:(field_notin)). }
  split.
  { rewrite <- (Hch3 FcurrentStep ltac:(field_notin)). reflexivity. }
  split.
  { rewrite <- (Hch3 FisAnimating ltac:(field_notin)). subst w2. cbn.
    rewrite <- (Hco FisAnimating ltac:(field_notin)). reflexivity. }
  split; [rewrite Htm3; subst w2; cbn; rewrite Htm; reflexivity|].
  split; [rewrite Hpl3; subst w2; cbn; rewrite Hpl; reflexivity|].
  split; [rewrite Hev3; subst w2; cbn; rewrite Hev; reflexivity|].
  exact Hhl.
Qed.

Lemma draw_generateInput_run (type : string) (w : World) :
  draw (Ok <$> DataGenerator.generateInput random type) w
  = (Ok (fst (DataGenerator.generateInput random type (draws w))),
     with_draws (snd (DataGenerator.generateInput random type (draws w))) w).
Proof.
  unfold draw, fmap, Rand_fmap.
  destruct (DataGenerator.generateInput random type (draws w)). reflexivity.
Qed.

(** X19. [generateInput(type)] of app.js (for a [type] that is not a key
    of [Object.prototype]) always returns normally and
    stores the generated notes in both [inputNotes] and [inputData]; the
    pending timers are kept.  When the selected architecture is a preset
    it then resets the step data and reports the number of notes; when it
    is not, [updateLayerList] throws after the notes were stored and
    drawn, the step data are not reset and the error message is shown. *)
Theorem generateInput_stores_notes (w : World) (type : string) :
  type ∉ object_prototype_keys ->
  let notes := fst (DataGenerator.generateInput random type (draws w)) in
  exists w',
    generateInput random type w = (Ok tt, w')
    /\ AppState.inputData (app w') = Some notes
    /\ AppState.inputNotes (app w') = notes
    /\ draws w' = snd (DataGenerator.generateInput random type (draws w))
    /\ timers w' = timers w /\ player w' = player w
    /\ match AppState.getCurrentArch (app w) with
       | Some _ =>
           app w' = AppState.reset
                      (AppState.set_inputData (Some notes)
                         (AppState.set_inputNotes notes (app w)))
           /\ events w'
              = events w
                ++ [DrawInput notes; UpdateLayerList [];
                    SetExplanation (MsgGenerated (typeNames type) (length notes));
                    ConsoleLog (MsgGenerated (typeNames type) (length notes))]
       | None =>
           app w' = AppState.set_inputData (Some notes)
                      (AppState.set_inputNotes notes (app w))
           /\ events w'
              = events w
                ++ [DrawInput notes;
                    ConsoleError "Error generating input:"
                                 "TypeError: arch is undefined";
                    SetExplanation MsgErrorGeneratingInput;
                    ConsoleLog MsgErrorGeneratingInput]
       end.
Proof.
  intros _ notes. unfold generateInput.
  destruct (AppState.getCurrentArch (app w)) as [arch|] eqn:Ha.
  - eexists. split.
    { apply try_catch_Ok. unfold generateInput_try.
      erewrite bind_Ok by apply draw_generateInput_run.
      erewrite bind_Ok by reflexivity.
      erewrite bind_Ok by reflexivity.
      erewrite bind_Ok by reflexivity.
      erewrite bind_Ok by (eapply updateLayerList_run; exact Ha).
      erewrite bind_Ok by reflexivity.
      unfold updateExplanation. erewrite bind_Ok by reflexivity. reflexivity. }
    cbn. rewrite <- !app_assoc. repeat split.
  - eexists. split.
    { erewrite try_catch_Throw.
      2:{ unfold generateInput_try.
          erewrite bind_Ok by apply draw_generateInput_run.
          erewrite bind_Ok by reflexivity.
          erewrite bind_Ok by reflexivity.
          erewrite bind_Ok by reflexivity.
          apply bind_Throw. unfold Visualizer.updateLayerList.
          erewrite bind_Ok by reflexivity.
          apply bind_Throw.
          match goal with
          | |- deref _ (AppState.getCurrentArch (app ?v)) _ = _ =>
              change (AppState.getCurrentArch (app v))
                with (AppState.getCurrentArch (app w))
          end.
          rewrite Ha. reflexivity. }
      unfold generateInput_catch, updateExplanation.
      erewrite bind_Ok by reflexivity.
      erewrite bind_Ok by reflexivity. reflexivity. }
    cbn. rewrite <- !app_assoc. repeat split.
Qed.

Lemma generateOutput_frame (st st' : AppState.t) (d d' : Data) (k : nat) :
  AppState.temperature st = AppState.temperature st' ->
  DataGenerator.generateOutput random st d k
  = DataGenerator.generateOutput random st' d' k.
Proof.
  intros H. unfold DataGenerator.generateOutput. rewrite H. reflexivity.
Qed.

Lemma generateOutput_draws (st : AppState.t) (d : Data) (k : nat) :
  snd (DataGenerator.generateOutput random st d k) = (k + 64)%nat.
Proof.
  unfold DataGenerator.generateOutput.
  rewrite (mapM_Rand_draws _ 2) by (intros; rand_simpl; lia).
  rewrite length_seq. lia.
Qed.

Lemma after_regenerateOutput_eq (d : Data) (w : World) :
  after_regenerateOutput random d w
  = let notes := fst (DataGenerator.generateOutput random (app w) d (draws w)) in
    add_events [DrawOutput notes]
      (with_app (AppState.set_outputNotes notes)
         (with_draws (draws w + 64) w)).
Proof.
  unfold after_regenerateOutput.
  pose proof (generateOutput_draws (app w) d (draws w)) as H.
  destruct (DataGenerator.generateOutput random (app w) d (draws w)) as [ns k].
  cbn in *. subst k. reflexivity.
Qed.

(** The run of [completeForwardPass] when every layer has an output. *)
Lemma completeForwardPass_twice_run (w : World)
    (arch : Arch.t) (fld : LayerOutput.t) :
  AppState.getCurrentArch (app w) = Some arch ->
  last (AppState.layerOutputs (app w)) = Some fld ->
  length (AppState.layerOutputs (app w)) = length (Arch.layers arch) ->
  let first := fst (DataGenerator.generateOutput random (app w)
                      (LayerOutput.data fld) (draws w)) in
  let second := fst (DataGenerator.generateOutput random (app w)
                       (LayerOutput.data fld) (draws w + 64)) in
  exists w' new,
    completeForwardPass random stepDisplay w = (Ok tt, w')
    /\ draws w' = (draws w + 128)%nat
    /\ AppState.outputNotes (app w') = second
    /\ events w' = events w ++ new
    /\ drawn_outputs new = [first; second].
Proof.
  intros Ha Hlast Hlen first second.
  set (outs := AppState.layerOutputs (app w)) in *.
  set (n := Z.of_nat (length (Arch.layers arch))).
  assert (Hn : Z.of_nat (length outs) = n) by (subst n; lia).
  assert (Hfld : at_index outs (n - 1) = Some fld).
  { rewrite last_lookup in Hlast. unfold at_index.
    assert (outs <> []) by (intros E; rewrite E in Hlast; discriminate).
    assert (0 < length outs)%nat by (destruct outs; [congruence|cbn; lia]).
    destruct (Z.ltb_spec (n - 1) 0); [lia|].
    replace (Z.to_nat (n - 1)) with (Nat.pred (length outs)) by lia.
    exact Hlast. }
  unfold completeForwardPass.
  erewrite bind_Ok by reflexivity.
  erewrite bind_Ok by reflexivity.
  erewrite bind_Ok by reflexivity.
  erewrite bind_Ok by (apply deref_Some; exact Ha).
  erewrite bind_Ok by reflexivity.
  cbn [app with_app add_events AppState.layerOutputs AppState.set_isAnimating].
  fold outs. fold n. rewrite Hn, Hfld.
  set (w1 := with_app (AppState.set_currentStep (n - 1)) _).
  erewrite bind_Ok by apply regenerateOutput_run.
  rewrite after_regenerateOutput_eq. cbv zeta.
  rewrite (generateOutput_frame (app w1) (app w) _ (LayerOutput.data fld))
    by reflexivity.
  change (draws w1) with (draws w). fold first.
  set (w2 := add_events [DrawOutput first] _).
  assert (Ha2 : AppState.getCurrentArch (app w2) = Some arch) by exact Ha.
  (* updateStepView *)
  unfold updateStepView.
  repeat rewrite bind_assoc_M.
  erewrite bind_Ok by reflexivity.
  change (AppState.currentStep (app w2)) with (n - 1)%Z.
  change (AppState.layerOutputs (app w2)) with outs.
  set (disp := if stepDisplay
               then [StepDisplay (n - 1 + 1) (Z.of_nat (length (Arch.layers arch)))]
               else []).
  assert (Hd : when stepDisplay
                 (deref "arch" (AppState.getCurrentArch (app w2))
                  ≫= λ arch0, emit (StepDisplay (n - 1 + 1)
                                   (Z.of_nat (length (Arch.layers arch0))))) w2
               = (Ok tt, add_events disp w2)).
  { subst disp. destruct stepDisplay; cbn.
    - erewrite bind_Ok by (apply deref_Some, Ha2). reflexivity.
    - rewrite add_events_nil. reflexivity. }
  repeat rewrite bind_assoc_M.
  erewrite bind_Ok by exact Hd.
  repeat rewrite bind_assoc_M.
  erewrite bind_Ok by reflexivity.
  repeat rewrite bind_assoc_M.
  erewrite bind_Ok by
    (eapply showLayerInfo_run; [exact Ha2|];
     intros _; apply at_index_Some; subst n;
     destruct (getCurrentArch_cases _ _ Ha) as [->|[->|[->| ->]]]; cbn; lia).
  repeat rewrite bind_assoc_M.
  erewrite bind_Ok by (eapply animateProgress_run; exact Ha2).
  repeat rewrite bind_assoc_M.
  erewrite bind_Ok by (eapply updateLayerList_run; exact Ha2).
  rewrite Hfld, Hn. unfold when. rewrite Z.eqb_refl.
  repeat rewrite bind_assoc_M.
  erewrite bind_Ok by apply regenerateOutput_run.
  rewrite after_regenerateOutput_eq. cbv zeta.
  erewrite bind_Ok by reflexivity.
  unfold updateExplanation. erewrite bind_Ok by reflexivity.
  eexists. eexists. split; [reflexivity|].
  cbn [draws app events add_events with_app with_draws AppState.outputNotes
       AppState.set_outputNotes].
  match goal with
  | |- context [DataGenerator.generateOutput random ?st ?d ?k] =>
      rewrite (generateOutput_frame st (app w) d (LayerOutput.data fld) k)
        by reflexivity
  end.
  change (draws w2) with (draws w + 64)%nat. fold second.
  split; [subst w2 w1; cbn; lia|].
  split; [reflexivity|].
  subst w2 w1. cbn [events add_events with_app with_draws].
  rewrite <- !app_assoc. split; [reflexivity|].
  subst disp. unfold drawn_outputs.
  destruct stepDisplay; reflexivity.
Qed.

(** X25. [completeForwardPass], when every layer has an output, calls
    [generateOutput] twice: once itself and once more in [updateStepView],
    because the current step is then the last one.  It draws 128 random
    numbers, draws two outputs, and [AppState.outputNotes] holds the
    second; it ends the animation at the last layer and sets no timer. *)
Theorem completeForwardPass_generates_output_twice (w : World)
    (arch : Arch.t) (fld : LayerOutput.t) :
  AppState.getCurrentArch (app w) = Some arch ->
  last (AppState.layerOutputs (app w)) = Some fld ->
  length (AppState.layerOutputs (app w)) = length (Arch.layers arch) ->
  let first := fst (DataGenerator.generateOutput random (app w)
                      (LayerOutput.data fld) (draws w)) in
  let second := fst (DataGenerator.generateOutput random (app w)
                       (LayerOutput.data fld) (draws w + 64)) in
  exists w' new,
    completeForwardPass random stepDisplay w = (Ok tt, w')
    /\ draws w' = (draws w + 128)%nat
    /\ AppState.outputNotes (app w') = second
    /\ events w' = events w ++ new
    /\ drawn_outputs new = [first; second]
    /\ AppState.isAnimating (app w') = false
    /\ AppState.currentStep (app w')
       = (Z.of_nat (length (Arch.layers arch)) - 1)%Z
    /\ timers w' = timers w.
Proof.
  intros Ha Hlast Hlen first second.
  destruct (completeForwardPass_twice_run w arch fld Ha Hlast Hlen)
    as (w' & new & Hrun & Hdr & Hout & Hev & Hdo).
  destruct (completeForwardPass_run random stepDisplay w arch Ha)
    as (w'' & Hrun' & Han & Hcs & Htm & _).
  assert (w'' = w') by congruence. subst w''.
  exists w', new.
  split; [exact Hrun|]. split; [exact Hdr|]. split; [exact Hout|].
  split; [exact Hev|]. split; [exact Hdo|].
  split; [exact Han|]. split; [exact Hcs|exact Htm].
Qed.

Lemma generateOutput_times (st : AppState.t) (d : Data) (k : nat) :
  Forall2 (fun i n => Note.time n = Some (inject_Z (Z.of_nat i) * 0.25)%Q
                      /\ Note.duration n = 0.25%Q)
          (seq 0 32) (fst (DataGenerator.generateOutput random st d k)).
Proof.
  unfold DataGenerator.generateOutput.
  apply mapM_Rand_Forall2. intros i k0. rand_simpl. split; reflexivity.
Qed.

(** X14. When [AppState.outputNotes] is an output of [generateOutput],
    the listener of the Play button returns with the call of [play]
    suspended at [await Tone.start()]: player, timers and [AppState] are
    as they were.  When that call goes on, it starts a playback of 32
    events and sets the auto-stop timer to 8500 ms; [AppState] is still
    unchanged. *)
Theorem play_generated_output (w : World) (st : AppState.t) (d : Data)
    (k : nat) :
  AppState.outputNotes (app w)
  = fst (DataGenerator.generateOutput random st d k) ->
  exists w1 w' t dl part,
    playButtonClick w = (Ok tt, w1)
    /\ player w1 = player w
    /\ timers w1 = timers w
    /\ app w1 = app w
    /\ suspended w1 = suspended w ++ [AppState.outputNotes (app w)]
    /\ AudioPlayer.toneStarted (length (suspended w)) w1 = (Ok tt, w')
    /\ isPlaying (player w') = true
    /\ currentPart (player w') = Some part
    /\ length part = 32%nat
    /\ timers w' = timers w ++ [t]
    /\ callback t = CbAudioStop
    /\ delay t = Some dl
    /\ (dl == 8500)%Q
    /\ app w' = app w
    /\ suspended w' = suspended w.
Proof.
  intros Hout.
  pose proof (generateOutput_times st d k) as Ht. rewrite <- Hout in Ht.
  pose proof (Forall2_length _ _ _ Ht) as Hlen. cbn in Hlen.
  destruct (Forall2_lookup_l _ _ _ 31%nat 31%nat Ht eq_refl)
    as (l & Hl & Htime & Hdur).
  assert (Hlast : last (AppState.outputNotes (app w)) = Some l).
  { rewrite last_lookup, <- Hlen. exact Hl. }
  assert (Hclick : playButtonClick w
                   = (Ok tt, with_suspended
                               (suspended w ++ [AppState.outputNotes (app w)])
                               (add_events [ToneStart] w))).
  { unfold playButtonClick. erewrite bind_Ok by reflexivity.
    destruct (AppState.outputNotes (app w)) as [|n0 ns] eqn:E; [discriminate|].
    reflexivity. }
  pose proof (toneStarted_at
                (with_suspended (suspended w ++ [AppState.outputNotes (app w)])
                   (add_events [ToneStart] w))
                (suspended w) [] (AppState.outputNotes (app w)) eq_refl)
    as Hgo.
  unfold resumed in Hgo. rewrite Hlast in Hgo.
  cbn [mbind option_bind] in Hgo. rewrite Htime, Hdur in Hgo.
  eexists _, _, _, _, _. split; [exact Hclick|].
  split; [reflexivity|]. split; [reflexivity|]. split; [reflexivity|].
  split; [reflexivity|]. split; [exact Hgo|].
  cbn [app player timers suspended with_timers with_player with_suspended
       add_events isPlaying currentPart].
  split; [reflexivity|]. split; [reflexivity|].
  split; [rewrite length_map; lia|].
  split; [reflexivity|]. split; [reflexivity|]. split; [reflexivity|].
  split; [reflexivity|]. split; [reflexivity|]. apply app_nil_r.
Qed.

End AppExtras.

Section Pipeline.
Variable random : nat -> Q.
Variable sin : Q -> Q.
Variable stepDisplay : bool.


End Pipeline.

Section Guards.
Variable random : nat -> Q.
Variable sin : Q -> Q.
Variable stepDisplay : bool.

(** X27. Without input ([inputData] is [null] or empty), "Run Forward
    Pass", [generateDataOnly], a first "Step Forward" and a tick of the
    auto-play interval only ask for input: nothing else changes, no random
    number is drawn and no timer is set.  "Auto Play" asks for input as
    well but still turns [isAutoPlaying] and the interval on. *)
Theorem missing_input_guards (w : World) :
  AppState.inputData (app w) = None \/ AppState.inputData (app w) = Some [] ->
  let asked :=
    add_events [SetExplanation MsgPleaseGenerateInput;
                ConsoleLog MsgPleaseGenerateInput] w in
  runForwardPass random sin stepDisplay w = (Ok tt, asked)
  /\ generateDataOnly random sin stepDisplay w = (Ok tt, asked)
  /\ (AppState.isAnimating (app w) = false ->
      AppState.layerOutputs (app w) = [] ->
      stepForward random sin stepDisplay w = (Ok tt, asked)
      /\ ((AppState.currentStep (app w) < AppState.totalSteps (app w) - 1)%Z ->
          autoPlayTick random sin stepDisplay w = (Ok tt, asked)))
  /\ (AppState.isAutoPlaying (app w) = false ->
      AppState.layerOutputs (app w) = [] ->
      exists w',
        toggleAutoPlay random sin stepDisplay w = (Ok tt, w')
        /\ AppState.isAutoPlaying (app w') = true
        /\ autoPlayInterval w' = true
        /\ changes_only [FisAutoPlaying] (app w) (app w')
        /\ timers w' = timers w /\ draws w' = draws w
        /\ events w'
           = events w ++ [DomSet "autoplay-btn" "textContent" "⏸️ Pause";
                          SetExplanation MsgPleaseGenerateInput;
                          ConsoleLog MsgPleaseGenerateInput]).
Proof.
  intros Hin asked.
  assert (Hrun : forall v : World,
             AppState.inputData (app v) = AppState.inputData (app w) ->
             runForwardPass random sin stepDisplay v
             = (Ok tt, add_events [SetExplanation MsgPleaseGenerateInput;
                                   ConsoleLog MsgPleaseGenerateInput] v)).
  { intros v Hv. unfold runForwardPass. erewrite bind_Ok by reflexivity.
    rewrite Hv. unfold updateExplanation.
    destruct Hin as [-> | ->]; erewrite bind_Ok by reflexivity;
      unfold emit, add_events; cbn; rewrite <- ?app_assoc; reflexivity. }
  assert (Hgen : generateDataOnly random sin stepDisplay w = (Ok tt, asked)).
  { unfold generateDataOnly. erewrite bind_Ok by reflexivity.
    unfold updateExplanation.
    destruct Hin as [-> | ->]; erewrite bind_Ok by reflexivity;
      subst asked; unfold emit, add_events; cbn; rewrite <- ?app_assoc;
      reflexivity. }
  split; [apply Hrun; reflexivity|]. split; [exact Hgen|]. split.
  - intros Han Hlo.
    assert (Hstep : stepForward random sin stepDisplay w = (Ok tt, asked)).
    { unfold stepForward. erewrite bind_Ok by reflexivity.
      rewrite Han, Hlo. exact Hgen. }
    split; [exact Hstep|].
    intros Hcs. unfold autoPlayTick. erewrite bind_Ok by reflexivity.
    destruct (Z.geb_spec (AppState.currentStep (app w))
                (AppState.totalSteps (app w) - 1)); [lia|].
    erewrite bind_Ok by reflexivity. exact Hstep.
  - intros Hap Hlo. unfold toggleAutoPlay.
    erewrite bind_Ok by reflexivity.
    erewrite bind_Ok by reflexivity.
    cbn [app with_app AppState.isAutoPlaying AppState.set_isAutoPlaying
         AppState.layerOutputs].
    rewrite Hap, Hlo. cbn [negb length Nat.eqb when].
    erewrite bind_Ok by reflexivity.
    erewrite bind_Ok by (apply Hrun; reflexivity).
    eexists. split; [reflexivity|]. cbn. rewrite <- ?app_assoc, ?Hap.
    split; [reflexivity|]. split; [reflexivity|].
    split; [solve_changes_only|]. repeat split.
Qed.

End Guards.

(** ** An invariant of the page *)

Section Keeps.
Variable random : nat -> Q.
Variable sin : Q -> Q.
Variable parseFloat : string -> Q.
Variable parseInt : string -> nat.
Variable stepDisplay : bool.

Lemma keeps_ret {A} (a : A) : keeps_autoplay (mret a : M A).
Proof. intros w. split; reflexivity. Qed.

Lemma keeps_throw {A} (e : string) : keeps_autoplay (throw e : M A).
Proof. intros w. split; reflexivity. Qed.

Lemma keeps_bind {A B} (m : M A) (f : A -> M B) :
  keeps_autoplay m -> (forall a, keeps_autoplay (f a)) ->
  keeps_autoplay (m ≫= f).
Proof.
  intros Hm Hf w. unfold mbind, M_bind.
  specialize (Hm w). destruct (m w) as [[a|e] w1]; cbn in *; [|exact Hm].
  specialize (Hf a w1). destruct Hm, Hf. split; congruence.
Qed.

Lemma keeps_try_catch {A} (body : M A) (handler : string -> M A) :
  keeps_autoplay body -> (forall e, keeps_autoplay (handler e)) ->
  keeps_autoplay (try_catch body handler).
Proof.
  intros Hm Hf w. unfold try_catch.
  specialize (Hm w). destruct (body w) as [[a|e] w1]; cbn in *; [exact Hm|].
  specialize (Hf e w1). destruct Hm, Hf. split; congruence.
Qed.

Lemma keeps_get_app : keeps_autoplay get_app.
Proof. intros w. split; reflexivity. Qed.

Lemma keeps_get_player : keeps_autoplay get_player.
Proof. intros w. split; reflexivity. Qed.

Lemma keeps_set_player (p : PlayerState) : keeps_autoplay (set_player p).
Proof. intros w. split; reflexivity. Qed.

Lemma keeps_get_autoPlayInterval : keeps_autoplay get_autoPlayInterval.
Proof. intros w. split; reflexivity. Qed.

Lemma keeps_emit (e : Event) : keeps_autoplay (emit e).
Proof. intros w. split; reflexivity. Qed.

Lemma keeps_setTimeout (cb : Callback) (d : option Q) :
  keeps_autoplay (setTimeout cb d).
Proof. intros w. split; reflexivity. Qed.

Lemma keeps_await_in_play (notes : list Note.t) :
  keeps_autoplay (await_in_play notes).
Proof. intros w. split; reflexivity. Qed.

Lemma keeps_draw {A} (g : Rand (Res A)) : keeps_autoplay (draw g).
Proof. intros w. unfold draw. destruct (g (draws w)). split; reflexivity. Qed.

Lemma keeps_deref {A} (what : string) (x : option A) :
  keeps_autoplay (deref what x).
Proof. destruct x; [apply keeps_ret|apply keeps_throw]. Qed.

Lemma keeps_modify_app (f : AppState.t -> AppState.t) :
  (forall st, AppState.isAutoPlaying (f st) = AppState.isAutoPlaying st) ->
  keeps_autoplay (modify_app f).
Proof. intros Hf w. split; [apply Hf|reflexivity]. Qed.

Lemma keeps_when (b : bool) (m : M unit) :
  keeps_autoplay m -> keeps_autoplay (when b m).
Proof. intros Hm. destruct b; [exact Hm|apply keeps_ret]. Qed.

Hint Resolve keeps_ret keeps_throw keeps_get_app keeps_get_player
  keeps_set_player keeps_get_autoPlayInterval keeps_emit keeps_setTimeout
  keeps_await_in_play keeps_draw keeps_deref : keeps.

(** One step of the analysis of a piece of code. *)
Ltac keeps_step :=
  first
    [ solve [auto with keeps nocore]
    | apply keeps_bind; [|intros ?]
    | apply keeps_try_catch; [|intros ?]
    | apply keeps_when
    | apply keeps_modify_app; intros ?; reflexivity
    | match goal with
      | |- keeps_autoplay (match ?x with _ => _ end) => destruct x
      end ].

Ltac keeps := repeat keeps_step.

Lemma keeps_updateExplanation (text : Message) :
  keeps_autoplay (updateExplanation text).
Proof. unfold updateExplanation. keeps. Qed.
Hint Resolve keeps_updateExplanation : keeps.

Lemma keeps_drawInput ns : keeps_autoplay (Visualizer.drawInput ns).
Proof. unfold Visualizer.drawInput. keeps. Qed.

Lemma keeps_drawOutput ns : keeps_autoplay (Visualizer.drawOutput ns).
Proof. unfold Visualizer.drawOutput. keeps. Qed.

Lemma keeps_animateProgress s t :
  keeps_autoplay (Visualizer.animateProgress s t).
Proof. unfold Visualizer.animateProgress. keeps. Qed.

Lemma keeps_updateLayerInfo ld s :
  keeps_autoplay (Visualizer.updateLayerInfo ld s).
Proof. unfold Visualizer.updateLayerInfo. keeps. Qed.

Lemma keeps_updateLayerList ls :
  keeps_autoplay (Visualizer.updateLayerList ls).
Proof. unfold Visualizer.updateLayerList. keeps. Qed.

Lemma keeps_showLoadingAnimation :
  keeps_autoplay Visualizer.showLoadingAnimation.
Proof. unfold Visualizer.showLoadingAnimation. keeps. Qed.

Lemma keeps_hideLoadingAnimation :
  keeps_autoplay Visualizer.hideLoadingAnimation.
Proof. unfold Visualizer.hideLoadingAnimation. keeps. Qed.

Lemma keeps_highlightLayer i : keeps_autoplay (Engine3D.highlightLayer i).
Proof. unfold Engine3D.highlightLayer. keeps. Qed.

Lemma keeps_buildNetwork a : keeps_autoplay (Engine3D.buildNetwork a).
Proof. unfold Engine3D.buildNetwork. keeps. Qed.

Lemma keeps_animateDataFlow f t (k : M unit) :
  keeps_autoplay k -> keeps_autoplay (Engine3D.animateDataFlow f t k).
Proof. intros Hk. unfold Engine3D.animateDataFlow. keeps. Qed.

Hint Resolve keeps_drawInput keeps_drawOutput keeps_animateProgress
  keeps_updateLayerInfo keeps_updateLayerList keeps_showLoadingAnimation
  keeps_hideLoadingAnimation keeps_highlightLayer keeps_buildNetwork
  keeps_animateDataFlow : keeps.

Lemma keeps_stop : keeps_autoplay AudioPlayer.stop.
Proof. unfold AudioPlayer.stop. keeps. Qed.
Hint Resolve keeps_stop : keeps.

Lemma keeps_play notes : keeps_autoplay (AudioPlayer.play notes).
Proof. unfold AudioPlayer.play. keeps. Qed.
Hint Resolve keeps_play : keeps.

Lemma keeps_play_resumed ns : keeps_autoplay (AudioPlayer.play_resumed ns).
Proof. unfold AudioPlayer.play_resumed. keeps. Qed.

Lemma keeps_toneStarted i : keeps_autoplay (AudioPlayer.toneStarted i).
Proof.
  intros w. unfold AudioPlayer.toneStarted.
  destruct (suspended w !! i) as [ns|]; [|split; reflexivity].
  apply (keeps_play_resumed ns (with_suspended (delete i (suspended w)) w)).
Qed.

Lemma keeps_regenerateOutput d : keeps_autoplay (regenerateOutput random d).
Proof. unfold regenerateOutput. keeps. Qed.
Hint Resolve keeps_regenerateOutput : keeps.

Lemma keeps_showLayerInfo ld s : keeps_autoplay (showLayerInfo ld s).
Proof. unfold showLayerInfo. keeps. Qed.
Hint Resolve keeps_showLayerInfo : keeps.

Lemma keeps_layersLoop layers :
  forall i d, keeps_autoplay (layersLoop random sin layers i d).
Proof.
  induction layers as [|l layers IH]; intros i d; cbn [layersLoop]; keeps.
Qed.
Hint Resolve keeps_layersLoop : keeps.

Lemma keeps_updateStepView : keeps_autoplay (updateStepView random stepDisplay).
Proof. unfold updateStepView. keeps. Qed.
Hint Resolve keeps_updateStepView : keeps.

Lemma keeps_completeForwardPass :
  keeps_autoplay (completeForwardPass random stepDisplay).
Proof. unfold completeForwardPass. keeps. Qed.
Hint Resolve keeps_completeForwardPass : keeps.

Lemma keeps_animateStep step :
  keeps_autoplay (animateStep random stepDisplay step).
Proof. unfold animateStep. keeps. Qed.
Hint Resolve keeps_animateStep : keeps.

Lemma keeps_processAllLayers_loop :
  keeps_autoplay (processAllLayers_loop random sin).
Proof. unfold processAllLayers_loop. keeps. Qed.
Hint Resolve keeps_processAllLayers_loop : keeps.

Lemma keeps_runForwardPass :
  keeps_autoplay (runForwardPass random sin stepDisplay).
Proof.
  unfold runForwardPass, runForwardPass_try, runForwardPass_catch,
    processAllLayers.
  keeps.
Qed.
Hint Resolve keeps_runForwardPass : keeps.

Lemma keeps_generateDataOnly :
  keeps_autoplay (generateDataOnly random sin stepDisplay).
Proof.
  unfold generateDataOnly, generateDataOnly_try, generateDataOnly_catch.
  keeps.
Qed.
Hint Resolve keeps_generateDataOnly : keeps.

Lemma keeps_stepForward : keeps_autoplay (stepForward random sin stepDisplay).
Proof. unfold stepForward. keeps. Qed.
Hint Resolve keeps_stepForward : keeps.

Lemma keeps_stepBack : keeps_autoplay stepBack.
Proof. unfold stepBack. keeps. Qed.

Lemma keeps_generateInput type : keeps_autoplay (generateInput random type).
Proof.
  unfold generateInput, generateInput_try, generateInput_catch. keeps.
Qed.

Lemma keeps_jumpToStep i :
  keeps_autoplay (jumpToStep random sin stepDisplay i).
Proof. unfold jumpToStep. keeps. Qed.

Lemma keeps_autoPlayTick :
  keeps_autoplay (autoPlayTick random sin stepDisplay).
Proof. unfold autoPlayTick. keeps. Qed.

Lemma keeps_archButtonClick arch : keeps_autoplay (archButtonClick arch).
Proof. unfold archButtonClick. keeps. Qed.

Lemma keeps_sliders value :
  keeps_autoplay (tempSliderInput parseFloat value)
  /\ keeps_autoplay (latentSliderInput parseInt value)
  /\ keeps_autoplay (speedSliderInput parseFloat value).
Proof.
  unfold tempSliderInput, latentSliderInput, speedSliderInput.
  repeat split; keeps.
Qed.

Lemma keeps_playButtonClick : keeps_autoplay playButtonClick.
Proof. unfold playButtonClick. keeps. Qed.

Lemma keeps_fireTimer i : keeps_autoplay (fireTimer random stepDisplay i).
Proof.
  intros w. unfold fireTimer.
  destruct (timers w !! i) as [t|]; [|split; reflexivity].
  assert (H : keeps_autoplay (runCallback random stepDisplay (callback t))).
  { unfold runCallback. keeps. }
  apply (H (with_timers (delete i (timers w)) w)).
Qed.

Lemma keeps_fireInterval :
  keeps_autoplay (fireInterval random sin stepDisplay).
Proof.
  pose proof keeps_autoPlayTick. unfold fireInterval. keeps.
Qed.

Lemma keeps_initApp canvas3d : keeps_autoplay (initApp canvas3d).
Proof.
  unfold initApp, initApp_try, initApp_catch, initializeArchitecture. keeps.
Qed.

Lemma runForwardPass_returns (w : World) :
  exists w', runForwardPass random sin stepDisplay w = (Ok tt, w').
Proof.
  unfold runForwardPass. erewrite bind_Ok by reflexivity.
  assert (Hmsg : forall v, exists v',
             updateExplanation MsgPleaseGenerateInput v = (Ok tt, v'))
    by (intros v; eexists; reflexivity).
  destruct (AppState.inputData (app w)) as [[|n ns]|]; [apply Hmsg| |apply Hmsg].
  destruct (AppState.isAnimating (app w)); [eexists; reflexivity|].
  unfold try_catch.
  destruct (runForwardPass_try random sin stepDisplay w) as [[[]|e] w1];
    eexists; reflexivity.
Qed.

(** X28. In every state the page can reach, [AppState.isAutoPlaying] is
    true exactly when the auto-play interval is set: only "Auto Play" and
    "Reset" touch either of them, and they change both together.  So
    [toggleAutoPlay] never starts a second interval while one is
    running. *)
Theorem autoplay_flag_matches_interval (w : World) :
  reachable random sin parseFloat parseInt stepDisplay w ->
  AppState.isAutoPlaying (app w) = autoPlayInterval w.
Proof.
  assert (Hkeep : forall (m : M unit) (v : World),
             keeps_autoplay m ->
             AppState.isAutoPlaying (app v) = autoPlayInterval v ->
             AppState.isAutoPlaying (app (snd (m v)))
             = autoPlayInterval (snd (m v))).
  { intros m v Hm Hv. destruct (Hm v) as [-> ->]. exact Hv. }
  induction 1 as [canvas3d|a w _ IH].
  - apply Hkeep; [apply keeps_initApp|reflexivity].
  - destruct a; cbn [perform];
      try (apply Hkeep; [|exact IH];
           first [ apply keeps_archButtonClick | apply keeps_generateInput
                 | apply keeps_sliders | apply keeps_runForwardPass
                 | apply keeps_stepForward | apply keeps_stepBack
                 | apply keeps_playButtonClick | apply keeps_stop
                 | apply keeps_jumpToStep | apply keeps_fireTimer
                 | apply keeps_fireInterval | apply keeps_toneStarted ]).
    + (* Reset: the interval and the flag are cleared together *)
      unfold resetVisualization.
      erewrite bind_Ok by reflexivity.
      erewrite bind_Ok by reflexivity.
      set (w1 := with_app AppState.reset w).
      assert (H1 : AppState.isAutoPlaying (app w1) = autoPlayInterval w1)
        by exact IH.
      change (autoPlayInterval w1) with (autoPlayInterval w) in *.
      destruct (autoPlayInterval w) eqn:Hau; unfold when.
      * erewrite bind_Ok.
        2:{ erewrite bind_Ok by reflexivity. erewrite bind_Ok by reflexivity.
            reflexivity. }
        apply Hkeep; [keeps|reflexivity].
      * erewrite bind_Ok by reflexivity.
        apply Hkeep; [keeps|]. rewrite H1. symmetry. exact Hau.
    + (* Auto Play: the flag is flipped and the interval follows *)
      unfold toggleAutoPlay.
      erewrite bind_Ok by reflexivity.
      erewrite bind_Ok by reflexivity.
      set (w1 := with_app _ w).
      destruct (AppState.isAutoPlaying (app w1)) eqn:Hflag.
      * erewrite bind_Ok by reflexivity.
        set (w2 := add_events _ w1).
        assert (Hrun : exists w3,
                   when (length (AppState.layerOutputs (app w1)) =? 0)%nat
                        (runForwardPass random sin stepDisplay) w2
                   = (Ok tt, w3)
                   /\ AppState.isAutoPlaying (app w3) = true).
        { destruct (length (AppState.layerOutputs (app w1)) =? 0)%nat;
            unfold when.
          - destruct (runForwardPass_returns w2) as [w3 Hw3].
            exists w3. split; [exact Hw3|].
            pose proof (keeps_runForwardPass w2) as [E _].
            rewrite Hw3 in E. cbn in E. rewrite E. exact Hflag.
          - exists w2. split; [reflexivity|exact Hflag]. }
        destruct Hrun as (w3 & Hrun & Hflag3).
        erewrite bind_Ok by exact Hrun. cbn. exact Hflag3.
      * erewrite bind_Ok by reflexivity.
        erewrite bind_Ok by reflexivity.
        cbn [autoPlayInterval add_events].
        change (autoPlayInterval w1) with (autoPlayInterval w).
        destruct (autoPlayInterval w) eqn:E; cbn; rewrite ?E; exact Hflag.
Qed.

End Keeps.

(** ** Instances *)

Lemma latent_sampling_sizes_and_ranges_witness :
  exists mu sigma z,
    DataGenerator.applyLatentSampling (always (1#2)) AppState.initial DNull 0
    = (DLatent mu sigma z, 384%nat)
    /\ length mu = 128%nat.
Proof.
  destruct (latent_sampling_sizes_and_ranges (always (1#2)) AppState.initial
              DNull 0) as (mu & sigma & z & Hrun & Hmu & _).
  - apply half_in_range.
  - exists mu, sigma, z. split; [exact Hrun|exact Hmu].
Defined.

Lemma note_mapping_layers_keep_the_notes_witness :
  exists out k',
    DataGenerator.layerTransform (always (1#2)) AppState.initial "conv" 1
      (DNotes DataGenerator.generateScale) 0 = (Ok (DNotes out), k')
    /\ Forall2 same_core DataGenerator.generateScale out.
Proof.
  destruct (note_mapping_layers_keep_the_notes (always (1#2)) AppState.initial
              "conv" 1 (DNotes DataGenerator.generateScale) 0)
    as (out & k' & Hrun & Hcore & _).
  - reflexivity.
  - exists out, k'. split; [exact Hrun|exact Hcore].
Defined.


Lemma forward_pass_final_note_count_witness :
  exists w1 o out,
    forward_pass_until_animation (always (1#2)) flat_sin demo_input = (Ok tt, w1)
    /\ last (AppState.layerOutputs (app w1)) = Some o
    /\ LayerOutput.data o = DNotes out
    /\ length out = 88%nat.
Proof.
  destruct (forward_pass_final_note_count (always (1#2)) flat_sin true
              demo_input DataGenerator.generateScale AppState.VAE)
    as (w1 & o & out & Hpre & _ & Hlast & Hdata & Hlen).
  - vm_compute. reflexivity.
  - intros E. apply (f_equal length) in E. vm_compute in E. discriminate.
  - reflexivity.
  - reflexivity.
  - exists w1, o, out. split; [exact Hpre|]. split; [exact Hlast|].
    split; [exact Hdata|exact Hlen].
Defined.

Lemma vae_decoder_ignores_latent_sample_witness :
  exists w1 o,
    forward_pass_until_animation (always (1#2)) flat_sin demo_input = (Ok tt, w1)
    /\ AppState.layerOutputs (app w1) !! 4%nat = Some o
    /\ LayerOutput.layer o = "Decoder Dense".
Proof.
  destruct (vae_decoder_ignores_latent_sample (always (1#2)) flat_sin true
              demo_input DataGenerator.generateScale)
    as (w1 & o & Hpre & _ & Ho & Hname & _).
  - vm_compute. reflexivity.
  - intros E. apply (f_equal length) in E. vm_compute in E. discriminate.
  - reflexivity.
  - reflexivity.
  - exists w1, o. split; [exact Hpre|]. split; [exact Ho|exact Hname].
Defined.

Lemma midiToNote_names_witness :
  exists name,
    pitch_class_names !! 0%nat = Some name
    /\ AudioPlayer.midiToNote 60 = Some (name +:+ "4").
Proof.
  destruct (proj1 (midiToNote_names 60) 60%Z) as (name & Hn & Hm).
  - reflexivity.
  - vm_compute. split; reflexivity.
  - lia.
  - exists name. split; [exact Hn|exact Hm].
Defined.

Lemma midiToNote_injective_witness : (2 * 30 = 60)%Z.
Proof.
  apply (midiToNote_injective (2 * 30) 60 "C4");
    first [reflexivity | vm_compute; split; reflexivity].
Defined.

Lemma audio_parts_never_leak_witness :
  exists w',
    audioCalls [CallPlay (Some DataGenerator.generateScale);
                CallPlay (Some DataGenerator.generateChords);
                CallResume 1; CallStop; CallResume 0; CallResume 0]
               initialWorld = (Ok tt, w')
    /\ live_parts (events w') = 1%Z.
Proof.
  destruct (audio_parts_never_leak
              [CallPlay (Some DataGenerator.generateScale);
               CallPlay (Some DataGenerator.generateChords);
               CallResume 1; CallStop; CallResume 0; CallResume 0]
              initialWorld) as (w' & Hrun & Hacc & _).
  - reflexivity.
  - exists w'. split; [exact Hrun|].
    rewrite Hacc. vm_compute in Hrun. injection Hrun as <-. reflexivity.
Defined.

Lemma audio_auto_stop_timer_witness :
  (exists w',
      (AudioPlayer.play (Some DataGenerator.generateScale);;
       AudioPlayer.toneStarted 0;;
       fireTimer (always (1#2)) true 0) initialWorld = (Ok tt, w')
      /\ player w' = AudioPlayer.initial)
  /\ exists w' t,
      (AudioPlayer.play (Some DataGenerator.generateScale);;
       AudioPlayer.play (Some DataGenerator.generateChords);;
       AudioPlayer.toneStarted 0;; AudioPlayer.toneStarted 0;;
       fireTimer (always (1#2)) true 0) initialWorld = (Ok tt, w')
      /\ player w' = AudioPlayer.initial
      /\ timers w' = [t].
Proof.
  destruct (audio_auto_stop_timer (always (1#2)) true initialWorld
              DataGenerator.generateScale DataGenerator.generateChords)
    as (_ & _ & (w' & Hrun & Hpl & _) & Hlater).
  - intros E. apply (f_equal length) in E. vm_compute in E. discriminate.
  - split; [exists w'; split; [exact Hrun|exact Hpl]|].
    destruct Hlater as (w2 & t & Hrun2 & Hpl2 & Htm2 & _).
    + intros E. apply (f_equal length) in E. vm_compute in E. discriminate.
    + exists w2, t. split; [exact Hrun2|]. split; [exact Hpl2|exact Htm2].
Defined.

Lemma play_generated_output_witness :
  exists w1 w' t dl,
    playButtonClick demo_done = (Ok tt, w1)
    /\ player w1 = player demo_done
    /\ AudioPlayer.toneStarted 0 w1 = (Ok tt, w')
    /\ timers w' = timers demo_done ++ [t]
    /\ delay t = Some dl /\ (dl == 8500)%Q.
Proof.
  destruct (play_generated_output (always (1#2)) demo_done AppState.initial
              DNull 0)
    as (w1 & w' & t & dl & part & Hrun & Hpl & _ & _ & _ & Hgo & _ & _ & _
        & Htm & _ & Hd & Hv & _).
  - vm_compute. reflexivity.
  - exists w1, w', t, dl. split; [exact Hrun|]. split; [exact Hpl|].
    split; [exact Hgo|]. split; [exact Htm|]. split; [exact Hd|exact Hv].
Defined.

Lemma layer_grid_fits_witness :
  (0 <= 7 / Engine3D.grid_cols (Engine3D.getNodeCount "time")
   < Engine3D.grid_rows (Engine3D.getNodeCount "time"))%Z.
Proof.
  destruct (layer_grid_fits "time") as (_ & Hfit & _); [field_notin|].
  destruct (Hfit 7%Z) as [Hrow _].
  - vm_compute. split; [discriminate|reflexivity].
  - exact Hrow.
Defined.

Lemma network_nodes_do_not_overlap_witness :
  let latent := Layer.mk "Latent Space" "latent" "[T, 512]" "[128]" "" 0 0 "" "" in
  exists p,
    Engine3D.layer_positions [latent] 0 latent !! 5%nat = Some p
    /\ (0 = 0 /\ 5 = 5)%nat.
Proof.
  intros latent. eexists. split; [reflexivity|].
  eapply (network_nodes_do_not_overlap [latent] 0 0 latent latent 5 5);
    first [reflexivity | repeat constructor; cbn; field_notin].
Defined.

Lemma data_flow_between_existing_layers_witness :
  exists w' new,
    animateStep (always (1#2)) true 0 demo_loaded = (Ok tt, w')
    /\ events w' = events demo_loaded ++ new.
Proof.
  destruct (data_flow_between_existing_layers (always (1#2)) true demo_loaded
              AppState.VAE 0) as (w' & new & Hrun & Hev & _).
  - reflexivity.
  - vm_compute. split; [discriminate|reflexivity].
  - exists w', new. split; [exact Hrun|exact Hev].
Defined.

Lemma archButtonClick_switches_witness :
  exists w',
    archButtonClick "LSTM" demo_input = (Ok tt, w')
    /\ AppState.totalSteps (app w') = 5%Z.
Proof.
  destruct (proj1 (archButtonClick_switches demo_input "LSTM") AppState.LSTM)
    as (w' & Hrun & _ & _ & Htot & _).
  - reflexivity.
  - exists w'. split; [exact Hrun|exact Htot].
Defined.

Lemma stepForward_generates_data_witness :
  exists w',
    stepForward (always (1#2)) flat_sin true demo_input = (Ok tt, w')
    /\ length (AppState.layerOutputs (app w')) = 7%nat
    /\ timers w' = [].
Proof.
  destruct (stepForward_generates_data (always (1#2)) flat_sin true demo_input
              DataGenerator.generateScale AppState.VAE)
    as (w' & new & k' & Hrun & Hlen & _ & _ & _ & Htm & _).
  - vm_compute. reflexivity.
  - intros E. apply (f_equal length) in E. vm_compute in E. discriminate.
  - reflexivity.
  - reflexivity.
  - reflexivity.
  - exists w'. split; [exact Hrun|]. split; [exact Hlen|exact Htm].
Defined.

Lemma autoPlayTick_cycles_witness :
  exists w',
    autoPlayTick (always (1#2)) flat_sin true demo_done = (Ok tt, w')
    /\ AppState.currentStep (app w') = 0%Z.
Proof.
  destruct (autoPlayTick_cycles (always (1#2)) flat_sin true demo_done
              AppState.VAE) as (w' & Hrun & Hcs & _).
  - reflexivity.
  - reflexivity.
  - vm_compute. discriminate.
  - vm_compute. split; discriminate.
  - exists w'. split; [exact Hrun|exact Hcs].
Defined.

Lemma jumpToStep_bounds_witness :
  exists w',
    jumpToStep (always (1#2)) flat_sin true 3 demo_done = (Ok tt, w')
    /\ AppState.currentStep (app w') = 3%Z.
Proof.
  destruct (proj2 (jumpToStep_bounds (always (1#2)) flat_sin true demo_done 3)
              AppState.VAE) as (w' & new & Hrun & Hcs & _).
  - reflexivity.
  - vm_compute. discriminate.
  - vm_compute. lia.
  - vm_compute. split; [discriminate|reflexivity].
  - exists w'. split; [exact Hrun|exact Hcs].
Defined.

Lemma reset_leaves_pending_timers_witness :
  exists w'',
    (resetVisualization;; fireTimer (always (1#2)) true 0) demo_running
    = (Ok tt, w'')
    /\ AppState.currentStep (app w'') = 1%Z
    /\ AppState.layerOutputs (app w'') = []
    /\ timers w'' = [].
Proof.
  destruct (reset_leaves_pending_timers (always (1#2)) true demo_running
              AppState.VAE) as [_ Hstale].
  - reflexivity.
  - destruct (Hstale {| callback := CbAnimateStep 1; delay := Some (1000 / 1)%Q |} 1%Z)
      as (w'' & new & Hrun & Hcs & _ & Hlo & Htm & _).
    + vm_compute. reflexivity.
    + reflexivity.
    + vm_compute. split; [discriminate|reflexivity].
    + reflexivity.
    + exists w''. split; [exact Hrun|]. split; [exact Hcs|].
      split; [exact Hlo|exact Htm].
Defined.

Lemma toggleAutoPlay_twice_witness :
  exists w1 w2,
    toggleAutoPlay (always (1#2)) flat_sin true demo_done = (Ok tt, w1)
    /\ toggleAutoPlay (always (1#2)) flat_sin true w1 = (Ok tt, w2)
    /\ app w2 = app demo_done.
Proof.
  destruct (toggleAutoPlay_twice (always (1#2)) flat_sin true demo_done)
    as (w1 & w2 & Hrun1 & _ & _ & _ & _ & _ & Hrun2 & Happ & _).
  - vm_compute. discriminate.
  - reflexivity.
  - reflexivity.
  - exists w1, w2. split; [exact Hrun1|]. split; [exact Hrun2|exact Happ].
Defined.

Lemma completeForwardPass_generates_output_twice_witness :
  exists w' new,
    completeForwardPass (always (1#2)) true demo_last_step = (Ok tt, w')
    /\ draws w' = (draws demo_last_step + 128)%nat
    /\ events w' = events demo_last_step ++ new
    /\ length (drawn_outputs new) = 2%nat.
Proof.
  destruct (last (AppState.layerOutputs (app demo_last_step))) as [fld|] eqn:E;
    [|vm_compute in E; discriminate].
  destruct (completeForwardPass_generates_output_twice (always (1#2)) true
              demo_last_step AppState.VAE fld)
    as (w' & new & Hrun & Hdr & _ & Hev & Hdo & _).
  - reflexivity.
  - exact E.
  - vm_compute. reflexivity.
  - exists w', new. split; [exact Hrun|]. split; [exact Hdr|].
    split; [exact Hev|]. rewrite Hdo. reflexivity.
Defined.


Lemma missing_input_guards_witness :
  runForwardPass (always (1#2)) flat_sin true pageLoaded
  = (Ok tt, add_events [SetExplanation MsgPleaseGenerateInput;
                        ConsoleLog MsgPleaseGenerateInput] pageLoaded).
Proof.
  destruct (missing_input_guards (always (1#2)) flat_sin true pageLoaded)
    as [Hrun _].
  - left. reflexivity.
  - exact Hrun.
Defined.

Lemma autoplay_flag_matches_interval_witness :
  let page :=
    snd (perform (always (1#2)) flat_sin (fun _ => 1%Q) (fun _ => 128%nat)
                 true ClickAutoPlay pageLoaded) in
  AppState.isAutoPlaying (app page) = autoPlayInterval page.
Proof.
  apply (autoplay_flag_matches_interval (always (1#2)) flat_sin
           (fun _ => 1%Q) (fun _ => 128%nat) true).
  apply reachable_step. apply (reachable_init _ _ _ _ _ true).
Defined.

Lemma generateInput_stores_notes_witness :
  exists w',
    generateInput (always (1#2)) "scale" pageLoaded = (Ok tt, w')
    /\ AppState.inputData (app w') = Some DataGenerator.generateScale.
Proof.
  destruct (generateInput_stores_notes (always (1#2)) pageLoaded "scale")
    as (w' & Hrun & Hin & _).
  - field_notin.
  - exists w'. split; [exact Hrun|exact Hin].
Defined.
